(** * StreamScribe Enhanced: chunked transcription, verified model

    A shallow embedding of [streamscribe_enhanced.py]: the chunk generator
    [create_audio_chunks], the per-chunk transcription step, the writers of
    the text, JSON, SRT and resume files, the signal handler and the
    top-level process ([main] and the import guard).

    Conventions.
    - Python [int]s are [Z]; Python [str]s are [string]s of ASCII
      characters; a Python [float] is an IEEE binary64 value, a
      [spec_float] of the standard library's [SpecFloat] at precision 53
      and [emax] 1024.
    - The command-line flags [--chunk-duration] and [--overlap] are parsed
      with [type=int]; the duration reported by the resolver is taken as a
      whole number of seconds, so chunk offsets are [Z].
    - External collaborators (the video resolver, FFmpeg, Whisper, the
      clock, the argument parser) are fields of an environment record
      [env]; they take the number of the call so that repeated calls may
      answer differently.
    - The file system of the model holds the regular files the program
      opens by name; directories ([os.makedirs]) and the temporary chunk
      file that a transcription makes and removes again are not part of
      it.  Opening a file succeeds; console output is not modelled.
    - The built-ins on characters ([str.isspace], [str.isalnum]) are
      embedded for ASCII text; statements that depend on them carry
      [Py.is_ascii] as a hypothesis. *)

From Stdlib Require Import ZArith Lia Bool Ascii String.
From Stdlib.Strings Require Import Byte.
From Stdlib Require Import SpecFloat.
From stdpp Require Import prelude strings pretty gmap.

Local Open Scope string_scope.
Local Open Scope Z_scope.

(** ** Python built-ins used by the program *)

Module Py.

(** Every character of the text is an ASCII character. *)
Definition is_ascii (s : string) : bool :=
  forallb (fun a => (nat_of_ascii a <? 128)%nat) (list_ascii_of_string s).

(** [str.isspace] on one ASCII character: TAB, LF, VT, FF, CR, the four
    separators FS..US and the space.  (Python also counts white space
    beyond ASCII, such as U+00A0.) *)
Definition isspace (a : ascii) : bool :=
  let n := nat_of_ascii a in
  ((9 <=? n) && (n <=? 13) || (28 <=? n) && (n <=? 32))%nat.

(** [str.isalnum] on one ASCII character.  (Python also counts the
    letters and digits beyond ASCII.) *)
Definition isalnum (a : ascii) : bool :=
  let n := nat_of_ascii a in
  ((48 <=? n) && (n <=? 57) || (65 <=? n) && (n <=? 90)
   || (97 <=? n) && (n <=? 122))%nat.

Fixpoint lstrip (s : string) : string :=
  match s with
  | String a s' => if isspace a then lstrip s' else s
  | EmptyString => EmptyString
  end.

Fixpoint rstrip (s : string) : string :=
  match s with
  | EmptyString => EmptyString
  | String a s' =>
      match rstrip s' with
      | EmptyString => if isspace a then EmptyString else String a EmptyString
      | r => String a r
      end
  end.

(** [s.strip()] *)
Definition strip (s : string) : string := rstrip (lstrip s).

(** [''.join(c for c in s if p(c))] *)
Fixpoint filter_chars (p : ascii -> bool) (s : string) : string :=
  match s with
  | EmptyString => EmptyString
  | String a s' => if p a then String a (filter_chars p s') else filter_chars p s'
  end.

(** [s[:n]] for [n >= 0] *)
Fixpoint take (n : nat) (s : string) : string :=
  match n, s with
  | S n', String a s' => String a (take n' s')
  | _, _ => EmptyString
  end.

(** [s.replace(old, new)] for a non-empty [old]: every non-overlapping
    occurrence, scanning from the left.  [skip] counts the characters of
    an occurrence that are still to be dropped. *)
Fixpoint replace_from (old new : string) (skip : nat) (s : string) : string :=
  match s with
  | EmptyString => EmptyString
  | String a s' =>
      match skip with
      | S k => replace_from old new k s'
      | O =>
          if String.prefix old s
          then new +:+ replace_from old new (String.length old - 1) s'
          else String a (replace_from old new O s')
      end
  end.

Definition replace (old new s : string) : string := replace_from old new 0 s.

(** Truth value of a [str] or [None] in a condition. *)
Definition truthy (o : option string) : bool :=
  match o with
  | None | Some EmptyString => false
  | Some _ => true
  end.

(** [f"{o}"] for a value that is a [str] or [None]. *)
Definition str_of_opt (o : option string) : string :=
  match o with Some s => s | None => "None" end.

(** [str(z)] for an [int]. *)
Definition str (z : Z) : string := pretty z.

Fixpoint zeros (n : nat) : string :=
  match n with O => EmptyString | S n' => String "0" (zeros n') end.

(** [f"{z:0{w}d}"]: sign-aware zero padding to a minimum width. *)
Definition format_0d (w : nat) (z : Z) : string :=
  let digits := pretty (Z.abs_N z) in
  if z <? 0
  then "-" +:+ zeros (w - 1 - String.length digits) +:+ digits
  else zeros (w - String.length digits) +:+ digits.

(** [posixpath.join(a, b)] *)
Definition path_join (a b : string) : string :=
  if String.prefix "/" b then b
  else if (String.length a =? 0)%nat then b
  else if String.prefix "/" (String.rev a) then a +:+ b
  else a +:+ "/" +:+ b.

(** [timedelta(seconds=z)] raises [OverflowError] unless the number of
    days is within 999999999 either way. *)
Definition timedelta_ok (z : Z) : bool :=
  (-999999999 <=? z / 86400) && (z / 86400 <=? 999999999).

(** [str(timedelta(seconds=z))] for an [int] number of seconds within
    that range. *)
Definition timedelta_str (z : Z) : string :=
  let days := z / 86400 in
  let secs := z mod 86400 in
  let mm := secs / 60 in
  let ss := secs mod 60 in
  let hh := mm / 60 in
  let mm := mm mod 60 in
  let s := str hh +:+ ":" +:+ format_0d 2 mm +:+ ":" +:+ format_0d 2 ss in
  if days =? 0 then s
  else str days +:+ " day" +:+ (if Z.abs days =? 1 then "" else "s") +:+ ", " +:+ s.

End Py.

(** ** Python floats: IEEE binary64 *)

Module F64.

Definition prec : Z := 53.
Definition emax : Z := 1024.

Definition add := SFadd prec emax.
Definition sub := SFsub prec emax.
Definition mul := SFmul prec emax.
Definition div := SFdiv prec emax.
Definition ltb := SFltb.

Definition is_zero (x : spec_float) : bool :=
  match x with S754_zero _ => true | _ => false end.

Definition sign (x : spec_float) : bool :=
  match x with
  | S754_zero s | S754_infinity s | S754_finite s _ _ => s
  | S754_nan => false
  end.

(** The nearest binary64 to an integer ([PyLong_AsDouble] without its
    overflow check, which [of_int] below adds). *)
Definition of_Z (z : Z) : spec_float := binary_normalize prec emax z 0 false.

Definition zero : spec_float := S754_zero false.
Definition one : spec_float := of_Z 1.
Definition half : spec_float := div one (of_Z 2).

(** C [fmod]: the exact remainder of [x / y], with the sign of [x]. *)
Definition fmod (x y : spec_float) : spec_float :=
  match x, y with
  | S754_nan, _ | _, S754_nan => S754_nan
  | S754_infinity _, _ => S754_nan
  | _, S754_zero _ => S754_nan
  | _, S754_infinity _ => x
  | S754_zero _, _ => x
  | S754_finite sx mx ex, S754_finite _ my ey =>
      let e := Z.min ex ey in
      let X := Z.pos mx * 2 ^ (ex - e) in
      let Y := Z.pos my * 2 ^ (ey - e) in
      binary_normalize prec emax (cond_Zopp sx (X mod Y)) e sx
  end.

(** C [floor]. *)
Definition floor (x : spec_float) : spec_float :=
  match x with
  | S754_finite s m e =>
      if 0 <=? e then x
      else binary_normalize prec emax (Z.shiftr (cond_Zopp s (Z.pos m)) (- e)) 0 s
  | _ => x
  end.

(** C [copysign(0.0, y)]. *)
Definition zero_with_sign_of (y : spec_float) : spec_float := S754_zero (sign y).

(** [float.__mod__] (CPython [float_rem]); [None] is [ZeroDivisionError]. *)
Definition float_rem (vx wx : spec_float) : option spec_float :=
  if is_zero wx then None
  else
    let mod_ := fmod vx wx in
    Some (if negb (is_zero mod_)
          then if negb (Bool.eqb (ltb wx zero) (ltb mod_ zero))
               then add mod_ wx else mod_
          else zero_with_sign_of wx).

(** [float.__floordiv__] (CPython [float_floor_div], through
    [_float_div_mod]); [None] is [ZeroDivisionError]. *)
Definition float_floor_div (vx wx : spec_float) : option spec_float :=
  if is_zero wx then None
  else
    let mod_ := fmod vx wx in
    let div_ := div (sub vx mod_) wx in
    let div_ :=
      if negb (is_zero mod_) && negb (Bool.eqb (ltb wx zero) (ltb mod_ zero))
      then sub div_ one else div_ in
    Some (if negb (is_zero div_)
          then let floordiv := floor div_ in
               if ltb half (sub div_ floordiv) then add floordiv one else floordiv
          else zero_with_sign_of (div vx wx)).

(** [int(x)] for a float: truncation toward zero; [None] is the
    [ValueError] or [OverflowError] raised for NaN and the infinities. *)
Definition to_int (x : spec_float) : option Z :=
  match x with
  | S754_zero _ => Some 0
  | S754_finite s m e =>
      Some (cond_Zopp s (if 0 <=? e then Z.pos m * 2 ^ e else Z.pos m / 2 ^ (- e)))
  | _ => None
  end.

(** Conversion of an [int] operand in mixed arithmetic; [None] is
    [OverflowError]. *)
Definition of_int (z : Z) : option spec_float :=
  match of_Z z with
  | S754_infinity _ | S754_nan => None
  | f => Some f
  end.

(** A finite binary64 value that is not negative. *)
Definition nonneg_finite (x : spec_float) : Prop :=
  valid_binary prec emax x = true /\
  match x with
  | S754_zero _ => True
  | S754_finite s _ _ => s = false
  | _ => False
  end.

End F64.

(** A Python number: an [int] or a [float]. *)
Inductive pynum :=
  | PyInt (z : Z)
  | PyFloat (f : spec_float).

Module Num.

(** Binary operators on numbers: two [int]s stay [int]; otherwise the
    [int] operand is converted to [float].  [None] is a raised
    exception. *)
Definition lift2 (fi : Z -> Z -> option Z)
    (ff : spec_float -> spec_float -> option spec_float)
    (a b : pynum) : option pynum :=
  match a, b with
  | PyInt x, PyInt y => PyInt <$> fi x y
  | PyInt x, PyFloat y => x' ← F64.of_int x; PyFloat <$> ff x' y
  | PyFloat x, PyInt y => y' ← F64.of_int y; PyFloat <$> ff x y'
  | PyFloat x, PyFloat y => PyFloat <$> ff x y
  end.

(** [a // b] *)
Definition floordiv : pynum -> pynum -> option pynum :=
  lift2 (fun x y => if y =? 0 then None else Some (x / y)) F64.float_floor_div.

(** [a % b] *)
Definition mod_ : pynum -> pynum -> option pynum :=
  lift2 (fun x y => if y =? 0 then None else Some (x mod y)) F64.float_rem.

(** [a * b] *)
Definition mul : pynum -> pynum -> option pynum :=
  lift2 (fun x y => Some (x * y)) (fun x y => Some (F64.mul x y)).

(** [int(a)] *)
Definition int (a : pynum) : option Z :=
  match a with
  | PyInt z => Some z
  | PyFloat f => F64.to_int f
  end.

End Num.

(** ** Data model *)

(** The dictionary yielded by [create_audio_chunks]. *)
Record chunk := {
  chunk_data : list byte;
  chunk_start_time : Z;
  chunk_duration_ : Z;
  chunk_chunk_number : Z;
}.

(** The dictionary returned by [transcribe_audio_chunk]: a transcript
    segment. *)
Record segment := {
  seg_text : string;
  seg_start_time : Z;
  seg_end_time : Z;
  seg_duration : Z;
  seg_chunk_number : Z;
  seg_language : string;
  seg_timestamp : string;
}.

(** What the resolver ([yt_dlp]'s [extract_info]) answers; an absent key
    is [None]. *)
Record format_info := {
  fmt_acodec : option string;
  fmt_url : option string;
}.

Record yt_info := {
  info_title : option string;
  info_duration : option Z;
  info_uploader : option string;
  info_description : option string;
  info_formats : option (list format_info);
}.

(** The dictionary returned by [extract_youtube_info]. *)
Record video_info := {
  vi_title : string;
  vi_duration : Z;
  vi_audio_url : option string;
  vi_uploader : string;
  vi_description : string;
}.

(** JSON documents, as [json.dump] receives them. *)
#[warnings="-register-all"]
Inductive json :=
  | JNull
  | JInt (z : Z)
  | JStr (s : string)
  | JList (l : list json)
  | JDict (l : list (string * json)).

(** What one [f.write] or [json.dump] adds to a file; the content of a
    file is the sequence of pieces written to it. *)
Inductive piece :=
  | Text (s : string)
  | Json (j : json).

(** The file system: path to content. *)
Abbreviation files := (gmap string (list piece)).

(** The fields of a [ChunkedStreamScribe] object. *)
Record scribe := {
  model_size : string;
  chunk_duration : Z;
  overlap_duration : Z;
  whisper_model : bool;
  is_running : bool;
  is_interrupted : bool;
  total_duration : Z;
  processed_duration : Z;
  transcripts : list segment;
  output_file : option string;
  progress_bar : option bool;
}.

(** [progress_bar] is [None] before the bar is created, [Some true] while
    it is open and [Some false] once closed (the bar is console display
    only); [whisper_model] tells whether the model is loaded. *)

(** ** The external collaborators *)

Inductive ffmpeg_result :=
  | PopenRaises
  | FfmpegExit (returncode : Z) (audio_data : list byte).

Inductive whisper_result :=
  | TranscribeRaises
  | TranscribeReturns (text language : option string).

Record cli_args := {
  arg_url : string;
  arg_model : string;
  arg_chunk_duration : Z;
  arg_overlap : Z;
  arg_output_dir : string;
}.

Record env := {
  (** do the imports of the module succeed *)
  imports_ok : bool;
  (** [parser.parse_args()]: [None] when the parser rejects the command
      line (it then exits with status 2) *)
  parse_args : option cli_args;
  makedirs_ok : bool;
  load_model_ok : bool;
  (** [ydl.extract_info(url, download=False)]; [None] when it raises *)
  extract_info : string -> option yt_info;
  (** the [n]-th run of FFmpeg, with its [-ss] and [-t] arguments *)
  ffmpeg : nat -> Z -> Z -> ffmpeg_result;
  (** the [n]-th call of the model *)
  whisper : nat -> list byte -> whisper_result;
  (** [datetime.now().isoformat()] and
      [datetime.now().strftime("%Y%m%d_%H%M%S")] at step [n] *)
  now_isoformat : nat -> string;
  now_stamp : nat -> string;
}.

Definition set_running (b : bool) (s : scribe) : scribe :=
  {| model_size := model_size s; chunk_duration := chunk_duration s;
     overlap_duration := overlap_duration s; whisper_model := whisper_model s;
     is_running := b; is_interrupted := is_interrupted s;
     total_duration := total_duration s;
     processed_duration := processed_duration s;
     transcripts := transcripts s; output_file := output_file s;
     progress_bar := progress_bar s |}.

Definition set_interrupted (b : bool) (s : scribe) : scribe :=
  {| model_size := model_size s; chunk_duration := chunk_duration s;
     overlap_duration := overlap_duration s; whisper_model := whisper_model s;
     is_running := is_running s; is_interrupted := b;
     total_duration := total_duration s;
     processed_duration := processed_duration s;
     transcripts := transcripts s; output_file := output_file s;
     progress_bar := progress_bar s |}.

Definition set_whisper_model (b : bool) (s : scribe) : scribe :=
  {| model_size := model_size s; chunk_duration := chunk_duration s;
     overlap_duration := overlap_duration s; whisper_model := b;
     is_running := is_running s; is_interrupted := is_interrupted s;
     total_duration := total_duration s;
     processed_duration := processed_duration s;
     transcripts := transcripts s; output_file := output_file s;
     progress_bar := progress_bar s |}.

Definition set_total_duration (d : Z) (s : scribe) : scribe :=
  {| model_size := model_size s; chunk_duration := chunk_duration s;
     overlap_duration := overlap_duration s; whisper_model := whisper_model s;
     is_running := is_running s; is_interrupted := is_interrupted s;
     total_duration := d;
     processed_duration := processed_duration s;
     transcripts := transcripts s; output_file := output_file s;
     progress_bar := progress_bar s |}.

Definition set_processed_duration (d : Z) (s : scribe) : scribe :=
  {| model_size := model_size s; chunk_duration := chunk_duration s;
     overlap_duration := overlap_duration s; whisper_model := whisper_model s;
     is_running := is_running s; is_interrupted := is_interrupted s;
     total_duration := total_duration s;
     processed_duration := d;
     transcripts := transcripts s; output_file := output_file s;
     progress_bar := progress_bar s |}.

Definition set_transcripts (l : list segment) (s : scribe) : scribe :=
  {| model_size := model_size s; chunk_duration := chunk_duration s;
     overlap_duration := overlap_duration s; whisper_model := whisper_model s;
     is_running := is_running s; is_interrupted := is_interrupted s;
     total_duration := total_duration s;
     processed_duration := processed_duration s;
     transcripts := l; output_file := output_file s;
     progress_bar := progress_bar s |}.

Definition set_output_file (o : option string) (s : scribe) : scribe :=
  {| model_size := model_size s; chunk_duration := chunk_duration s;
     overlap_duration := overlap_duration s; whisper_model := whisper_model s;
     is_running := is_running s; is_interrupted := is_interrupted s;
     total_duration := total_duration s;
     processed_duration := processed_duration s;
     transcripts := transcripts s; output_file := o;
     progress_bar := progress_bar s |}.

Definition set_progress_bar (o : option bool) (s : scribe) : scribe :=
  {| model_size := model_size s; chunk_duration := chunk_duration s;
     overlap_duration := overlap_duration s; whisper_model := whisper_model s;
     is_running := is_running s; is_interrupted := is_interrupted s;
     total_duration := total_duration s;
     processed_duration := processed_duration s;
     transcripts := transcripts s; output_file := output_file s;
     progress_bar := o |}.

(** [self.progress_bar.close()], the bar being there. *)
Definition close_progress_bar (s : scribe) : scribe :=
  match progress_bar s with
  | Some _ => set_progress_bar (Some false) s
  | None => s
  end.

(** [int(self.total_duration / (self.chunk_duration - self.overlap_duration)) + 1]
    of [run]; [None] is [ZeroDivisionError].  The quotient is truncated
    toward zero; the value is the total of the progress bar. *)
Definition total_chunks (s : scribe) : option Z :=
  let d := chunk_duration s - overlap_duration s in
  if d =? 0 then None else Some (Z.quot (total_duration s) d + 1).

(** The truth value of [self.progress_bar] in a condition: [None] is
    false, and a [tqdm] bar is true when its total is positive.  The bar
    is made with the total [total_chunks], from fields that no statement
    assigns once the bar exists. *)
Definition bar_is_true (s : scribe) : bool :=
  match progress_bar s, total_chunks s with
  | Some _, Some total => 0 <? total
  | _, _ => false
  end.

(** [if self.progress_bar: self.progress_bar.close()] *)
Definition close_if_true (s : scribe) : scribe :=
  if bar_is_true s then close_progress_bar s else s.

(** [open(path, 'w')] followed by the writes [content]; the file can be
    opened. *)
Definition write_file (path : string) (content : list piece) (fs : files) : files :=
  <[path := content]> fs.

(** [open(path, 'a')] followed by the writes [content]. *)
Definition append_file (path : string) (content : list piece) (fs : files) : files :=
  <[path := (default [] (fs !! path) ++ content)%list]> fs.

(** ** The methods of [ChunkedStreamScribe] *)

Definition __init__ (model : string) (chunk overlap : Z) : scribe :=
  {| model_size := model;
     chunk_duration := chunk;
     overlap_duration := overlap;
     whisper_model := false;
     is_running := false;
     is_interrupted := false;
     total_duration := 0;
     processed_duration := 0;
     transcripts := [];
     output_file := None;
     progress_bar := None |}.

(** The loop over [info.get('formats', [])] with its [break]. *)
Fixpoint find_audio_url (formats : list format_info) : option string :=
  match formats with
  | [] => None
  | f :: rest =>
      if decide (fmt_acodec f = Some "none") then find_audio_url rest
      else fmt_url f
  end.

(** [extract_youtube_info]; [None] when the resolver raises (the method
    re-raises). *)
Definition extract_youtube_info (e : env) (url : string) (s : scribe)
    : option (video_info * scribe) :=
  info ← extract_info e url;
  let audio_url := find_audio_url (default [] (info_formats info)) in
  let duration := default 0 (info_duration info) in
  Some ({| vi_title := default "Unknown" (info_title info);
           vi_duration := duration;
           vi_audio_url := audio_url;
           vi_uploader := default "Unknown" (info_uploader info);
           vi_description :=
             if Py.truthy (info_description info)
             then Py.take 200 (default "" (info_description info)) +:+ "..."
             else "" |},
        set_total_duration duration s).

(** [transcribe_audio_chunk]: [r] is what the model answers for the chunk,
    [now] the clock reading.  The method hands the audio to the model in a
    temporary [.wav] file, which it removes before it returns; that file
    is not one of the modelled files.  Every exception inside the method
    is caught there and gives [None]. *)
Definition transcribe_audio_chunk (r : whisper_result) (now : string)
    (chunk_data : chunk) : option segment :=
  match r with
  | TranscribeRaises => None
  | TranscribeReturns text language =>
      let transcript := Py.strip (default "" text) in
      if negb (Py.truthy (Some transcript)) then None
      else Some {| seg_text := transcript;
                   seg_start_time := chunk_start_time chunk_data;
                   seg_end_time := chunk_start_time chunk_data + chunk_duration_ chunk_data;
                   seg_duration := chunk_duration_ chunk_data;
                   seg_chunk_number := chunk_chunk_number chunk_data;
                   seg_language := default "unknown" language;
                   seg_timestamp := now |}
  end.

(** [format_time], for a whole number of seconds within the range of
    [timedelta] ([Py.timedelta_ok]); beyond it the call raises. *)
Definition format_time (seconds : Z) : string := Py.timedelta_str seconds.

(** The line [save_transcript] appends to the running text file, and the
    two effects of the method one after the other: the line is written
    first, the segment is appended to [self.transcripts] afterwards. *)
Definition transcript_line (transcript : segment) : string :=
  "[" +:+ format_time (seg_start_time transcript) +:+ " - "
  +:+ format_time (seg_end_time transcript) +:+ "] "
  +:+ seg_text transcript +:+ String "010" "".

Definition write_transcript_line (transcript : segment) (s : scribe) (fs : files)
    : files :=
  append_file (Py.str_of_opt (output_file s)) [Text (transcript_line transcript)] fs.

Definition append_transcript (transcript : segment) (s : scribe) : scribe :=
  set_transcripts (transcripts s ++ [transcript])%list s.

(** [save_transcript(transcript)], with the default [format_type], as a
    whole. *)
Definition save_transcript (transcript : segment) (s : scribe) (fs : files)
    : scribe * files :=
  if negb (Py.truthy (output_file s)) then (s, fs)
  else
    let start_time := format_time (seg_start_time transcript) in
    let end_time := format_time (seg_end_time transcript) in
    let line := "[" +:+ start_time +:+ " - " +:+ end_time +:+ "] "
                +:+ seg_text transcript +:+ String "010" "" in
    (set_transcripts (transcripts s ++ [transcript])%list s,
     append_file (Py.str_of_opt (output_file s)) [Text line] fs).

Definition segment_json (t : segment) : json :=
  JDict [("text", JStr (seg_text t));
         ("start_time", JInt (seg_start_time t));
         ("end_time", JInt (seg_end_time t));
         ("duration", JInt (seg_duration t));
         ("chunk_number", JInt (seg_chunk_number t));
         ("language", JStr (seg_language t));
         ("timestamp", JStr (seg_timestamp t))].

Definition resume_data (s : scribe) (now : string) : json :=
  JDict [("transcripts", JList (segment_json <$> transcripts s));
         ("processed_duration", JInt (processed_duration s));
         ("total_duration", JInt (total_duration s));
         ("interrupted_at", JStr now)].

Definition resume_file (s : scribe) : string :=
  Py.str_of_opt (output_file s) +:+ ".resume.json".

(** [_save_partial_results] *)
Definition _save_partial_results (now : string) (s : scribe) (fs : files) : files :=
  match transcripts s with
  | [] => fs
  | _ => write_file (resume_file s) [Json (resume_data s now)] fs
  end.

(** [_seconds_to_srt_time]; [None] when an operation raises. *)
Definition _seconds_to_srt_time (seconds : pynum) : option string :=
  q ← Num.floordiv seconds (PyInt 3600);
  hours ← Num.int q;
  r ← Num.mod_ seconds (PyInt 3600);
  q ← Num.floordiv r (PyInt 60);
  minutes ← Num.int q;
  r ← Num.mod_ seconds (PyInt 60);
  secs ← Num.int r;
  r ← Num.mod_ seconds (PyInt 1);
  p ← Num.mul r (PyInt 1000);
  millisecs ← Num.int p;
  Some (Py.format_0d 2 hours +:+ ":" +:+ Py.format_0d 2 minutes +:+ ":"
        +:+ Py.format_0d 2 secs +:+ "," +:+ Py.format_0d 3 millisecs).

Definition newline : string := String "010" "".

(** The loop of [save_final_results] that writes the SRT records, [i]
    being the index of the next record: the text written, and whether the
    loop ran to its end without raising. *)
Fixpoint write_srt (i : Z) (l : list segment) (written : string) : string * bool :=
  match l with
  | [] => (written, true)
  | transcript :: rest =>
      match _seconds_to_srt_time (PyInt (seg_start_time transcript)),
            _seconds_to_srt_time (PyInt (seg_end_time transcript)) with
      | Some start_time, Some end_time =>
          write_srt (i + 1) rest
            (written +:+ Py.str i +:+ newline
             +:+ start_time +:+ " --> " +:+ end_time +:+ newline
             +:+ seg_text transcript +:+ newline +:+ newline)
      | _, _ => (written, false)
      end
  end.

Definition video_info_json (v : video_info) : json :=
  JDict [("title", JStr (vi_title v));
         ("duration", JInt (vi_duration v));
         ("audio_url", from_option JStr JNull (vi_audio_url v));
         ("uploader", JStr (vi_uploader v));
         ("description", JStr (vi_description v))].

Definition json_data (v : video_info) (s : scribe) (now : string) : json :=
  JDict [("video_info", video_info_json v);
         ("transcripts", JList (segment_json <$> transcripts s));
         ("processing_info",
          JDict [("model_size", JStr (model_size s));
                 ("chunk_duration", JInt (chunk_duration s));
                 ("overlap_duration", JInt (overlap_duration s));
                 ("total_chunks", JInt (Z.of_nat (length (transcripts s))));
                 ("processed_at", JStr now)])].

(** [save_final_results]: the files afterwards, and whether the method
    returned ([true]) or raised ([false]). *)
Definition save_final_results (v : video_info) (now : string) (s : scribe)
    (fs : files) : files * bool :=
  match transcripts s with
  | [] => (fs, true)
  | _ =>
      match output_file s with
      | None => (fs, false)
      | Some path =>
          let base_name := Py.replace ".txt" "" path in
          let json_file := base_name +:+ ".json" in
          let fs := write_file json_file [Json (json_data v s now)] fs in
          let srt_file := base_name +:+ ".srt" in
          let '(written, completed) := write_srt 1 (transcripts s) "" in
          (write_file srt_file [Text written] fs, completed)
      end
  end.

(** The signal handler [_signal_handler]: the object and the files when
    it reaches [sys.exit(0)]. *)
Definition _signal_handler (now : string) (s : scribe) (fs : files)
    : scribe * files :=
  let s := set_interrupted true s in
  let s := set_running false s in
  let s := close_if_true s in
  (s, _save_partial_results now s fs).

(** ** The generator [create_audio_chunks] *)

(** The local variables of the generator; [ffmpeg_calls] counts the runs
    of FFmpeg so far and selects the answer of the environment. *)
Record gen_locals := {
  chunk_size : Z;
  overlap_size : Z;
  step_size : Z;
  current_position : Z;
  chunk_number : Z;
  ffmpeg_calls : nat;
}.

(** The statements before the [while] loop. *)
Definition gen_start (s : scribe) : gen_locals :=
  {| chunk_size := chunk_duration s;
     overlap_size := overlap_duration s;
     step_size := chunk_duration s - overlap_duration s;
     current_position := 0;
     chunk_number := 0;
     ffmpeg_calls := 0 |}.

(** [current_position += step_size] of the two [continue] paths. *)
Definition skip_chunk (g : gen_locals) : gen_locals :=
  {| chunk_size := chunk_size g; overlap_size := overlap_size g;
     step_size := step_size g;
     current_position := current_position g + step_size g;
     chunk_number := chunk_number g;
     ffmpeg_calls := S (ffmpeg_calls g) |}.

(** The three statements after the [yield]:
    [chunk_number += 1; current_position += step_size;
     self.processed_duration = current_position]. *)
Definition gen_resume (s : scribe) (g : gen_locals) : scribe * gen_locals :=
  let g' := {| chunk_size := chunk_size g; overlap_size := overlap_size g;
               step_size := step_size g;
               current_position := current_position g + step_size g;
               chunk_number := chunk_number g + 1;
               ffmpeg_calls := ffmpeg_calls g |} in
  (set_processed_duration (current_position g') s, g').

Definition count_call (g : gen_locals) : gen_locals :=
  {| chunk_size := chunk_size g; overlap_size := overlap_size g;
     step_size := step_size g;
     current_position := current_position g;
     chunk_number := chunk_number g;
     ffmpeg_calls := S (ffmpeg_calls g) |}.

Inductive gen_outcome :=
  | GenReturn              (** the loop is left: the generator is exhausted *)
  | GenContinue            (** back to the loop condition *)
  | GenYield (c : chunk).  (** suspended at the [yield] *)

(** From the loop condition to the next [yield], [continue], [break] or
    end of the loop body. *)
Definition gen_iteration (e : env) (s : scribe) (g : gen_locals)
    : gen_outcome * scribe * gen_locals :=
  if (current_position g <? total_duration s) && is_running s then
    if is_interrupted s then (GenReturn, s, g)
    else
      let actual_duration :=
        Z.min (chunk_size g) (total_duration s - current_position g) in
      match ffmpeg e (ffmpeg_calls g) (current_position g) actual_duration with
      | PopenRaises => (GenContinue, s, skip_chunk g)
      | FfmpegExit returncode audio_data =>
          if negb (returncode =? 0) then (GenContinue, s, skip_chunk g)
          else if (0 <? length audio_data)%nat then
            (GenYield {| chunk_data := audio_data;
                         chunk_start_time := current_position g;
                         chunk_duration_ := actual_duration;
                         chunk_chunk_number := chunk_number g |},
             s, count_call g)
          else
            let '(s', g') := gen_resume s (count_call g) in
            (GenContinue, s', g')
      end
  else (GenReturn, s, g).

(** The generator driven to exhaustion by a consumer that only takes the
    chunks: the chunks yielded within [fuel] iterations and, when the
    generator returned within them, the object and the locals at that
    point. *)
Fixpoint drain (fuel : nat) (e : env) (s : scribe) (g : gen_locals)
    : list chunk * option (scribe * gen_locals) :=
  match fuel with
  | O => ([], None)
  | S fuel' =>
      match gen_iteration e s g with
      | (GenReturn, s', g') => ([], Some (s', g'))
      | (GenContinue, s', g') => drain fuel' e s' g'
      | (GenYield c, s', g') =>
          let '(s'', g'') := gen_resume s' g' in
          let '(l, r) := drain fuel' e s'' g'' in
          (c :: l, r)
      end
  end.

Definition create_audio_chunks (fuel : nat) (e : env) (s : scribe)
    : list chunk * option (scribe * gen_locals) :=
  drain fuel e s (gen_start s).

(** ** The process: import guard, [main] and [run] *)

Definition safe_title (title : string) : string :=
  Py.take 50
    (Py.strip
       (Py.filter_chars
          (fun c => Py.isalnum c
                    || bool_decide (c = " "%char) || bool_decide (c = "-"%char)
                    || bool_decide (c = "_"%char))
          title)).

(** Where the process is. *)
Inductive pc :=
  | RunMakedirs
  | RunLoadModel
  | RunExtractInfo
  | RunCheckAudio
  | RunSetupOutput
  | RunProgressBar
  | RunSetRunning
  | GenHead                            (** generator, at the loop condition *)
  | ForBody (c : chunk)                (** [for] body, chunk received *)
  | Transcribed (t : option segment)   (** [transcribe_audio_chunk] returned *)
  | Saving (t : segment)               (** in [save_transcript]: line written,
                                           segment not yet appended *)
  | GenResume                          (** generator, after the [yield] *)
  | AfterLoop
  | RunFinally
  | Exited (status : Z).

Record config := {
  at_ : pc;
  self : scribe;
  fs : files;
  args : cli_args;
  video : option video_info;
  gen : gen_locals;
  whisper_calls : nat;
  clock : nat;
}.

Definition goto (p : pc) (s : scribe) (c : config) : config :=
  {| at_ := p; self := s; fs := fs c; args := args c; video := video c;
     gen := gen c; whisper_calls := whisper_calls c; clock := S (clock c) |}.

Definition goto_fs (p : pc) (s : scribe) (f : files) (c : config) : config :=
  {| at_ := p; self := s; fs := f; args := args c; video := video c;
     gen := gen c; whisper_calls := whisper_calls c; clock := S (clock c) |}.

Definition goto_gen (p : pc) (s : scribe) (g : gen_locals) (c : config) : config :=
  {| at_ := p; self := s; fs := fs c; args := args c; video := video c;
     gen := g; whisper_calls := whisper_calls c; clock := S (clock c) |}.

(** The [finally] clause of [run]. *)
Definition finally_clause (s : scribe) : scribe :=
  close_if_true (set_running false s).

(** One step of the process when no signal arrives.  An exception raised
    inside the [try] of [run] is caught by [except Exception], which only
    reports it, so control goes on to [finally]: so for [format_time]
    when [run] prints the duration of the video.  The later calls of
    [format_time], in the [for] body and in [save_transcript], get offsets
    that lie between 0 and that duration when the step is positive; they
    are taken not to raise.  [save_transcript] takes two steps, so that a
    signal can arrive between its write to the text file and its append
    to the transcript sequence. *)
Definition step_tick (e : env) (c : config) : config :=
  let s := self c in
  match at_ c with
  | RunMakedirs =>
      if makedirs_ok e then goto RunLoadModel s c else goto RunFinally s c
  | RunLoadModel =>
      if load_model_ok e then goto RunExtractInfo (set_whisper_model true s) c
      else goto RunFinally s c
  | RunExtractInfo =>
      match extract_youtube_info e (arg_url (args c)) s with
      | None => goto RunFinally s c
      | Some (v, s') =>
          {| at_ := RunCheckAudio; self := s'; fs := fs c; args := args c;
             video := Some v; gen := gen c; whisper_calls := whisper_calls c;
             clock := S (clock c) |}
      end
  | RunCheckAudio =>
      match video c with
      | Some v =>
          if negb (Py.timedelta_ok (vi_duration v)) then goto RunFinally s c
          else if negb (Py.truthy (vi_audio_url v)) then goto RunFinally s c
          else goto RunSetupOutput s c
      | None => goto RunFinally s c
      end
  | RunSetupOutput =>
      match video c with
      | Some v =>
          let name := safe_title (vi_title v) +:+ "_" +:+ now_stamp e (clock c)
                      +:+ ".txt" in
          goto RunProgressBar
            (set_output_file (Some (Py.path_join (arg_output_dir (args c)) name)) s) c
      | None => goto RunFinally s c
      end
  | RunProgressBar =>
      match total_chunks s with
      | None => goto RunFinally s c
      | Some _ => goto RunSetRunning (set_progress_bar (Some true) s) c
      end
  | RunSetRunning =>
      let s := set_running true s in
      goto_gen GenHead s (gen_start s) c
  | GenHead =>
      match gen_iteration e s (gen c) with
      | (GenReturn, s', g') => goto_gen AfterLoop s' g' c
      | (GenContinue, s', g') => goto_gen GenHead s' g' c
      | (GenYield ch, s', g') => goto_gen (ForBody ch) s' g' c
      end
  | ForBody ch =>
      if negb (is_running s) || is_interrupted s then goto AfterLoop s c
      else
        let t := transcribe_audio_chunk
                   (whisper e (whisper_calls c) (chunk_data ch))
                   (now_isoformat e (clock c)) ch in
        {| at_ := Transcribed t; self := s; fs := fs c; args := args c;
           video := video c; gen := gen c;
           whisper_calls := S (whisper_calls c); clock := S (clock c) |}
  | Transcribed t =>
      match t with
      | Some transcript =>
          if negb (Py.truthy (output_file s)) then goto GenResume s c
          else goto_fs (Saving transcript) s
                 (write_transcript_line transcript s (fs c)) c
      | None => goto GenResume s c
      end
  | Saving transcript => goto GenResume (append_transcript transcript s) c
  | GenResume =>
      let '(s', g') := gen_resume s (gen c) in
      goto_gen GenHead s' g' c
  | AfterLoop =>
      let s := close_progress_bar s in
      if negb (is_interrupted s) then
        match video c with
        | Some v =>
            goto_fs RunFinally s
              (save_final_results v (now_isoformat e (clock c)) s (fs c)).1 c
        | None => goto RunFinally s c
        end
      else goto RunFinally s c
  | RunFinally => goto (Exited 0) (finally_clause s) c
  | Exited _ => c
  end.

(** What happens during a step: nothing from outside, or the delivery of
    SIGINT or SIGTERM. *)
Inductive event := Tick | Signal.

(** One step of the process.  On a signal [_signal_handler] runs and ends
    in [sys.exit(0)]; the [SystemExit] passes [except Exception], runs the
    [finally] clause and ends the process. *)
Definition step (e : env) (ev : event) (c : config) : config :=
  match at_ c, ev with
  | Exited _, _ => c
  | _, Tick => step_tick e c
  | _, Signal =>
      let '(s', f') := _signal_handler (now_isoformat e (clock c)) (self c) (fs c) in
      goto_fs (Exited 0) (finally_clause s') f' c
  end.

Definition exec (e : env) (evs : list event) (c : config) : config :=
  foldl (fun c ev => step e ev c) c evs.

(** [scribe.run(args.url, args.output_dir)] begins: the state after
    [main] has built the object, which installs the signal handlers. *)
Definition start_run (a : cli_args) (f : files) : config :=
  let s := __init__ (arg_model a) (arg_chunk_duration a) (arg_overlap a) in
  {| at_ := RunMakedirs; self := s; fs := f; args := a; video := None;
     gen := gen_start s; whisper_calls := 0; clock := 0 |}.

(** The process from its start: the import guard exits with status 1, the
    argument parser with status 2; otherwise [main] builds the object and
    calls [run].  Signals are modelled from the point where the handlers
    are installed; what the process does on a signal before that point, or
    when a [print] outside the [try] of [run] raises, is not modelled. *)
Definition boot (e : env) (f : files) : config + Z :=
  if negb (imports_ok e) then inr 1
  else match parse_args e with
       | None => inr 2
       | Some a => inl (start_run a f)
       end.

Definition exit_status_of (c : config) : option Z :=
  match at_ c with Exited st => Some st | _ => None end.

(** The exit status of the process, if it has ended after the events
    [evs]. *)
Definition process (e : env) (f : files) (evs : list event) : option Z :=
  match boot e f with
  | inr st => Some st
  | inl c => exit_status_of (exec e evs c)
  end.

(** ** Notions used in the statements *)

(** Every window's extraction succeeds with some audio. *)
Definition extraction_succeeds (e : env) : Prop :=
  forall n ss t, exists data,
    ffmpeg e n ss t = FfmpegExit 0 data /\ (0 < length data)%nat.

(** The number of windows from offset [pos] on: the least [n] with
    [pos + n * step >= D]. *)
Definition window_count (D step pos : Z) : nat :=
  Z.to_nat ((D - pos + step - 1) / step).

(** The object as [run] hands it to the generator: the duration known and
    [is_running] set. *)
Definition ready (D : Z) (s : scribe) : scribe :=
  set_running true (set_total_duration D s).

(** Chunk [i] of a sequence covers the window
    [[i*(L-O), min(i*(L-O)+L, D))] and carries the number [i]. *)
Definition covers_windows (D L O : Z) (chunks : list chunk) : Prop :=
  forall (i : nat) c, chunks !! i = Some c ->
    chunk_start_time c = Z.of_nat i * (L - O) /\
    chunk_start_time c + chunk_duration_ c = Z.min (Z.of_nat i * (L - O) + L) D /\
    chunk_chunk_number c = Z.of_nat i.

(** ** Sample environments *)

(** An environment whose FFmpeg fails on its first run and succeeds
    afterwards, and one where it always succeeds. *)
Definition quiet_env (ff : nat -> Z -> Z -> ffmpeg_result)
    (wh : nat -> list byte -> whisper_result) : env :=
  {| imports_ok := true;
     parse_args := Some {| arg_url := "https://youtu.be/x"; arg_model := "base";
                           arg_chunk_duration := 30; arg_overlap := 5;
                           arg_output_dir := "transcripts" |};
     makedirs_ok := true;
     load_model_ok := true;
     extract_info := fun _ =>
       Some {| info_title := Some "Talk"; info_duration := Some 52;
               info_uploader := None; info_description := None;
               info_formats := Some [ {| fmt_acodec := Some "opus";
                                         fmt_url := Some "https://a/b" |} ] |};
     ffmpeg := ff;
     whisper := wh;
     now_isoformat := fun _ => "2024-01-01T00:00:00";
     now_stamp := fun _ => "20240101_000000" |}.

Definition speech : nat -> list byte -> whisper_result :=
  fun _ _ => TranscribeReturns (Some " hello ") (Some "en").

Definition steady_env : env :=
  quiet_env (fun _ _ _ => FfmpegExit 0 [x00]) speech.

Definition flaky_env : env :=
  quiet_env (fun n _ _ => match n with
                          | O => FfmpegExit 1 []
                          | _ => FfmpegExit 0 [x00]
                          end) speech.


Definition sample_args : cli_args :=
  {| arg_url := "https://youtu.be/x"; arg_model := "base";
     arg_chunk_duration := 30; arg_overlap := 5;
     arg_output_dir := "transcripts" |}.

(** The model hears nothing: only white space comes back. *)
Definition silent_env : env :=
  quiet_env (fun _ _ _ => FfmpegExit 0 [x00])
            (fun _ _ => TranscribeReturns (Some "  ") (Some "en")).

(** The resolver cannot reach the video. *)
Definition unreachable_env : env :=
  {| imports_ok := true;
     parse_args := Some sample_args;
     makedirs_ok := true;
     load_model_ok := true;
     extract_info := fun _ => None;
     ffmpeg := ffmpeg steady_env;
     whisper := whisper steady_env;
     now_isoformat := now_isoformat steady_env;
     now_stamp := now_stamp steady_env |}.

(** The first chunk of the sample runs. *)
Definition first_chunk : chunk :=
  {| chunk_data := [x00]; chunk_start_time := 0; chunk_duration_ := 30;
     chunk_chunk_number := 0 |}.

(** The process after [n] steps without a signal. *)
Definition after_ticks (e : env) (n : nat) : config :=
  exec e (replicate n Tick) (start_run sample_args ∅).


(** ** Measures for the termination proofs *)

(** The duration [extract_youtube_info] is going to store. *)
Definition resolved_duration (e : env) (c : config) : Z :=
  match extract_info e (arg_url (args c)) with
  | Some info => default 0 (info_duration info)
  | None => 0
  end.

(** An upper bound on the number of steps the process still takes when no
    signal arrives, for a positive step size. *)
Definition steps_left (e : env) (c : config) : nat :=
  let s := self c in
  let g := gen c in
  let step := chunk_duration s - overlap_duration s in
  let wc := window_count (total_duration s) (step_size g) in
  let next := current_position g + step_size g in
  match at_ c with
  | RunMakedirs => 10 + 5 * window_count (resolved_duration e c) step 0
  | RunLoadModel => 9 + 5 * window_count (resolved_duration e c) step 0
  | RunExtractInfo => 8 + 5 * window_count (resolved_duration e c) step 0
  | RunCheckAudio => 7 + 5 * window_count (total_duration s) step 0
  | RunSetupOutput => 6 + 5 * window_count (total_duration s) step 0
  | RunProgressBar => 5 + 5 * window_count (total_duration s) step 0
  | RunSetRunning => 4 + 5 * window_count (total_duration s) step 0
  | GenHead => 3 + 5 * wc (current_position g)
  | ForBody _ => 7 + 5 * wc next
  | Transcribed _ => 6 + 5 * wc next
  | Saving _ => 5 + 5 * wc next
  | GenResume => 4 + 5 * wc next
  | AfterLoop => 2
  | RunFinally => 1
  | Exited _ => 0
  end%nat.

(** The overlap is below the chunk length, for the object and for the
    generator's copy. *)
Definition positive_step (c : config) : Prop :=
  0 < chunk_duration (self c) - overlap_duration (self c) /\
  0 < step_size (gen c).

(** ** The invariant behind the overlap arithmetic *)





(** ** The SRT format, as the specification words it *)

(** The decimal digit [d], for [0 <= d < 10]. *)
Definition digit (d : Z) : ascii := ascii_of_nat (48 + Z.to_nat d).

Definition two_digits (n : Z) : string :=
  String (digit (n / 10)) (String (digit (n mod 10)) "").

Definition three_digits (n : Z) : string :=
  String (digit (n / 100)) (two_digits (n mod 100)).

(** Hours: two digits, or the decimal numeral when it needs more. *)
Definition hours_digits (h : Z) : string :=
  if h <? 100 then two_digits h else pretty h.

(** [HH:MM:SS,mmm] *)
Definition srt_time (h m s ms : Z) : string :=
  hours_digits h +:+ ":" +:+ two_digits m +:+ ":" +:+ two_digits s
  +:+ "," +:+ three_digits ms.

(** A string of the form [HH:MM:SS,mmm]: hours padded to two digits,
    minutes and seconds below 60, milliseconds below 1000. *)
Definition srt_time_shape (out : string) : Prop :=
  exists h m s ms,
    0 <= h /\ 0 <= m < 60 /\ 0 <= s < 60 /\ 0 <= ms < 1000 /\
    out = srt_time h m s ms.

(** The time stamp of a whole number of seconds. *)
Definition srt_time_of_seconds (z : Z) : string :=
  srt_time (z / 3600) (z mod 3600 / 60) (z mod 60) 0.

(** What [_seconds_to_srt_time] prints for an [int]; for an offset that is
    not negative it is [srt_time_of_seconds]. *)
Definition stamp (z : Z) : string :=
  Py.format_0d 2 (z / 3600) +:+ ":" +:+ Py.format_0d 2 (z mod 3600 / 60)
  +:+ ":" +:+ Py.format_0d 2 (z mod 60) +:+ "," +:+ Py.format_0d 3 (z mod 1 * 1000).

(** The record numbered [i + 1]: index line, time range line, text, blank
    line. *)
Definition srt_record (i : nat) (t : segment) : string :=
  pretty (Z.of_nat i + 1) +:+ newline
  +:+ stamp (seg_start_time t) +:+ " --> " +:+ stamp (seg_end_time t) +:+ newline
  +:+ seg_text t +:+ newline +:+ newline.

Fixpoint concat_strings (l : list string) : string :=
  match l with
  | [] => ""
  | s :: l' => s +:+ concat_strings l'
  end.

(** An SRT document: the records of the segments, in order. *)
Definition srt_document (l : list segment) : string :=
  concat_strings (imap srt_record l).

(** The float written [n/d] in decimal notation, for [n] and [d] below
    [2^53]: the binary64 nearest to the quotient. *)
Definition float_literal (n d : Z) : spec_float :=
  F64.div (F64.of_Z n) (F64.of_Z d).

Definition sample_segment (number start stop : Z) : segment :=
  {| seg_text := "hello"; seg_start_time := start; seg_end_time := stop;
     seg_duration := stop - start; seg_chunk_number := number;
     seg_language := "en"; seg_timestamp := "2024-01-01T00:00:00" |}.

(** An object with two recorded segments. *)
Definition sample_scribe : scribe :=
  set_output_file (Some "out/Talk.txt")
    (set_transcripts [sample_segment 0 0 30; sample_segment 1 25 52]
       (ready 52 (__init__ "base" 30 5))).

Definition sample_video : video_info :=
  {| vi_title := "Talk"; vi_duration := 52; vi_audio_url := Some "https://a/b";
     vi_uploader := "Unknown"; vi_description := "" |}.

(** ** Notions for the floating-point proofs *)

Module Ulp.

(** The smallest positive binary64 is [2^-1074]; a finite value that is
    not negative is a whole number of these units. *)
Definition emin : Z := -1074.

Definition ulps (x : spec_float) : Z :=
  match x with
  | S754_finite _ m e => Z.pos m * 2 ^ (e - emin)
  | _ => 0
  end.

(** Zero or a positive finite value whose mantissa has at most 53 bits and
    whose exponent is in the range of the format. *)
Definition nonneg (x : spec_float) : Prop :=
  match x with
  | S754_zero s => s = false
  | S754_finite s m e => s = false /\ Z.pos m < 2 ^ 53 /\ emin <= e <= 971
  | _ => False
  end.

(** The number of binary digits of a natural number. *)
Definition digits (m : Z) : Z := Zdigits2 m.

(** The exponent the format gives to a mantissa-exponent pair. *)
Definition fexp (e : Z) : Z := SpecFloat.fexp F64.prec F64.emax e.

(** The result of rounding, from the rounded mantissa [R <= 2^53] at
    exponent [E]. *)
Definition pack (R E : Z) : spec_float :=
  if R =? 0 then S754_zero false
  else if R <? 2 ^ 53 then
    if E <=? 971 then S754_finite false (Z.to_pos R) E else S754_infinity false
  else
    if E + 1 <=? 971 then S754_finite false (Z.to_pos (2 ^ 52)) (E + 1)
    else S754_infinity false.

(** [n] applications of [shr_1]. *)
Definition shr_n (n : nat) (r : shr_record) : shr_record := Nat.iter n shr_1 r.

(** The largest finite value, in units of the last place of the format. *)
Definition max_ulps : Z := (2 ^ 53 - 1) * 2 ^ (971 - emin).

(** [60.0], [3600.0] and [1000.0] as binary64 values. *)
Definition c60 : spec_float := S754_finite false 8444249301319680 (-47).

Definition c3600 : spec_float := S754_finite false 7916483719987200 (-41).

Definition c1000 : spec_float := S754_finite false 8796093022208000 (-43).

End Ulp.

(** An offset that is not negative: an [int] from zero up, or a finite
    [float] that is not below zero. *)
Definition nonneg_offset (seconds : pynum) : Prop :=
  match seconds with
  | PyInt z => 0 <= z
  | PyFloat x => F64.nonneg_finite x
  end.

(** ** Notions used in the further properties *)

(** The line [save_transcript] appends to the running text file, as a
    piece of that file. *)
Definition live_line (t : segment) : piece := Text (transcript_line t).

(** The files of a run whose text file is [p]. *)
Definition resume_path (p : string) : string := p +:+ ".resume.json".
Definition json_path (p : string) : string := Py.replace ".txt" "" p +:+ ".json".
Definition srt_path (p : string) : string := Py.replace ".txt" "" p +:+ ".srt".

Definition output_paths (p : string) : list string :=
  [p; resume_path p; json_path p; srt_path p].

(** The text file after the segments [trs] were recorded, [old] being
    what was at its path before the run: nothing new as long as no
    segment is recorded, then the old content followed by one line per
    segment. *)
Definition text_file (old : option (list piece)) (trs : list segment)
    : option (list piece) :=
  match trs with
  | [] => old
  | _ => Some (default [] old ++ (live_line <$> trs))%list
  end.

(** Points of [run] before the output path is chosen, before the loop
    starts, with the video information in hand, and after the work. *)
Definition before_output (p : pc) : bool :=
  match p with
  | RunMakedirs | RunLoadModel | RunExtractInfo | RunCheckAudio | RunSetupOutput => true
  | _ => false
  end.

Definition before_loop (p : pc) : bool :=
  match p with
  | RunMakedirs | RunLoadModel | RunExtractInfo | RunCheckAudio | RunSetupOutput
  | RunProgressBar | RunSetRunning => true
  | _ => false
  end.

Definition has_video (p : pc) : bool :=
  match p with
  | RunMakedirs | RunLoadModel | RunExtractInfo | RunFinally | Exited _ => false
  | _ => true
  end.

Definition finished (p : pc) : bool :=
  match p with RunFinally | Exited _ => true | _ => false end.

(** What the final results look like once they are saved. *)
Definition final_results_saved (c : config) (p : string) : Prop :=
  exists v now,
    video c = Some v /\
    fs c !! srt_path p = Some [Text (srt_document (transcripts (self c)))] /\
    fs c !! json_path p = Some [Json (json_data v (self c) now)].

(** The segments whose line is in the text file but which are not in the
    transcript sequence: the one segment [save_transcript] is busy with,
    which stays unrecorded when a signal ends the process at that point,
    and none otherwise. *)
Definition mid_save (c : config) (extra : list segment) : Prop :=
  match at_ c with
  | Saving t => extra = [t]
  | Exited _ =>
      extra = [] \/ exists t, extra = [t] /\ is_interrupted (self c) = true
  | _ => extra = []
  end.

(** The files of a run, [f0] being the file system at its start. *)
Definition files_invariant (f0 : files) (c : config) : Prop :=
  let s := self c in
  let trs := transcripts s in
  (before_output (at_ c) = true -> output_file s = None) /\
  (before_loop (at_ c) = true -> trs = []) /\
  (has_video (at_ c) = true -> is_Some (video c)) /\
  (output_file s = None -> trs = []) /\
  exists extra,
    mid_save c extra /\
    (output_file s = None -> extra = []) /\
    ((trs ++ extra)%list = [] -> fs c = f0) /\
    forall p, output_file s = Some p ->
      (exists pre, p = pre +:+ ".txt") /\
      fs c !! p = text_file (f0 !! p) (trs ++ extra) /\
      (forall path, path ∉ output_paths p -> fs c !! path = f0 !! path) /\
      (is_interrupted s = false ->
         fs c !! resume_path p = f0 !! resume_path p) /\
      (finished (at_ c) = true -> is_interrupted s = false -> trs <> [] ->
         final_results_saved c p).

(** The counters of a run: segments recorded, calls of the model, runs of
    FFmpeg; one more call or run is under way at some points. *)
Definition calls_invariant (c : config) : Prop :=
  let n := length (transcripts (self c)) in
  (before_loop (at_ c) = true -> whisper_calls c = O /\ n = O) /\
  (n + match at_ c with Transcribed (Some _) | Saving _ => 1 | _ => 0 end
     <= whisper_calls c)%nat /\
  (before_loop (at_ c) = false ->
   (whisper_calls c + match at_ c with ForBody _ => 1 | _ => 0 end
      <= ffmpeg_calls (gen c))%nat).

(** A resolver answer with a long description and a first audio format
    that carries no address. *)
Definition described_info : yt_info :=
  {| info_title := Some "Talk"; info_duration := Some 52;
     info_uploader := None;
     info_description := Some "A talk about chunks.";
     info_formats :=
       Some [ {| fmt_acodec := Some "none"; fmt_url := Some "https://v/1" |};
              {| fmt_acodec := Some "opus"; fmt_url := None |};
              {| fmt_acodec := Some "mp4a"; fmt_url := Some "https://a/2" |} ] |}.

Definition described_env : env :=
  {| imports_ok := true;
     parse_args := Some sample_args;
     makedirs_ok := true;
     load_model_ok := true;
     extract_info := fun _ => Some described_info;
     ffmpeg := ffmpeg steady_env;
     whisper := whisper steady_env;
     now_isoformat := now_isoformat steady_env;
     now_stamp := now_stamp steady_env |}.

(** FFmpeg never delivers a chunk: every run of it fails to start, ends
    with a status other than 0 or gives no data. *)
Definition never_delivers (e : env) : Prop :=
  forall n ss t,
    match ffmpeg e n ss t with
    | FfmpegExit 0 (_ :: _) => False
    | _ => True
    end.

(** A run that cannot end by itself: everything before the loop
    succeeds, audio is there, and the step of the generator is negative. *)
Definition never_ending (e : env) (c : config) : Prop :=
  let s := self c in
  is_interrupted s = false /\
  chunk_duration s - overlap_duration s < 0 /\
  match at_ c with
  | RunMakedirs | RunLoadModel | RunExtractInfo =>
      makedirs_ok e = true /\ load_model_ok e = true /\
      exists info,
        extract_info e (arg_url (args c)) = Some info /\
        Py.truthy (find_audio_url (default [] (info_formats info))) = true /\
        Py.timedelta_ok (default 0 (info_duration info)) = true /\
        0 < default 0 (info_duration info)
  | RunCheckAudio | RunSetupOutput =>
      (exists v, video c = Some v /\ Py.truthy (vi_audio_url v) = true /\
                 Py.timedelta_ok (vi_duration v) = true) /\
      0 < total_duration s
  | RunProgressBar | RunSetRunning => 0 < total_duration s
  | GenHead =>
      is_running s = true /\ step_size (gen c) < 0 /\
      current_position (gen c) < total_duration s
  | ForBody _ | Transcribed _ | Saving _ | GenResume
  | AfterLoop | RunFinally | Exited _ => False
  end.

(** FFmpeg fails on every run. *)
Definition failing_env : env :=
  quiet_env (fun _ _ _ => FfmpegExit 1 []) speech.

(** The resolver finds the video but no format with audio. *)
Definition mute_env : env :=
  {| imports_ok := true;
     parse_args := Some sample_args;
     makedirs_ok := true;
     load_model_ok := true;
     extract_info := fun _ =>
       Some {| info_title := Some "Talk"; info_duration := Some 52;
               info_uploader := None; info_description := None;
               info_formats := Some [ {| fmt_acodec := Some "none";
                                         fmt_url := Some "https://v/1" |} ] |};
     ffmpeg := ffmpeg steady_env;
     whisper := whisper steady_env;
     now_isoformat := now_isoformat steady_env;
     now_stamp := now_stamp steady_env |}.

(** Command lines with the overlap equal to and above the chunk length. *)
Definition equal_args : cli_args :=
  {| arg_url := "https://youtu.be/x"; arg_model := "base";
     arg_chunk_duration := 5; arg_overlap := 5;
     arg_output_dir := "transcripts" |}.

Definition reversed_args : cli_args :=
  {| arg_url := "https://youtu.be/x"; arg_model := "base";
     arg_chunk_duration := 3; arg_overlap := 5;
     arg_output_dir := "transcripts" |}.

(** [old in s]: [old] occurs in [s]. *)
Fixpoint occurs (old s : string) : bool :=
  match s with
  | EmptyString => String.prefix old EmptyString
  | String _ s' => String.prefix old s || occurs old s'
  end.

(** ** Notions for the recorded segments and the time stamp fields *)




(** The fraction of an offset, in units of [2^-1074]: zero for an [int],
    the part below one second for a [float]. *)
Definition fraction_ulps (seconds : pynum) : Z :=
  match seconds with
  | PyInt _ => 0
  | PyFloat x => Ulp.ulps x mod 2 ^ 1074
  end.

(** [ms] is the whole part of 1000 times the fraction [F / 2^1074], up to
    the rounding of the one float multiplication that computes it, which
    is below [2^-43]:
    [1000 * frac - 2^-43 - 1 < ms <= 1000 * frac + 2^-44]. *)
Definition millis_of (F ms : Z) : Prop :=
  ms * 2 ^ 1074 <= 1000 * F + 2 ^ 1030 /\
  1000 * F < (ms + 1) * 2 ^ 1074 + 2 ^ 1031.

(** No transcription gives a segment: the model raises or hears nothing
    but white space. *)
Definition nothing_heard (e : env) : Prop :=
  forall n data now ch,
    transcribe_audio_chunk (whisper e n data) now ch = None.

(** Nothing is recorded and no file is written: the state of a run in
    which no transcription gives a segment. *)
Definition nothing_recorded (f0 : files) (c : config) : Prop :=
  transcripts (self c) = [] /\ fs c = f0 /\
  match at_ c with
  | Transcribed (Some _) | Saving _ => False
  | _ => True
  end.
(** * Properties *)

(** ** The generator *)

Section Generator.

Variable e : env.

Lemma gen_resume_self s g :
  (gen_resume s g).1 = set_processed_duration (current_position g + step_size g) s.
Proof. reflexivity. Qed.

Lemma gen_resume_total_duration s g :
  total_duration (gen_resume s g).1 = total_duration s.
Proof. reflexivity. Qed.

Lemma gen_resume_running s g : is_running (gen_resume s g).1 = is_running s.
Proof. reflexivity. Qed.

Lemma gen_resume_interrupted s g :
  is_interrupted (gen_resume s g).1 = is_interrupted s.
Proof. reflexivity. Qed.

Lemma gen_resume_position s g :
  current_position (gen_resume s g).2 = current_position g + step_size g.
Proof. reflexivity. Qed.

Lemma gen_resume_number s g :
  chunk_number (gen_resume s g).2 = chunk_number g + 1.
Proof. reflexivity. Qed.

Lemma gen_resume_step_size s g : step_size (gen_resume s g).2 = step_size g.
Proof. reflexivity. Qed.

Lemma gen_resume_chunk_size s g : chunk_size (gen_resume s g).2 = chunk_size g.
Proof. reflexivity. Qed.

(** The generator writes no field of the object but [processed_duration]. *)
Lemma gen_iteration_self s g o s' g' :
  gen_iteration e s g = (o, s', g') ->
  s' = s \/ exists d, s' = set_processed_duration d s.
Proof.
  unfold gen_iteration. intros H.
  destruct ((current_position g <? total_duration s) && is_running s);
    [|left; congruence].
  destruct (is_interrupted s); [left; congruence|].
  destruct (ffmpeg e _ _ _) as [|rc data]; [left; congruence|].
  destruct (negb (rc =? 0)); [left; congruence|].
  destruct (0 <? length data)%nat; [left; congruence|].
  right. eexists. simpl in H. injection H as _ <- _. reflexivity.
Qed.

Lemma gen_iteration_locals s g o s' g' :
  gen_iteration e s g = (o, s', g') ->
  chunk_size g' = chunk_size g /\ step_size g' = step_size g.
Proof.
  unfold gen_iteration. intros H.
  destruct ((current_position g <? total_duration s) && is_running s);
    [|by simplify_eq].
  destruct (is_interrupted s); [by simplify_eq|].
  destruct (ffmpeg e _ _ _) as [|rc data]; [by simplify_eq|].
  destruct (negb (rc =? 0)); [by simplify_eq|].
  destruct (0 <? length data)%nat; simpl in H; by simplify_eq.
Qed.

(** A chunk is yielded only for a window that starts before the end of
    the audio, and it is the window at the current position. *)
Lemma gen_iteration_yield s g c s' g' :
  gen_iteration e s g = (GenYield c, s', g') ->
  s' = s /\
  chunk_start_time c = current_position g /\
  chunk_duration_ c = Z.min (chunk_size g) (total_duration s - current_position g) /\
  chunk_chunk_number c = chunk_number g /\
  current_position g < total_duration s /\
  current_position g' = current_position g /\
  chunk_number g' = chunk_number g /\
  ffmpeg_calls g' = S (ffmpeg_calls g).
Proof.
  unfold gen_iteration. intros H.
  destruct (current_position g <? total_duration s) eqn:Hlt; simpl in H;
    [|congruence].
  destruct (is_running s); [|congruence].
  destruct (is_interrupted s); [congruence|].
  destruct (ffmpeg e _ _ _) as [|rc data]; [congruence|].
  destruct (negb (rc =? 0)); [congruence|].
  destruct (0 <? length data)%nat; simpl in H; [|congruence].
  injection H as <- <- <-. simpl. apply Z.ltb_lt in Hlt. done.
Qed.

(** Whatever FFmpeg answers, an iteration that does not leave the loop
    moves the position forward by one step. *)
Lemma gen_iteration_advance s g o s' g' :
  gen_iteration e s g = (o, s', g') ->
  match o with
  | GenReturn => g' = g /\ s' = s
  | GenContinue => current_position g' = current_position g + step_size g
  | GenYield _ => current_position (gen_resume s' g').2 = current_position g + step_size g
  end.
Proof.
  unfold gen_iteration. intros H.
  destruct ((current_position g <? total_duration s) && is_running s);
    [|by simplify_eq].
  destruct (is_interrupted s); [by simplify_eq|].
  destruct (ffmpeg e _ _ _) as [|rc data]; [by simplify_eq|].
  destruct (negb (rc =? 0)); [by simplify_eq|].
  destruct (0 <? length data)%nat; simpl in H; by simplify_eq.
Qed.

Lemma total_duration_set_processed d s :
  total_duration (set_processed_duration d s) = total_duration s.
Proof. reflexivity. Qed.

Lemma gen_iteration_total_duration s g o s' g' :
  gen_iteration e s g = (o, s', g') -> total_duration s' = total_duration s.
Proof.
  intros H. destruct (gen_iteration_self _ _ _ _ _ H) as [->|[d ->]]; done.
Qed.

Lemma gen_iteration_flags s g o s' g' :
  gen_iteration e s g = (o, s', g') ->
  is_running s' = is_running s /\ is_interrupted s' = is_interrupted s.
Proof.
  intros H. destruct (gen_iteration_self _ _ _ _ _ H) as [->|[d ->]]; done.
Qed.

Lemma drain_S fuel s g :
  drain (S fuel) e s g =
  match gen_iteration e s g with
  | (GenReturn, s', g') => ([], Some (s', g'))
  | (GenContinue, s', g') => drain fuel e s' g'
  | (GenYield c, s', g') =>
      let '(l, r) := drain fuel e (gen_resume s' g').1 (gen_resume s' g').2 in
      (c :: l, r)
  end.
Proof. reflexivity. Qed.

(** Every chunk the generator yields ends at or before the end of the
    audio. *)
Lemma drain_end_offset fuel : forall s g,
  Forall (fun c => chunk_start_time c + chunk_duration_ c <= total_duration s)
         (drain fuel e s g).1.
Proof.
  induction fuel as [|fuel IH]; intros s g; [constructor|].
  rewrite drain_S.
  destruct (gen_iteration e s g) as [[o s'] g'] eqn:Hit.
  pose proof (gen_iteration_total_duration _ _ _ _ _ Hit) as HD.
  destruct o as [| |c].
  - constructor.
  - rewrite <- HD. apply IH.
  - specialize (IH (gen_resume s' g').1 (gen_resume s' g').2).
    rewrite gen_resume_self, total_duration_set_processed, HD in IH.
    destruct (drain fuel e _ _) as [l r]. simpl in *.
    constructor; [|done].
    apply gen_iteration_yield in Hit as (_ & -> & -> & _ & Hlt & _). lia.
Qed.

Lemma window_count_step D step pos :
  0 < step -> pos < D ->
  window_count D step pos = S (window_count D step (pos + step)).
Proof.
  intros Hs Hp. unfold window_count.
  replace (D - pos + step - 1) with ((D - (pos + step) + step - 1) + 1 * step) by lia.
  rewrite Z.div_add by lia.
  assert (0 <= (D - (pos + step) + step - 1) / step) by (apply Z.div_pos; lia).
  lia.
Qed.

Lemma window_count_done D step pos :
  0 < step -> D <= pos -> window_count D step pos = O.
Proof.
  intros Hs Hp. unfold window_count.
  assert ((D - pos + step - 1) / step <= 0); [|lia].
  assert ((D - pos + step - 1) / step < 1); [|lia].
  apply Z.div_lt_upper_bound; lia.
Qed.

(** The loop is left exactly when the position has reached the end of
    the audio, the run was stopped, or it was interrupted. *)
Lemma gen_iteration_return s g :
  (gen_iteration e s g).1.1 = GenReturn <->
  total_duration s <= current_position g \/ is_running s = false
  \/ is_interrupted s = true.
Proof.
  unfold gen_iteration.
  destruct (current_position g <? total_duration s) eqn:Hlt; simpl.
  - apply Z.ltb_lt in Hlt. destruct (is_running s); simpl; [|by intuition].
    destruct (is_interrupted s); simpl; [by intuition|].
    assert (forall o : gen_outcome, o <> GenReturn ->
              o = GenReturn <->
              total_duration s <= current_position g \/ true = false \/ false = true)
      as Hno.
    { intros o Ho. split; [done|]. intros [?|[?|?]]; [lia|done..]. }
    destruct (ffmpeg e _ _ _) as [|rc data]; simpl; [by apply Hno|].
    destruct (negb (rc =? 0)); simpl; [by apply Hno|].
    destruct (0 <? length data)%nat; simpl; by apply Hno.
  - apply Z.ltb_ge in Hlt. by intuition.
Qed.

(** With a positive step the generator is exhausted after at most one
    iteration per remaining window, whatever FFmpeg answers. *)
Lemma drain_terminates fuel : forall s g,
  0 < step_size g ->
  (window_count (total_duration s) (step_size g) (current_position g) < fuel)%nat ->
  is_Some (drain fuel e s g).2.
Proof.
  induction fuel as [|fuel IH]; intros s g Hstep Hfuel; [lia|].
  rewrite drain_S.
  destruct (gen_iteration e s g) as [[o s'] g'] eqn:Hit.
  pose proof (gen_iteration_total_duration _ _ _ _ _ Hit) as HD.
  pose proof (gen_iteration_locals _ _ _ _ _ Hit) as [_ Hst].
  pose proof (gen_iteration_advance _ _ _ _ _ Hit) as Hadv.
  assert (o <> GenReturn -> current_position g < total_duration s) as Hpos.
  { intros Ho. destruct (Z.lt_ge_cases (current_position g) (total_duration s));
      [done|].
    exfalso. apply Ho.
    pose proof (proj2 (gen_iteration_return s g)) as Hr.
    rewrite Hit in Hr. apply Hr. by left. }
  destruct o as [| |c].
  - by eexists.
  - apply IH; [lia|]. rewrite HD, Hst, Hadv.
    rewrite (window_count_step _ _ (current_position g)) in Hfuel by auto.
    lia.
  - specialize (IH (gen_resume s' g').1 (gen_resume s' g').2).
    rewrite gen_resume_total_duration, gen_resume_step_size, HD, Hadv, Hst in IH.
    rewrite (window_count_step _ _ (current_position g)) in Hfuel by auto.
    destruct (drain fuel e _ _) as [l r]. simpl. apply IH; lia.
Qed.

(** With a step that is not positive the position never gets closer to
    the end of the audio: the loop is never left. *)
Lemma drain_diverges fuel : forall s g,
  step_size g <= 0 ->
  current_position g < total_duration s ->
  is_running s = true -> is_interrupted s = false ->
  (drain fuel e s g).2 = None.
Proof.
  induction fuel as [|fuel IH]; intros s g Hstep Hpos Hrun Hint; [done|].
  rewrite drain_S.
  destruct (gen_iteration e s g) as [[o s'] g'] eqn:Hit.
  pose proof (gen_iteration_total_duration _ _ _ _ _ Hit) as HD.
  pose proof (gen_iteration_locals _ _ _ _ _ Hit) as [_ Hst].
  pose proof (gen_iteration_flags _ _ _ _ _ Hit) as [Hr Hi].
  pose proof (gen_iteration_advance _ _ _ _ _ Hit) as Hadv.
  destruct o as [| |c].
  - exfalso. pose proof (proj1 (gen_iteration_return s g)) as Hret.
    rewrite Hit in Hret. destruct Hret as [?|[?|?]]; [done|lia|congruence..].
  - apply IH; [lia|lia|congruence..].
  - specialize (IH (gen_resume s' g').1 (gen_resume s' g').2).
    rewrite gen_resume_total_duration, gen_resume_step_size, gen_resume_running,
      gen_resume_interrupted, Hadv in IH.
    destruct (drain fuel e _ _) as [l r]. simpl.
    apply IH; [lia|lia|congruence..].
Qed.

(** When every extraction succeeds, a running generator yields one chunk
    per window, in order, then returns. *)
Lemma drain_windows fuel : forall s g,
  extraction_succeeds e ->
  is_running s = true -> is_interrupted s = false ->
  0 < step_size g ->
  (window_count (total_duration s) (step_size g) (current_position g) < fuel)%nat ->
  is_Some (drain fuel e s g).2 /\
  length (drain fuel e s g).1
    = window_count (total_duration s) (step_size g) (current_position g) /\
  forall (i : nat) c, (drain fuel e s g).1 !! i = Some c ->
    chunk_start_time c = current_position g + Z.of_nat i * step_size g /\
    chunk_duration_ c
      = Z.min (chunk_size g) (total_duration s - chunk_start_time c) /\
    chunk_chunk_number c = chunk_number g + Z.of_nat i /\
    chunk_start_time c < total_duration s.
Proof.
  induction fuel as [|fuel IH]; intros s g Hok Hrun Hint Hstep Hfuel; [lia|].
  rewrite drain_S.
  destruct (gen_iteration e s g) as [[o s'] g'] eqn:Hit.
  pose proof (gen_iteration_total_duration _ _ _ _ _ Hit) as HD.
  pose proof (gen_iteration_locals _ _ _ _ _ Hit) as [Hcs Hst].
  pose proof (gen_iteration_flags _ _ _ _ _ Hit) as [Hr Hi].
  pose proof (gen_iteration_return s g) as Hret. rewrite Hit in Hret. simpl in Hret.
  destruct o as [| |c].
  - destruct (proj1 Hret) as [?|[?|?]]; [done| |congruence..].
    simpl. rewrite window_count_done by done. split; [by eexists|].
    split; [done|]. intros i c Hc. by rewrite lookup_nil in Hc.
  - exfalso. revert Hit. unfold gen_iteration.
    destruct ((current_position g <? total_duration s) && is_running s);
      [|congruence].
    destruct (is_interrupted s); [congruence|].
    destruct (Hok (ffmpeg_calls g) (current_position g)
                (Z.min (chunk_size g) (total_duration s - current_position g)))
      as (data & -> & Hdata).
    simpl. apply Nat.ltb_lt in Hdata. rewrite Hdata. congruence.
  - apply gen_iteration_yield in Hit
      as (-> & Hcstart & Hcdur & Hcnum & Hlt & Hpos' & Hnum' & _).
    specialize (IH (gen_resume s g').1 (gen_resume s g').2).
    rewrite gen_resume_total_duration, gen_resume_step_size, gen_resume_running,
      gen_resume_interrupted, gen_resume_position, gen_resume_number,
      gen_resume_chunk_size, Hpos', Hnum', Hst, Hcs in IH.
    rewrite (window_count_step _ _ (current_position g)) in Hfuel |- * by auto.
    destruct (drain fuel e _ _) as [l r]. simpl in *.
    destruct IH as (Hsome & Hlen & Hall); [done..|lia|].
    split; [done|]. split; [by rewrite Hlen|].
    intros [|i] c' Hc'; simpl in Hc'.
    + injection Hc' as <-. rewrite Hcstart, Hcdur, Hcnum. lia.
    + destruct (Hall i c' Hc') as (Hs1 & Hs2 & Hs3 & Hs4).
      rewrite Hs2, Hs3. rewrite Hs1 at 1. lia.
Qed.

End Generator.

Lemma window_count_reaches D step :
  0 < step -> D <= Z.of_nat (window_count D step 0) * step.
Proof.
  intros Hs. unfold window_count.
  destruct (Z.le_gt_cases D 0) as [HD|HD]; [nia|].
  rewrite Z2Nat.id by (apply Z.div_pos; lia).
  pose proof (Z.div_mod (D - 0 + step - 1) step ltac:(lia)) as Hdm.
  pose proof (Z.mod_pos_bound (D - 0 + step - 1) step Hs). nia.
Qed.

Lemma steady_env_extraction : extraction_succeeds steady_env.
Proof. intros n ss t. exists [x00]. split; [reflexivity|simpl; lia]. Qed.

(** C1, as stated, fails: after one failed extraction the first chunk
    produced (numbered 0) starts at 25, not at 0. *)
Lemma chunk_windows_counterexample :
  let r := create_audio_chunks 3 flaky_env (ready 50 (__init__ "base" 30 5)) in
  is_Some r.2 /\ ~ covers_windows 50 30 5 r.1.
Proof.
  split; [by eexists|].
  intros H. destruct (H O _ eq_refl) as [Hstart _]. vm_compute in Hstart. done.
Qed.

(** C1 (amended): in a run in which every window's extraction succeeds
    and which is not interrupted, with overlap below the chunk length, the
    generator yields chunk [i] for the window
    [[i*(L-O), min(i*(L-O)+L, D))], so that consecutive start offsets grow
    by exactly [L-O]; every start offset is below [D], and the generator
    returns as soon as the next start offset has reached [D]. *)
Theorem chunk_windows (e : env) (s : scribe) (fuel : nat) :
  overlap_duration s < chunk_duration s ->
  is_running s = true -> is_interrupted s = false ->
  extraction_succeeds e ->
  (window_count (total_duration s) (chunk_duration s - overlap_duration s) 0 < fuel)%nat ->
  let D := total_duration s in
  let L := chunk_duration s in
  let O := overlap_duration s in
  let r := create_audio_chunks fuel e s in
  is_Some r.2 /\
  covers_windows D L O r.1 /\
  (forall (i : nat) c c', r.1 !! i = Some c -> r.1 !! (S i) = Some c' ->
     chunk_start_time c' = chunk_start_time c + (L - O)) /\
  Forall (fun c => chunk_start_time c < D) r.1 /\
  D <= Z.of_nat (length r.1) * (L - O).
Proof.
  intros HLO Hrun Hint Hok Hfuel D L O r.
  pose proof (drain_windows e fuel s (gen_start s) Hok Hrun Hint) as Hw.
  simpl in Hw. destruct Hw as (Hsome & Hlen & Hall); [lia|done|].
  fold (create_audio_chunks fuel e s) in Hsome, Hlen, Hall. fold r in Hsome, Hlen, Hall.
  assert (covers_windows D L O r.1) as Hcov.
  { intros i c Hc. destruct (Hall i c Hc) as (H1 & H2 & H3 & H4).
    subst D L O. lia. }
  split; [done|]. split; [done|]. split; [|split].
  - intros i c c' Hc Hc'. destruct (Hcov _ _ Hc) as [-> _].
    destruct (Hcov _ _ Hc') as [-> _]. lia.
  - apply Forall_lookup. intros i c Hc. by destruct (Hall i c Hc) as (_ & _ & _ & ?).
  - rewrite Hlen. apply window_count_reaches. subst L O. lia.
Qed.

Lemma chunk_windows_witness :
  let s := ready 52 (__init__ "base" 30 5) in
  let r := create_audio_chunks 4 steady_env s in
  is_Some r.2 /\ covers_windows 52 30 5 r.1 /\
  (forall (i : nat) c c', r.1 !! i = Some c -> r.1 !! (S i) = Some c' ->
     chunk_start_time c' = chunk_start_time c + (30 - 5)) /\
  Forall (fun c => chunk_start_time c < 52) r.1 /\
  52 <= Z.of_nat (length r.1) * (30 - 5).
Proof.
  apply (chunk_windows steady_env (ready 52 (__init__ "base" 30 5)) 4).
  - simpl; lia.
  - reflexivity.
  - reflexivity.
  - exact steady_env_extraction.
  - vm_compute; lia.
Defined.

(** C5: every chunk the generator yields ends at or before the total
    duration, whatever the chunk length, the overlap and the answers of
    FFmpeg. *)
Theorem chunk_end_within_duration (fuel : nat) (e : env) (s : scribe) :
  Forall (fun c => chunk_start_time c + chunk_duration_ c <= total_duration s)
         (create_audio_chunks fuel e s).1.
Proof. apply drain_end_offset. Qed.

(** C9: the constructor and [main] accept any chunk length and overlap;
    generation terminates for every duration and every behaviour of FFmpeg
    exactly when the overlap is below the chunk length; with [L <= O] and a
    positive duration the loop is never left; and the chunk count of the
    progress bar divides by [L - O]. *)
Theorem termination_needs_positive_step (model : string) (L O : Z) :
  let s0 := __init__ model L O in
  (chunk_duration s0 = L /\ overlap_duration s0 = O) /\
  (forall e a f, imports_ok e = true -> parse_args e = Some a ->
     exists c, boot e f = inl c /\
               chunk_duration (self c) = arg_chunk_duration a /\
               overlap_duration (self c) = arg_overlap a) /\
  ((forall D e, exists fuel, is_Some (create_audio_chunks fuel e (ready D s0)).2)
   <-> O < L) /\
  (L <= O -> forall D e fuel, 0 < D ->
     (create_audio_chunks fuel e (ready D s0)).2 = None) /\
  (forall D, total_chunks (ready D s0) = None <-> L - O = 0).
Proof.
  intros s0.
  assert (L <= O -> forall D e fuel, 0 < D ->
            (create_audio_chunks fuel e (ready D s0)).2 = None) as Hdiv.
  { intros HLO D e fuel HD. apply drain_diverges; simpl; first [lia|done]. }
  split; [done|]. split; [|split; [|split]].
  - intros e a f Hi Ha. unfold boot. rewrite Hi, Ha. simpl. by eexists.
  - split.
    + intros Hterm. destruct (Z.lt_ge_cases O L) as [|HLO]; [done|].
      destruct (Hterm 1 steady_env) as [fuel Hsome].
      rewrite (Hdiv HLO 1 steady_env fuel) in Hsome by lia.
      by destruct Hsome.
    + intros HLO D e.
      exists (S (window_count D (L - O) 0)).
      apply drain_terminates; simpl; lia.
  - done.
  - intros D. unfold total_chunks. simpl.
    destruct (L - O =? 0) eqn:Hz; [apply Z.eqb_eq in Hz|apply Z.eqb_neq in Hz];
      split; intros; done.
Qed.

(** ** The process *)

(** Closing the progress bar and the [finally] clause touch neither the
    transcripts nor the output file nor the counters. *)
Lemma close_progress_bar_fields s :
  transcripts (close_progress_bar s) = transcripts s /\
  output_file (close_progress_bar s) = output_file s /\
  processed_duration (close_progress_bar s) = processed_duration s /\
  total_duration (close_progress_bar s) = total_duration s /\
  chunk_duration (close_progress_bar s) = chunk_duration s /\
  overlap_duration (close_progress_bar s) = overlap_duration s /\
  is_running (close_progress_bar s) = is_running s /\
  is_interrupted (close_progress_bar s) = is_interrupted s.
Proof. unfold close_progress_bar. by destruct (progress_bar s). Qed.

Lemma transcripts_close_progress_bar s :
  transcripts (close_progress_bar s) = transcripts s.
Proof. apply close_progress_bar_fields. Qed.

Lemma close_if_true_fields s :
  transcripts (close_if_true s) = transcripts s /\
  output_file (close_if_true s) = output_file s /\
  processed_duration (close_if_true s) = processed_duration s /\
  total_duration (close_if_true s) = total_duration s /\
  chunk_duration (close_if_true s) = chunk_duration s /\
  overlap_duration (close_if_true s) = overlap_duration s /\
  is_running (close_if_true s) = is_running s /\
  is_interrupted (close_if_true s) = is_interrupted s.
Proof.
  unfold close_if_true. destruct (bar_is_true s); [|done].
  apply close_progress_bar_fields.
Qed.

Lemma transcripts_close_if_true s :
  transcripts (close_if_true s) = transcripts s.
Proof. apply close_if_true_fields. Qed.

Lemma transcripts_finally_clause s :
  transcripts (finally_clause s) = transcripts s.
Proof. unfold finally_clause. by rewrite transcripts_close_if_true. Qed.

Section Process.

Variable e : env.

(** Case analysis on one step of the process. *)
Ltac step_cases c :=
  destruct c as [p s f a v g w k]; destruct p;
  unfold step, step_tick, goto, goto_fs, goto_gen, _signal_handler,
    append_transcript; simpl;
  repeat case_match; simpl.

Lemma step_exited c ev st : at_ c = Exited st -> step e ev c = c.
Proof. unfold step. intros ->. done. Qed.

Lemma exec_exited evs : forall c st, at_ c = Exited st -> exec e evs c = c.
Proof.
  induction evs as [|ev evs IH]; intros c st Hc; [done|].
  simpl. rewrite (step_exited _ _ _ Hc). by apply (IH _ st).
Qed.

Lemma exec_app evs evs' c : exec e (evs ++ evs') c = exec e evs' (exec e evs c).
Proof. apply foldl_app. Qed.

(** The two steps that [run] takes through [save_transcript] add up to
    the method: the object and the files after them are those
    [save_transcript] gives (one step when there is no output path, where
    the method returns at once). *)
Lemma save_transcript_steps c t :
  at_ c = Transcribed (Some t) ->
  exists n, (n = 1 \/ n = 2)%nat /\
    let c' := exec e (replicate n Tick) c in
    at_ c' = GenResume /\
    (self c', fs c') = save_transcript t (self c) (fs c).
Proof.
  destruct c as [p s f a v g w k]. cbn. intros ->.
  unfold save_transcript.
  destruct (negb (Py.truthy (output_file s))) eqn:Hout.
  - exists 1%nat. split; [by left|]. cbn. unfold step, step_tick. cbn.
    by rewrite Hout.
  - exists 2%nat. split; [by right|]. cbn. unfold step at 2, step_tick. cbn.
    rewrite Hout. done.
Qed.

(** A signal ends the process at once, with status 0. *)
Lemma step_signal_exits c :
  exit_status_of c = None -> at_ (step e Signal c) = Exited 0.
Proof. step_cases c; done. Qed.

(** Inside [run] the only exit status is 0. *)
Lemma step_exit_status c ev st :
  at_ (step e ev c) = Exited st -> at_ c = Exited st \/ st = 0.
Proof. destruct ev; step_cases c; intros; simplify_eq; auto. Qed.

Lemma exec_exit_status evs : forall c st,
  at_ (exec e evs c) = Exited st -> at_ c = Exited st \/ st = 0.
Proof.
  induction evs as [|ev evs IH]; intros c st H; [by left|].
  simpl in H. destruct (IH _ _ H) as [H'|]; [|by right].
  by apply step_exit_status in H'.
Qed.

(** A step leaves the transcript sequence as it is or appends one
    segment at its end. *)
Lemma step_transcripts c ev :
  transcripts (self (step e ev c)) = transcripts (self c) \/
  exists t, transcripts (self (step e ev c)) = (transcripts (self c) ++ [t])%list.
Proof.
  destruct ev; step_cases c; simplify_eq; simpl;
    rewrite ?transcripts_finally_clause, ?transcripts_close_progress_bar,
      ?transcripts_close_if_true;
    simpl; eauto;
    try match goal with
        | H : gen_iteration _ _ _ = _ |- _ =>
            destruct (gen_iteration_self _ _ _ _ _ _ H) as [->|[? ->]]; by left
        | H : extract_youtube_info _ _ _ = _ |- _ =>
            unfold extract_youtube_info in H; simplify_option_eq; by left
        end.
Qed.

Lemma exec_transcripts_prefix evs : forall c,
  transcripts (self c) `prefix_of` transcripts (self (exec e evs c)).
Proof.
  induction evs as [|ev evs IH]; intros c; [done|].
  simpl. etrans; [|apply IH].
  destruct (step_transcripts c ev) as [->|[t ->]]; [done|].
  by apply prefix_app_r.
Qed.

End Process.

(** C8: the transcript sequence is append-only.  [save_transcript] is the
    only method that writes it, and appends at the end; every step of the
    process leaves the sequence as it is or appends one segment; so the
    sequence at any point of a run is a prefix of the sequence at any later
    point: nothing is removed, replaced or reordered.  (No statement of
    the program assigns to a key of a segment once it is built, so
    segments are values here.) *)
Theorem transcripts_append_only (e : env) :
  (forall t s f,
     transcripts (save_transcript t s f).1 = transcripts s \/
     transcripts (save_transcript t s f).1 = (transcripts s ++ [t])%list) /\
  (forall now s f, transcripts (_signal_handler now s f).1 = transcripts s) /\
  (forall s g, transcripts (gen_iteration e s g).1.2 = transcripts s) /\
  (forall s g, transcripts (gen_resume s g).1 = transcripts s) /\
  (forall ev c,
     transcripts (self (step e ev c)) = transcripts (self c) \/
     exists t, transcripts (self (step e ev c)) = (transcripts (self c) ++ [t])%list) /\
  (forall evs evs' c,
     transcripts (self (exec e evs c))
       `prefix_of` transcripts (self (exec e (evs ++ evs') c))).
Proof.
  split; [|split; [|split; [|split; [|split]]]].
  - intros t s f. unfold save_transcript. case_match; simpl; auto.
  - intros now s f. unfold _signal_handler. simpl.
    by rewrite transcripts_close_if_true.
  - intros s g. destruct (gen_iteration e s g) as [[o s'] g'] eqn:Hit.
    by destruct (gen_iteration_self _ _ _ _ _ _ Hit) as [->|[d ->]].
  - done.
  - intros ev c. apply step_transcripts.
  - intros evs evs' c. rewrite exec_app. apply exec_transcripts_prefix.
Qed.

(** C2, as stated, fails for [N = 0]: interrupted before any segment is
    recorded, the process ends with status 0 and no file at all has been
    written, so there is no resume snapshot. *)
Lemma interruption_snapshot_counterexample :
  let c := step steady_env Signal (after_ticks steady_env 8) in
  transcripts (self (after_ticks steady_env 8)) = [] /\
  at_ c = Exited 0 /\ fs c = ∅.
Proof. vm_compute. done. Qed.

(** C2 (amended): a signal that arrives while the process runs, after [N]
    segments have been recorded, ends the process with status 0; no chunk
    is produced or consumed afterwards.  For [N >= 1] the handler first
    writes [<output>.resume.json] with exactly those [N] segments, in
    order, and the current [processed_duration]; for [N = 0] it writes
    nothing. *)
Theorem interruption_snapshot (e : env) (c : config) :
  exit_status_of c = None ->
  let s := self c in
  let c' := step e Signal c in
  at_ c' = Exited 0 /\
  (forall evs, exec e evs c' = c') /\
  transcripts (self c') = transcripts s /\
  is_interrupted (self c') = true /\ is_running (self c') = false /\
  (transcripts s <> [] ->
     fs c' =
     <[Py.str_of_opt (output_file s) +:+ ".resume.json" :=
         [Json (JDict [("transcripts", JList (segment_json <$> transcripts s));
                       ("processed_duration", JInt (processed_duration s));
                       ("total_duration", JInt (total_duration s));
                       ("interrupted_at", JStr (now_isoformat e (clock c)))])]]>
       (fs c)) /\
  (transcripts s = [] -> fs c' = fs c).
Proof.
  intros Hrun s c'.
  assert (at_ c' = Exited 0) as Hexit by (by apply step_signal_exits).
  split; [done|]. split; [intros evs; by eapply exec_exited|].
  subst s c'. destruct c as [p s f a v g w k]. simpl in *.
  assert (step e Signal (Build_config p s f a v g w k) =
          goto_fs (Exited 0)
            (finally_clause (_signal_handler (now_isoformat e k) s f).1)
            (_signal_handler (now_isoformat e k) s f).2
            (Build_config p s f a v g w k)) as ->.
  { unfold step. simpl. by destruct p. }
  unfold goto_fs, _signal_handler, _save_partial_results, finally_clause; simpl.
  set (s1 := set_running false (set_interrupted true s)).
  pose proof (close_if_true_fields s1) as (Htr & Hout & Hpd & Htd & _ & _ & _ & Hi').
  pose proof (close_if_true_fields (set_running false (close_if_true s1)))
    as (Htr2 & _ & _ & _ & _ & _ & Hr & Hi).
  split; [by rewrite Htr2; simpl; rewrite Htr|].
  split; [by rewrite Hi; simpl; rewrite Hi'|].
  split; [by rewrite Hr|].
  rewrite Htr. simpl. split.
  - intros Hne. destruct (transcripts s) eqn:Ht; [done|].
    unfold write_file, resume_file, resume_data.
    rewrite Hout, Hpd, Htd, Htr. simpl. by rewrite Ht.
  - by intros ->.
Qed.

Lemma interruption_snapshot_witness :
  let c := after_ticks steady_env 12 in
  let c' := step steady_env Signal c in
  exit_status_of c = None /\
  length (transcripts (self c)) = 1%nat /\
  at_ c' = Exited 0 /\
  fs c' !! "transcripts/Talk_20240101_000000.txt.resume.json" =
  Some [Json (JDict [("transcripts", JList (segment_json <$> transcripts (self c)));
                     ("processed_duration", JInt 25);
                     ("total_duration", JInt 52);
                     ("interrupted_at", JStr "2024-01-01T00:00:00")])].
Proof.
  intros c c'.
  destruct (interruption_snapshot steady_env c eq_refl)
    as (Hexit & _ & _ & _ & _ & Hfile & _).
  split; [reflexivity|]. split; [reflexivity|]. split; [exact Hexit|].
  fold c' in Hfile. rewrite Hfile by (vm_compute; discriminate).
  apply lookup_insert_eq.
Defined.

(** C3: when the recognized text is empty after stripping white space,
    [transcribe_audio_chunk] returns [None], and the [for] body of [run]
    goes on to the next chunk with the transcript sequence and every file
    unchanged. *)
Theorem empty_text_is_dropped (e : env) (c : config) (ch : chunk)
    (text language : option string) :
  Py.strip (default "" text) = "" ->
  at_ c = ForBody ch ->
  is_running (self c) = true -> is_interrupted (self c) = false ->
  whisper e (whisper_calls c) (chunk_data ch) = TranscribeReturns text language ->
  (forall now, transcribe_audio_chunk (TranscribeReturns text language) now ch = None) /\
  at_ (step e Tick c) = Transcribed None /\
  let c' := exec e [Tick; Tick] c in
  at_ c' = GenResume /\
  transcripts (self c') = transcripts (self c) /\
  fs c' = fs c.
Proof.
  intros Hstrip Hat Hrun Hint Hwh.
  assert (forall now, transcribe_audio_chunk (TranscribeReturns text language) now ch
                      = None) as Hnone.
  { intros now. unfold transcribe_audio_chunk. by rewrite Hstrip. }
  split; [done|].
  destruct c as [p s f a v g w k]. simpl in *. subst p.
  unfold step. simpl. unfold step_tick. simpl.
  rewrite Hrun, Hint, Hwh. simpl. rewrite Hstrip. done.
Qed.

Lemma empty_text_is_dropped_witness :
  let c := after_ticks silent_env 8 in
  at_ c = ForBody first_chunk /\
  let c' := exec silent_env [Tick; Tick] c in
  at_ c' = GenResume /\ transcripts (self c') = transcripts (self c) /\ fs c' = fs c.
Proof.
  intros c.
  assert (at_ c = ForBody first_chunk) as Hat by (vm_compute; reflexivity).
  split; [exact Hat|].
  apply (empty_text_is_dropped silent_env c first_chunk (Some "  ") (Some "en")).
  - vm_compute; reflexivity.
  - exact Hat.
  - vm_compute; reflexivity.
  - vm_compute; reflexivity.
  - vm_compute; reflexivity.
Defined.

(** C4, as stated, fails: when the video cannot be reached, [run] reports
    the failure and the process still ends with status 0. *)
Lemma exit_status_counterexample :
  imports_ok unreachable_env = true /\
  extract_info unreachable_env (arg_url sample_args) = None /\
  process unreachable_env ∅ (replicate 4 Tick) = Some 0.
Proof. vm_compute. done. Qed.

(** *** Termination of the process *)

Section ProcessTermination.

Variable e : env.

(** With a positive step every step of the process brings it closer to
    its end. *)
Lemma step_tick_decreases c :
  positive_step c -> exit_status_of c = None ->
  (steps_left e (step e Tick c) < steps_left e c)%nat /\
  positive_step (step e Tick c).
Proof.
  destruct c as [p s f a v g w k]. intros [Hs Hg] Hrun.
  unfold positive_step, steps_left, resolved_duration, step, step_tick in *.
  simpl in *.
  destruct p; simpl in *; try done.
  - destruct (makedirs_ok e); simpl; (split; [lia|done]).
  - destruct (load_model_ok e); simpl; (split; [lia|done]).
  - unfold extract_youtube_info.
    destruct (extract_info e (arg_url a)) as [info|]; simpl; (split; [lia|done]).
  - destruct v as [v|]; simpl; [|split; [lia|done]].
    destruct (negb (Py.timedelta_ok (vi_duration v)));
      [|destruct (negb (Py.truthy (vi_audio_url v)))]; simpl; (split; [lia|done]).
  - destruct v as [v|]; simpl; (split; [lia|done]).
  - destruct (total_chunks s); simpl; (split; [lia|done]).
  - split; [lia|done].
  - destruct (gen_iteration e s g) as [[o s'] g'] eqn:Hit.
    pose proof (gen_iteration_total_duration _ _ _ _ _ _ Hit) as HD.
    pose proof (gen_iteration_locals _ _ _ _ _ _ Hit) as [_ Hst].
    pose proof (gen_iteration_advance _ _ _ _ _ _ Hit) as Hadv.
    pose proof (gen_iteration_return e s g) as Hret. rewrite Hit in Hret.
    simpl in Hret.
    assert (o <> GenReturn -> current_position g < total_duration s) as Hpos.
    { intros Ho. destruct (Z.lt_ge_cases (current_position g) (total_duration s));
        [done|]. exfalso. apply Ho, Hret. by left. }
    assert (chunk_duration s' = chunk_duration s /\
            overlap_duration s' = overlap_duration s) as [HL HO].
    { by destruct (gen_iteration_self _ _ _ _ _ _ Hit) as [->|[d ->]]. }
    destruct o as [| |ch]; simpl; rewrite ?HD, ?HL, ?HO, ?Hst.
    + split; [lia|done].
    + rewrite (window_count_step _ _ (current_position g)) by auto.
      rewrite Hadv. split; [lia|done].
    + apply gen_iteration_yield in Hit as (_ & _ & _ & _ & _ & -> & _).
      rewrite (window_count_step _ _ (current_position g)) by auto.
      split; [lia|done].
  - destruct (negb (is_running s) || is_interrupted s); simpl; (split; [lia|done]).
  - destruct t as [t|]; simpl; [|split; [lia|done]].
    destruct (negb (Py.truthy (output_file s))); simpl; (split; [lia|done]).
  - split; [lia|done].
  - split; [lia|done].
  - pose proof (close_progress_bar_fields s) as (_ & _ & _ & _ & HL & HO & _).
    destruct (negb (is_interrupted (close_progress_bar s)));
      [destruct v|]; simpl; rewrite HL, HO; (split; [lia|done]).
  - unfold finally_clause.
    pose proof (close_if_true_fields (set_running false s))
      as (_ & _ & _ & _ & HL & HO & _).
    rewrite HL, HO. simpl. split; [lia|done].
Qed.

(** So, left alone, the process ends within [steps_left] steps. *)
Lemma exec_ticks_exit n : forall c,
  positive_step c -> (steps_left e c <= n)%nat ->
  is_Some (exit_status_of (exec e (replicate n Tick) c)).
Proof.
  induction n as [|n IH]; intros c Hc Hn.
  - destruct c as [p s f a v g w k]. unfold steps_left in Hn. simpl in *.
    destruct p; simpl in *; try lia. by eexists.
  - simpl. destruct (exit_status_of c) as [st|] eqn:Hst.
    + unfold exit_status_of in Hst. destruct (at_ c) eqn:Hat; try done.
      rewrite (step_exited e c Tick _ Hat).
      rewrite (exec_exited e _ c _ Hat). unfold exit_status_of.
      rewrite Hat. by eexists.
    + destruct (step_tick_decreases c Hc Hst) as [Hlt Hpos].
      apply IH; [done|lia].
Qed.

End ProcessTermination.

(** A failure of the resolver is caught inside [run]: four steps later
    the process has ended, with status 0. *)
Lemma unreachable_video_exits (e : env) (a : cli_args) (f : files) :
  makedirs_ok e = true -> load_model_ok e = true ->
  extract_info e (arg_url a) = None ->
  exit_status_of (exec e (replicate 4 Tick) (start_run a f)) = Some 0.
Proof.
  intros Hm Hl Hx. unfold exec. cbn [replicate foldl].
  set (c0 := start_run a f).
  assert (step e Tick c0 = goto RunLoadModel (self c0) c0) as ->.
  { unfold step, step_tick. cbn [at_ c0 start_run]. by rewrite Hm. }
  set (c1 := goto RunLoadModel (self c0) c0).
  assert (step e Tick c1
          = goto RunExtractInfo (set_whisper_model true (self c1)) c1) as ->.
  { unfold step, step_tick. cbn [at_ c1 goto]. by rewrite Hl. }
  set (c2 := goto RunExtractInfo (set_whisper_model true (self c1)) c1).
  assert (step e Tick c2 = goto RunFinally (self c2) c2) as ->.
  { unfold step, step_tick. cbn [at_ c2 goto]. unfold extract_youtube_info.
    cbn [args c2 c1 c0 goto start_run]. by rewrite Hx. }
  reflexivity.
Qed.

(** C4 (amended): the process ends with status 1 when an import fails
    and with status 2 when the argument parser rejects the command line.
    Once [run] has started, a signal ends the process with status 0
    (interrupted completion), with the overlap below the chunk length a run
    that is left alone ends with status 0 (normal completion), and a video
    that cannot be reached is only reported: the exception of the resolver
    is caught inside [run] and the process ends with status 0 as well. *)
Theorem exit_status (e : env) (f : files) :
  (imports_ok e = false -> forall evs, process e f evs = Some 1) /\
  (imports_ok e = true -> parse_args e = None ->
   forall evs, process e f evs = Some 2) /\
  (forall a, imports_ok e = true -> parse_args e = Some a ->
     (forall evs, process e f (evs ++ [Signal]) = Some 0) /\
     (arg_overlap a < arg_chunk_duration a ->
      exists n, process e f (replicate n Tick) = Some 0) /\
     (makedirs_ok e = true -> load_model_ok e = true ->
      extract_info e (arg_url a) = None ->
      process e f (replicate 4 Tick) = Some 0)).
Proof.
  split; [|split].
  - intros Hi evs. unfold process, boot. by rewrite Hi.
  - intros Hi Ha evs. unfold process, boot. by rewrite Hi, Ha.
  - intros a Hi Ha. unfold process, boot. rewrite Hi, Ha. simpl.
    split; [|split].
    + intros evs. rewrite exec_app. simpl.
      set (c := exec e evs (start_run a f)).
      destruct (exit_status_of c) as [st|] eqn:Hst.
      * unfold exit_status_of in Hst. destruct (at_ c) eqn:Hat; try done.
        rewrite (step_exited e c Signal _ Hat). unfold exit_status_of. rewrite Hat.
        apply exec_exit_status in Hat as [Hat| ->]; done.
      * unfold exit_status_of. by rewrite (step_signal_exits e c Hst).
    + intros HLO.
      exists (steps_left e (start_run a f)).
      destruct (exec_ticks_exit e (steps_left e (start_run a f)) (start_run a f))
        as [st Hst]; [split; simpl; lia|lia|].
      rewrite Hst. f_equal. unfold exit_status_of in Hst.
      destruct (at_ _) eqn:Hat; try done. injection Hst as ->.
      apply exec_exit_status in Hat as [Hat| ->]; done.
    + intros Hm Hl Hx. exact (unreachable_video_exits e a f Hm Hl Hx).
Qed.

(** ** Windows of the recorded segments *)

(** The [finally] clause and the signal handler leave the transcripts,
    the output path, the offsets and the lengths of the object alone. *)
Lemma finally_clause_keeps s :
  transcripts (finally_clause s) = transcripts s /\
  output_file (finally_clause s) = output_file s /\
  processed_duration (finally_clause s) = processed_duration s /\
  total_duration (finally_clause s) = total_duration s /\
  chunk_duration (finally_clause s) = chunk_duration s /\
  overlap_duration (finally_clause s) = overlap_duration s /\
  is_interrupted (finally_clause s) = is_interrupted s /\
  is_running (finally_clause s) = false.
Proof.
  unfold finally_clause.
  destruct (close_if_true_fields (set_running false s))
    as (-> & -> & -> & -> & -> & -> & -> & ->).
  done.
Qed.

Lemma signal_fields now s f :
  let s' := finally_clause (_signal_handler now s f).1 in
  total_duration s' = total_duration s /\
  chunk_duration s' = chunk_duration s /\
  overlap_duration s' = overlap_duration s /\
  transcripts s' = transcripts s.
Proof.
  intros s'. subst s'.
  destruct (finally_clause_keeps (_signal_handler now s f).1)
    as (-> & _ & _ & -> & -> & -> & _).
  unfold _signal_handler. cbn [fst].
  destruct (close_if_true_fields (set_running false (set_interrupted true s)))
    as (-> & _ & _ & -> & -> & -> & _).
  done.
Qed.

(** Hence a step taken because of a signal leaves them alone too. *)
Lemma step_signal_eq (e : env) c :
  exit_status_of c = None ->
  step e Signal c =
  goto_fs (Exited 0)
    (finally_clause (_signal_handler (now_isoformat e (clock c)) (self c) (fs c)).1)
    (_signal_handler (now_isoformat e (clock c)) (self c) (fs c)).2 c.
Proof. destruct c as [p s f a v g w k]. unfold step. simpl. by destruct p. Qed.

(** *** Every segment spans its chunk, whatever the collaborators answer *)

Section Spans.

Variable e : env.




End Spans.


(** *** In a run without extraction errors *)

Section Windows.

Variable e : env.
Hypothesis Hok : extraction_succeeds e.





End Windows.





(** ** Decimal numerals and the SRT time stamp *)

Lemma pretty_N_small (n : N) :
  (n < 10)%N -> pretty n = String (pretty_N_char n) "".
Proof.
  intros Hn. unfold pretty, pretty_N. case_decide as H0; [by subst|].
  rewrite pretty_N_go_step by lia.
  rewrite N.div_small, N.mod_small by done. by rewrite pretty_N_go_0.
Qed.

Lemma pretty_N_char_digit (n : N) :
  (n < 10)%N -> pretty_N_char n = digit (Z.of_N n).
Proof.
  rewrite <- (N2Nat.id n). generalize (N.to_nat n). clear n. intros k Hk.
  do 10 (destruct k as [|k]; [reflexivity|]). lia.
Qed.

Lemma pretty_N_go_cons (n : N) s :
  (0 < n)%N ->
  pretty_N_go n s = pretty_N_go (n / 10) (String (digit (Z.of_N (n mod 10))) s).
Proof.
  intros Hn. rewrite pretty_N_go_step by done.
  rewrite pretty_N_char_digit; [done|]. by apply N.mod_lt.
Qed.

Lemma pretty_N_go_length (n : N) : forall s,
  (String.length s <= String.length (pretty_N_go n s))%nat.
Proof.
  induction (N.lt_wf_0 n) as [n _ IH]. intros s.
  destruct (decide (n = 0%N)) as [->|Hn]; [by rewrite pretty_N_go_0|].
  rewrite pretty_N_go_step by lia.
  etrans; [|apply IH; apply N.div_lt; lia]. simpl. lia.
Qed.


Lemma pretty_Z_of_N (k : N) : pretty (Z.of_N k) = pretty k.
Proof. by destruct k. Qed.

Lemma pretty_N_1 (k : N) :
  (k < 10)%N -> pretty k = String (digit (Z.of_N k)) "".
Proof.
  intros Hk. rewrite pretty_N_small by done. by rewrite pretty_N_char_digit.
Qed.

Lemma pretty_N_2 (k : N) :
  (10 <= k < 100)%N -> pretty k = two_digits (Z.of_N k).
Proof.
  intros Hk. unfold pretty, pretty_N. case_decide; [lia|].
  rewrite pretty_N_go_cons by lia.
  assert (0 < k / 10 < 10)%N as Hq.
  { split; [apply N.div_str_pos; lia|apply N.Div0.div_lt_upper_bound; lia]. }
  rewrite pretty_N_go_cons by lia.
  rewrite (N.div_small (k / 10)), (N.mod_small (k / 10)) by lia.
  rewrite pretty_N_go_0. unfold two_digits.
  by rewrite N2Z.inj_div, N2Z.inj_mod.
Qed.

Lemma pretty_N_3 (k : N) :
  (100 <= k < 1000)%N -> pretty k = three_digits (Z.of_N k).
Proof.
  intros Hk. unfold pretty, pretty_N. case_decide; [lia|].
  rewrite pretty_N_go_cons by lia.
  assert (10 <= k / 10 < 100)%N as Hq.
  { split; [apply N.div_le_lower_bound; lia|apply N.Div0.div_lt_upper_bound; lia]. }
  pose proof (pretty_N_2 (k / 10) Hq) as H2.
  unfold pretty, pretty_N in H2. case_decide; [lia|].
  rewrite pretty_N_go_cons by lia.
  assert (0 < k / 10 / 10 < 10)%N as Hq2.
  { split; [apply N.div_str_pos; lia|apply N.Div0.div_lt_upper_bound; lia]. }
  rewrite pretty_N_go_cons by lia.
  rewrite (N.div_small (k / 10 / 10)), (N.mod_small (k / 10 / 10)) by lia.
  rewrite pretty_N_go_0. unfold three_digits, two_digits.
  rewrite !N2Z.inj_mod, !N2Z.inj_div. simpl Z.of_N.
  set (z := Z.of_N k). assert (100 <= z < 1000) as Hz by (subst z; lia).
  clearbody z.
  assert (z / 10 / 10 = z / 100) as -> by (rewrite Z.div_div by lia; done).
  assert (z / 10 mod 10 = z mod 100 / 10) as ->.
  { rewrite (Z.mod_eq z 100), (Z.mod_eq (z / 10) 10) by lia.
    replace (z / 10 / 10) with (z / 100) by (rewrite Z.div_div by lia; done).
    replace (z - 100 * (z / 100)) with (z + (- (10 * (z / 100))) * 10) by lia.
    rewrite Z.div_add by lia. lia. }
  assert (z mod 100 mod 10 = z mod 10) as ->; [|done].
  rewrite (Z.mod_eq z 100) by lia.
  replace (z - 100 * (z / 100)) with (z + (- (10 * (z / 100))) * 10) by lia.
  by rewrite Z.mod_add by lia.
Qed.

Lemma pretty_N_long (k : N) :
  (10 <= k)%N -> (2 <= String.length (pretty k))%nat.
Proof.
  intros Hk. unfold pretty, pretty_N. case_decide; [lia|].
  rewrite pretty_N_go_cons by lia.
  rewrite pretty_N_go_cons by (apply N.div_str_pos; lia).
  etrans; [|apply pretty_N_go_length]. simpl. lia.
Qed.

Lemma format_0d_2 (n : Z) : 0 <= n -> Py.format_0d 2 n = hours_digits n.
Proof.
  intros Hn. unfold Py.format_0d, hours_digits.
  destruct (n <? 0) eqn:Hneg; [lia|]. clear Hneg.
  assert (n = Z.of_N (Z.abs_N n)) as Hk by lia.
  set (k := Z.abs_N n) in *. clearbody k. subst n. clear Hn.
  rewrite pretty_Z_of_N.
  destruct (decide (k < 10)%N) as [H1|H1].
  { rewrite pretty_N_1 by done. simpl.
    destruct (Z.of_N k <? 100) eqn:H; [|lia]. unfold two_digits.
    rewrite Z.div_small, Z.mod_small by lia. done. }
  destruct (decide (k < 100)%N) as [H2|H2].
  { rewrite pretty_N_2 by lia. simpl.
    destruct (Z.of_N k <? 100) eqn:H; [done|lia]. }
  destruct (Z.of_N k <? 100) eqn:H; [lia|].
  pose proof (pretty_N_long k ltac:(lia)) as Hl.
  destruct (String.length (pretty k)) as [|[|l]]; [lia..|]. done.
Qed.

Lemma format_0d_2_small (n : Z) : 0 <= n < 100 -> Py.format_0d 2 n = two_digits n.
Proof.
  intros Hn. rewrite format_0d_2 by lia. unfold hours_digits.
  destruct (n <? 100) eqn:H; [done|lia].
Qed.

Lemma format_0d_3 (n : Z) : 0 <= n < 1000 -> Py.format_0d 3 n = three_digits n.
Proof.
  intros Hn. unfold Py.format_0d.
  destruct (n <? 0) eqn:Hneg; [lia|]. clear Hneg.
  assert (n = Z.of_N (Z.abs_N n)) as Hk by lia.
  set (k := Z.abs_N n) in *. clearbody k. subst n.
  destruct (decide (k < 10)%N) as [H1|H1].
  { rewrite pretty_N_1 by done. simpl. unfold three_digits, two_digits.
    rewrite (Z.mod_small _ 100), !Z.div_small, Z.mod_small by lia. done. }
  destruct (decide (k < 100)%N) as [H2|H2].
  { rewrite pretty_N_2 by lia. simpl. unfold three_digits.
    rewrite (Z.mod_small _ 100), Z.div_small by lia. done. }
  rewrite pretty_N_3 by lia. done.
Qed.

Lemma seconds_to_srt_time_int (z : Z) :
  _seconds_to_srt_time (PyInt z) = Some (stamp z).
Proof. reflexivity. Qed.

Lemma stamp_shape (z : Z) :
  0 <= z -> stamp z = srt_time_of_seconds z /\ srt_time_shape (stamp z).
Proof.
  intros Hz. 
  assert (stamp z = srt_time_of_seconds z) as Heq.
  { unfold stamp, srt_time_of_seconds, srt_time.
    rewrite Z.mod_1_r. simpl (0 * 1000).
    pose proof (Z.mod_pos_bound z 3600 ltac:(lia)).
    pose proof (Z.mod_pos_bound z 60 ltac:(lia)).
    assert (0 <= z mod 3600 / 60 < 60).
    { split; [apply Z.div_pos; lia|apply Z.div_lt_upper_bound; lia]. }
    rewrite (format_0d_2 (z / 3600)) by (apply Z.div_pos; lia).
    rewrite !format_0d_2_small by lia.
    by rewrite format_0d_3 by lia. }
  split; [done|]. rewrite Heq.
  exists (z / 3600), (z mod 3600 / 60), (z mod 60), 0.
  pose proof (Z.mod_pos_bound z 3600 ltac:(lia)).
  pose proof (Z.mod_pos_bound z 60 ltac:(lia)).
  split; [apply Z.div_pos; lia|].
  split; [split; [apply Z.div_pos; lia|apply Z.div_lt_upper_bound; lia]|].
  split; [done|]. split; [lia|done].
Qed.

Lemma append_cons x (a b : string) : String x a +:+ b = String x (a +:+ b).
Proof. reflexivity. Qed.

Lemma append_assoc (a b c : string) : (a +:+ b) +:+ c = a +:+ (b +:+ c).
Proof. induction a as [|x a IH]; [done|]. by rewrite !append_cons, IH. Qed.

Lemma append_nil_r (a : string) : a +:+ "" = a.
Proof. induction a as [|x a IH]; [done|]. by rewrite append_cons, IH. Qed.

Lemma write_srt_records (l : list segment) : forall (i : nat) written,
  write_srt (Z.of_nat i + 1) l written
  = (written +:+ concat_strings (imap (fun j => srt_record (i + j)) l), true).
Proof.
  induction l as [|t l IH]; intros i written.
  - cbn [write_srt imap concat_strings]. by rewrite append_nil_r.
  - cbn [write_srt]. rewrite !seconds_to_srt_time_int.
    replace (Z.of_nat i + 1 + 1) with (Z.of_nat (S i) + 1) by lia.
    rewrite IH. f_equal. cbn [imap concat_strings].
    rewrite Nat.add_0_r. unfold Py.str.
    assert (imap ((λ j : nat, srt_record (i + j)) ∘ S) l
            = imap (λ j : nat, srt_record (S i + j)) l) as ->.
    { apply imap_ext. intros j x _. simpl. f_equal. lia. }
    unfold srt_record. by rewrite !append_assoc.
Qed.

Lemma srt_document_records (l : list segment) :
  write_srt 1 l "" = (srt_document l, true).
Proof. apply (write_srt_records l 0 ""). Qed.



(** ** Binary64 arithmetic of the time stamp *)

Module UlpFacts.

Import Ulp.

(** *** Digits *)

Lemma digits2_pos_bounds (m : positive) :
  2 ^ (Z.pos (digits2_pos m) - 1) <= Z.pos m < 2 ^ Z.pos (digits2_pos m).
Proof.
  induction m as [m IH|m IH|]; cbn [digits2_pos]; [| |done].
  - rewrite Pos2Z.inj_succ, Z.pow_succ_r by lia.
    replace (Z.succ (Z.pos (digits2_pos m)) - 1)
      with (Z.succ (Z.pos (digits2_pos m) - 1)) by lia.
    rewrite Z.pow_succ_r by lia. lia.
  - rewrite Pos2Z.inj_succ, Z.pow_succ_r by lia.
    replace (Z.succ (Z.pos (digits2_pos m)) - 1)
      with (Z.succ (Z.pos (digits2_pos m) - 1)) by lia.
    rewrite Z.pow_succ_r by lia. lia.
Qed.

Lemma digits_pos (m : Z) : 0 < m -> 0 < digits m.
Proof. destruct m; simpl; lia. Qed.

Lemma digits_bounds (m : Z) :
  0 < m -> 2 ^ (digits m - 1) <= m < 2 ^ digits m.
Proof.
  destruct m as [|p|p]; [lia| |lia]. intros _. apply digits2_pos_bounds.
Qed.

(** The number of digits is determined by the two bounds. *)
Lemma digits_unique (m d : Z) :
  0 < d -> 2 ^ (d - 1) <= m < 2 ^ d -> digits m = d.
Proof.
  intros Hd [Hlo Hhi].
  assert (0 < m) as Hm by (pose proof (Z.pow_pos_nonneg 2 (d - 1)); lia).
  pose proof (digits_bounds m Hm) as [Hlo' Hhi'].
  pose proof (digits_pos m Hm) as Hdp.
  destruct (Z.lt_trichotomy (digits m) d) as [Hlt|[Heq|Hgt]]; [|done|].
  - assert (2 ^ digits m <= 2 ^ (d - 1)) by (apply Z.pow_le_mono_r; lia). lia.
  - assert (2 ^ d <= 2 ^ (digits m - 1)) by (apply Z.pow_le_mono_r; lia). lia.
Qed.

Lemma digits_le (m d : Z) : 0 < m -> 0 <= d -> m < 2 ^ d -> digits m <= d.
Proof.
  intros Hm Hd Hlt. pose proof (digits_bounds m Hm) as [Hlo _].
  destruct (Z.le_gt_cases (digits m) d) as [|Hgt]; [done|].
  assert (2 ^ d <= 2 ^ (digits m - 1)) by (apply Z.pow_le_mono_r; lia). lia.
Qed.

Lemma digits_ge (m d : Z) : 0 < m -> 2 ^ (d - 1) <= m -> d <= digits m.
Proof.
  intros Hm Hlo. pose proof (digits_bounds m Hm) as [_ Hhi].
  pose proof (digits_pos m Hm).
  destruct (Z.le_gt_cases d (digits m)) as [|Hgt]; [done|].
  assert (2 ^ digits m <= 2 ^ (d - 1)) by (apply Z.pow_le_mono_r; lia). lia.
Qed.

Lemma digits_mul_pow2 (m k : Z) :
  0 < m -> 0 <= k -> digits (m * 2 ^ k) = digits m + k.
Proof.
  intros Hm Hk. pose proof (digits_bounds m Hm) as [Hlo Hhi].
  pose proof (digits_pos m Hm).
  apply digits_unique; [lia|].
  replace (digits m + k - 1) with (digits m - 1 + k) by lia.
  rewrite !Z.pow_add_r by lia.
  pose proof (Z.pow_pos_nonneg 2 k). nia.
Qed.

Lemma digits_div_pow2 (m k : Z) :
  0 < m -> 0 <= k -> k < digits m -> digits (m / 2 ^ k) = digits m - k.
Proof.
  intros Hm Hk Hlt. pose proof (digits_bounds m Hm) as [Hlo Hhi].
  pose proof (Z.pow_pos_nonneg 2 k ltac:(lia) Hk) as Hp.
  apply digits_unique; [lia|]. split.
  - apply Z.div_le_lower_bound; [done|].
    rewrite <- Z.pow_add_r by lia. by replace (k + (digits m - k - 1)) with (digits m - 1) by lia.
  - apply Z.div_lt_upper_bound; [done|].
    rewrite <- Z.pow_add_r by lia. by replace (k + (digits m - k)) with (digits m) by lia.
Qed.

(** *** Shifting a mantissa to the right *)

Lemma iter_pos_nat {A} (f : A -> A) (p : positive) : forall x,
  SpecFloat.iter_pos f p x = Nat.iter (Pos.to_nat p) f x.
Proof.
  induction p as [p IH|p IH|]; intros x; cbn [SpecFloat.iter_pos]; [| |done].
  - rewrite !IH, Pos2Nat.inj_xI.
    replace (S (2 * Pos.to_nat p)) with (Pos.to_nat p + S (Pos.to_nat p))%nat by lia.
    rewrite Nat.iter_add. f_equal. by rewrite Nat.iter_succ_r.
  - rewrite !IH, Pos2Nat.inj_xO.
    replace (2 * Pos.to_nat p)%nat with (Pos.to_nat p + Pos.to_nat p)%nat by lia.
    by rewrite Nat.iter_add.
Qed.

Lemma shr_1_spec (m : Z) (r s : bool) :
  0 <= m ->
  shr_1 (Build_shr_record m r s) = Build_shr_record (m / 2) (Z.odd m) (r || s).
Proof.
  intros Hm. destruct m as [|[p|p|]|]; [done| | |done|lia]; cbn [shr_1]; f_equal.
  - apply (Z.div_unique _ _ _ 1); lia.
  - apply (Z.div_unique _ _ _ 0); lia.
Qed.

Lemma shr_n_S (n : nat) (rec : shr_record) :
  shr_n (S n) rec = shr_1 (shr_n n rec).
Proof. reflexivity. Qed.

Lemma shr_n_m (n : nat) : forall rec,
  0 <= shr_m rec -> shr_m (shr_n n rec) = shr_m rec / 2 ^ Z.of_nat n.
Proof.
  induction n as [|n IH]; intros rec Hm.
  - simpl. by rewrite Z.div_1_r.
  - rewrite shr_n_S. specialize (IH rec Hm).
    destruct (shr_n n rec) as [m' r' s'] eqn:Hrec. simpl in IH.
    rewrite shr_1_spec by (subst m'; apply Z.div_pos; lia).
    simpl. rewrite IH, Nat2Z.inj_succ, Z.pow_succ_r by lia.
    rewrite Z.div_div by lia. f_equal. lia.
Qed.

Lemma shr_n_r (n : nat) (rec : shr_record) :
  0 <= shr_m rec ->
  shr_r (shr_n (S n) rec) = Z.odd (shr_m rec / 2 ^ Z.of_nat n).
Proof.
  intros Hm. pose proof (shr_n_m n rec Hm) as Hn.
  rewrite shr_n_S.
  destruct (shr_n n rec) as [m' r' s'] eqn:Hrec. simpl in Hn.
  rewrite shr_1_spec by (subst m'; apply Z.div_pos; lia).
  simpl. by rewrite Hn.
Qed.

(** [shr] with a positive count is [shr_n]. *)
Lemma shr_pos (rec : shr_record) (e n : Z) :
  0 < n -> shr rec e n = (shr_n (Z.to_nat n) rec, e + n).
Proof.
  intros Hn. destruct n as [|p|p]; [lia| |lia].
  unfold shr, shr_n. by rewrite iter_pos_nat.
Qed.

Lemma shr_nonpos (rec : shr_record) (e n : Z) : n <= 0 -> shr rec e n = (rec, e).
Proof. intros Hn. destruct n as [|p|p]; [done|lia|done]. Qed.

Lemma loc_of_shr_record_of_loc (m : Z) (l : location) :
  loc_of_shr_record (shr_record_of_loc m l) = l /\
  shr_m (shr_record_of_loc m l) = m.
Proof. by destruct l as [|[]]. Qed.

Lemma round_nearest_even_bounds (m : Z) (l : location) :
  m <= round_nearest_even m l <= m + 1.
Proof. destruct l as [|[]]; simpl; try lia. destruct (Z.even m); lia. Qed.

(** Rounding goes up only when the last bit shifted out is set. *)
Lemma round_nearest_even_up (rec : shr_record) :
  shr_r rec = false ->
  round_nearest_even (shr_m rec) (loc_of_shr_record rec) = shr_m rec.
Proof. destruct rec as [m r s]. simpl. intros ->. by destruct s. Qed.

(** From an exact mantissa, [n] shifts and rounding to nearest give a
    mantissa [R] with [R * 2^n] within [2^n / 2] above [m]. *)
Lemma shr_round_exact (m : Z) (n : nat) :
  0 <= m ->
  let rec := shr_n n (Build_shr_record m false false) in
  let R := round_nearest_even (shr_m rec) (loc_of_shr_record rec) in
  m / 2 ^ Z.of_nat n <= R <= m / 2 ^ Z.of_nat n + 1 /\
  2 * R * 2 ^ Z.of_nat n <= 2 * m + 2 ^ Z.of_nat n.
Proof.
  intros Hm rec R.
  pose proof (shr_n_m n (Build_shr_record m false false) Hm) as Hrm.
  simpl in Hrm. fold rec in Hrm.
  pose proof (round_nearest_even_bounds (shr_m rec) (loc_of_shr_record rec)) as HR.
  fold R in HR. rewrite Hrm in HR. split; [done|].
  pose proof (Z.pow_pos_nonneg 2 (Z.of_nat n) ltac:(lia) ltac:(lia)) as Hp.
  pose proof (Z.div_mod m (2 ^ Z.of_nat n) ltac:(lia)) as Hdm.
  pose proof (Z.mod_pos_bound m (2 ^ Z.of_nat n) Hp) as Hmod.
  destruct n as [|k].
  - subst rec R. simpl. lia.
  - destruct (shr_r rec) eqn:Hr.
    + pose proof (shr_n_r k (Build_shr_record m false false) Hm) as Hodd.
      fold rec in Hodd. rewrite Hr in Hodd. simpl in Hodd.
      rewrite Nat2Z.inj_succ, Z.pow_succ_r in * by lia.
      set (P := 2 ^ Z.of_nat k) in *.
      assert (0 < P) as HP by (subst P; apply Z.pow_pos_nonneg; lia).
      pose proof (Z.div_mod m P ltac:(lia)) as Hdm2.
      pose proof (Z.mod_pos_bound m P HP) as Hmod2.
      assert (m / (2 * P) = m / P / 2) as Hdd
        by (rewrite Z.div_div by lia; f_equal; lia).
      symmetry in Hodd. apply Z.odd_spec in Hodd as [q Hq].
      assert (m / P / 2 = q) as Hq2
        by (symmetry; apply (Z.div_unique _ _ _ 1); lia).
      rewrite Hdd, Hq2 in *. nia.
    + subst R. rewrite round_nearest_even_up by done. rewrite Hrm. nia.
Qed.

(** *** Rounding a mantissa-exponent pair *)

Lemma fexp_eq (e : Z) : fexp e = Z.max (e - 53) emin.
Proof. reflexivity. Qed.

Lemma pow2_53 : 2 ^ 53 = 9007199254740992.
Proof. reflexivity. Qed.

(** The second normalisation of [binary_round_aux]: at most one more
    shift, when rounding carried into a 54th bit. *)
Lemma renormalize (R E : Z) :
  0 <= R <= 2 ^ 53 -> emin <= E ->
  (let '(mrs, e') := shr_fexp F64.prec F64.emax R E loc_Exact in
   match shr_m mrs with
   | Z0 => S754_zero false
   | Zpos m =>
       if e' <=? F64.emax - F64.prec then S754_finite false m e'
       else S754_infinity false
   | Zneg _ => S754_nan
   end) = pack R E.
Proof.
  intros [HR0 HR] HE. unfold shr_fexp, pack.
  change (SpecFloat.fexp F64.prec F64.emax) with fexp.
  change (Zdigits2 R) with (digits R).
  change (F64.emax - F64.prec) with 971.
  destruct (Z.eqb_spec R 0) as [->|HRne].
  { rewrite shr_nonpos; [done|]. simpl. rewrite fexp_eq. unfold emin in *. lia. }
  assert (0 < R) as HRpos by lia.
  pose proof (digits_pos R HRpos) as Hdp.
  destruct (Z.ltb_spec R (2 ^ 53)) as [Hlt|Hge].
  - rewrite shr_nonpos.
    + simpl. destruct R as [|p|p]; [lia| |lia]. done.
    + pose proof (digits_le R 53 HRpos ltac:(lia) Hlt).
      rewrite fexp_eq. unfold emin in *. lia.
  - assert (R = 2 ^ 53) as -> by lia.
    assert (digits (2 ^ 53) = 54) as Hd by reflexivity.
    rewrite Hd, fexp_eq.
    replace (Z.max (54 + E - 53) emin - E) with 1 by (unfold emin in *; lia).
    reflexivity.
Qed.

(** [binary_round_aux] on a mantissa that is not negative: the rounded
    mantissa [R] is packed at the exponent the format assigns. *)
Lemma round_char (m e : Z) (l : location) :
  0 <= m ->
  exists R,
    let n := Z.max 0 (fexp (digits m + e) - e) in
    (m / 2 ^ n <= R <= m / 2 ^ n + 1) /\
    R <= 2 ^ 53 /\
    (l = loc_Exact -> 2 * R * 2 ^ n <= 2 * m + 2 ^ n) /\
    emin <= e + n /\
    binary_round_aux F64.prec F64.emax false m e l = pack R (e + n).
Proof.
  intros Hm. unfold binary_round_aux.
  set (n1 := fexp (digits m + e) - e).
  assert (shr_fexp F64.prec F64.emax m e l
          = shr (shr_record_of_loc m l) e n1) as -> by reflexivity.
  pose proof (loc_of_shr_record_of_loc m l) as [Hloc Hrm].
  assert (m < 2 ^ (53 + Z.max 0 n1)) as Hsize.
  { destruct (Z.eq_dec m 0) as [->|Hne]; [apply Z.pow_pos_nonneg; lia|].
    pose proof (digits_bounds m ltac:(lia)) as [_ Hhi].
    pose proof (digits_pos m ltac:(lia)).
    eapply Z.lt_le_trans; [exact Hhi|]. apply Z.pow_le_mono_r; [lia|].
    subst n1. rewrite fexp_eq. unfold emin. lia. }
  assert (emin <= e + Z.max 0 n1) as HE.
  { subst n1. rewrite fexp_eq. unfold emin. lia. }
  destruct (Z.le_gt_cases n1 0) as [Hn|Hn].
  - rewrite shr_nonpos by done.
    rewrite Hloc, Hrm. rewrite Z.max_l in * by done.
    rewrite Z.add_0_r in *. rewrite Z.pow_0_r, Z.div_1_r in *.
    pose proof (round_nearest_even_bounds m l) as HR.
    exists (round_nearest_even m l). cbn zeta.
    split; [done|]. split; [lia|]. split; [by intros ->; simpl; lia|].
    split; [done|]. apply renormalize; [lia|done].
  - rewrite shr_pos by done. rewrite Z.max_r in * by lia.
    set (rec := shr_n (Z.to_nat n1) (shr_record_of_loc m l)).
    pose proof (shr_n_m (Z.to_nat n1) (shr_record_of_loc m l) ltac:(lia)) as Hrec.
    fold rec in Hrec. rewrite Hrm, Z2Nat.id in Hrec by lia.
    pose proof (round_nearest_even_bounds (shr_m rec) (loc_of_shr_record rec)) as HR.
    set (R := round_nearest_even (shr_m rec) (loc_of_shr_record rec)) in *.
    exists R. cbn zeta. rewrite Hrec in HR.
    assert (m / 2 ^ n1 < 2 ^ 53) as Hq.
    { apply Z.div_lt_upper_bound; [apply Z.pow_pos_nonneg; lia|].
      rewrite <- Z.pow_add_r by lia. by rewrite Z.add_comm. }
    assert (0 <= m / 2 ^ n1) by (apply Z.div_pos; [lia|apply Z.pow_pos_nonneg; lia]).
    split; [done|]. split; [lia|]. split; [|split; [done|]].
    + intros ->. pose proof (shr_round_exact m (Z.to_nat n1) Hm) as [_ Hex].
      rewrite Z2Nat.id in Hex by lia. exact Hex.
    + apply renormalize; [lia|done].
Qed.

(** *** The packed result *)

(** The largest finite value, in units. *)

Lemma pack_spec (R E : Z) :
  0 <= R <= 2 ^ 53 -> emin <= E -> E <= 971 -> (E = 971 -> R < 2 ^ 53) ->
  nonneg (pack R E) /\ ulps (pack R E) = R * 2 ^ (E - emin).
Proof.
  intros [HR0 HR] HE HE' Htop. unfold pack.
  destruct (Z.eqb_spec R 0) as [->|HRne]; [split; [done|by rewrite Z.mul_0_l]|].
  destruct (Z.ltb_spec R (2 ^ 53)) as [Hlt|Hge].
  - destruct (Z.leb_spec E 971) as [_|?]; [|lia].
    simpl. rewrite Z2Pos.id by lia. done.
  - assert (R = 2 ^ 53) as -> by lia.
    destruct (Z.leb_spec (E + 1) 971) as [_|?]; [|lia].
    unfold nonneg, ulps. change (Z.pos (Z.to_pos (2 ^ 52))) with (2 ^ 52).
    split; [split; [done|split; [done|lia]]|].
    replace (E + 1 - emin) with (1 + (E - emin)) by lia.
    rewrite Z.pow_add_r by (unfold emin in *; lia).
    change (2 ^ 53) with (2 ^ 52 * 2 ^ 1). ring.
Qed.

(** *** Normalising an integer mantissa *)

Lemma pos_iter_xO (p d : positive) :
  Z.pos (Pos.iter xO p d) = Z.pos p * 2 ^ Z.pos d.
Proof.
  induction d as [|d IH] using Pos.peano_ind.
  - simpl. lia.
  - rewrite Pos.iter_succ, Pos2Z.inj_xO, IH, Pos2Z.inj_succ, Z.pow_succ_r by lia.
    lia.
Qed.

Lemma shl_align_spec (p : positive) (e e' : Z) :
  shl_align p e e' =
  if e' <? e then (Z.to_pos (Z.pos p * 2 ^ (e - e')), e') else (p, e).
Proof.
  unfold shl_align. destruct (Z.ltb_spec e' e) as [Hlt|Hge].
  - destruct (e' - e) as [|d|d] eqn:Hd; [lia|lia|].
    f_equal. apply Pos2Z.inj. rewrite pos_iter_xO.
    replace (e - e') with (Z.pos d) by lia.
    rewrite Z2Pos.id; [done|]. pose proof (Z.pow_pos_nonneg 2 (Z.pos d)). lia.
  - destruct (e' - e) as [|d|d] eqn:Hd; [done|done|lia].
Qed.

Lemma shl_align_fst (p : positive) (e e' : Z) :
  e' <= e -> Z.pos (shl_align p e e').1 = Z.pos p * 2 ^ (e - e').
Proof.
  intros Hle. rewrite shl_align_spec. destruct (Z.ltb_spec e' e); simpl.
  - rewrite Z2Pos.id; [done|]. pose proof (Z.pow_pos_nonneg 2 (e - e')). lia.
  - replace (e - e') with 0 by lia. simpl. lia.
Qed.

(** [binary_normalize] rounds the value [V = z * 2^(e - emin)] to a
    multiple [R * U] of the unit [U] of its binade, to nearest. *)
Lemma normalize_char (z e : Z) :
  0 < z -> emin <= e ->
  let V := z * 2 ^ (e - emin) in
  let k := Z.max (digits V - 53) 0 in
  exists R,
    0 <= R <= 2 ^ 53 /\
    V < (R + 1) * 2 ^ k /\
    2 * R * 2 ^ k <= 2 * V + 2 ^ k /\
    binary_normalize F64.prec F64.emax z e false = pack R (k + emin).
Proof.
  intros Hz He V k.
  assert (digits V = digits z + (e - emin)) as HdV
    by (apply digits_mul_pow2; lia).
  pose proof (digits_pos z Hz) as Hdz.
  assert (fexp (digits z + e) = k + emin) as HE.
  { subst k. rewrite HdV, fexp_eq. unfold emin in *. lia. }
  destruct z as [|p|p]; [lia| |lia].
  unfold binary_normalize, binary_round.
  change (Z.pos (digits2_pos p)) with (digits (Z.pos p)).
  change (SpecFloat.fexp F64.prec F64.emax) with fexp.
  rewrite HE, shl_align_spec.
  destruct (Z.ltb_spec (k + emin) e) as [Hlt|Hge].
  - set (mz := Z.pos p * 2 ^ (e - (k + emin))).
    assert (0 < mz) as Hmz by (subst mz; pose proof (Z.pow_pos_nonneg 2 (e - (k + emin))); lia).
    rewrite Z2Pos.id by done.
    destruct (round_char mz (k + emin) loc_Exact ltac:(lia))
      as (R & HR1 & HR2 & HR3 & _ & ->).
    assert (digits mz = digits (Z.pos p) + (e - (k + emin))) as Hdm
      by (apply digits_mul_pow2; lia).
    assert (fexp (digits mz + (k + emin)) - (k + emin) = 0) as Hn.
    { rewrite Hdm. replace (digits (Z.pos p) + (e - (k + emin)) + (k + emin))
        with (digits (Z.pos p) + e) by lia. lia. }
    rewrite Hn in *. simpl Z.max in *. rewrite Z.add_0_r in *.
    rewrite Z.pow_0_r, Z.div_1_r in *. specialize (HR3 eq_refl).
    assert (R = mz) as HRmz by lia. subst R.
    exists mz. split; [lia|].
    assert (V = mz * 2 ^ k) as HV.
    { unfold V, mz. rewrite <- Z.mul_assoc, <- Z.pow_add_r by (unfold k; lia).
      do 2 f_equal. lia. }
    rewrite HV.
    pose proof (Z.pow_pos_nonneg 2 k ltac:(lia) ltac:(unfold k; lia)).
    split; [nia|]. split; [nia|done].
  - destruct (round_char (Z.pos p) e loc_Exact ltac:(lia))
      as (R & HR1 & HR2 & HR3 & _ & Heq).
    rewrite HE in *.
    rewrite Z.max_r in * by lia.
    replace (e + (k + emin - e)) with (k + emin) in Heq by lia.
    rewrite Heq. specialize (HR3 eq_refl).
    set (n := k + emin - e) in *.
    assert (0 <= n) as Hn by (subst n; lia).
    pose proof (Z.pow_pos_nonneg 2 n ltac:(lia) Hn) as Hpn.
    pose proof (Z.pow_pos_nonneg 2 (e - emin) ltac:(lia) ltac:(lia)) as Hpe.
    assert (2 ^ k = 2 ^ n * 2 ^ (e - emin)) as Hk.
    { rewrite <- Z.pow_add_r by lia. f_equal. subst n. lia. }
    pose proof (Z.div_mod (Z.pos p) (2 ^ n) ltac:(lia)) as Hdm.
    pose proof (Z.mod_pos_bound (Z.pos p) (2 ^ n) Hpn) as Hmod.
    exists R. split; [split; [|done]|].
    { assert (0 <= Z.pos p / 2 ^ n) by (apply Z.div_pos; lia). lia. }
    unfold V. rewrite Hk. split; [nia|]. split; [nia|done].
Qed.

(** The same in units, for a value in the range of the format. *)
Lemma normalize_spec (z e : Z) :
  0 < z -> emin <= e ->
  let V := z * 2 ^ (e - emin) in
  let U := 2 ^ Z.max (digits V - 53) 0 in
  V <= max_ulps ->
  let r := binary_normalize F64.prec F64.emax z e false in
  nonneg r /\ V < ulps r + U /\ 2 * ulps r <= 2 * V + U /\
  (V mod U = 0 -> ulps r = V).
Proof.
  intros Hz He V U HV r.
  destruct (normalize_char z e Hz He) as (R & HR & Hlo & Hhi & Heq).
  fold V in Hlo, Hhi, Heq. set (k := Z.max (digits V - 53) 0) in *.
  fold U in Hlo, Hhi.
  assert (0 < V) as HVpos
    by (subst V; pose proof (Z.pow_pos_nonneg 2 (e - emin)); lia).
  assert (0 < U) as HU by (subst U; apply Z.pow_pos_nonneg; lia).
  pose proof (digits_bounds V HVpos) as [HdVlo HdVhi].
  assert (digits V <= 2098) as HdV.
  { apply digits_le; [done|lia|]. unfold max_ulps, emin in HV.
    assert (2 ^ 2098 = 2 ^ 53 * 2 ^ (971 - -1074)) as -> by (rewrite <- Z.pow_add_r by lia; done).
    pose proof (Z.pow_pos_nonneg 2 (971 - -1074) ltac:(lia) ltac:(lia)). nia. }
  assert (k + emin <= 971) as HkE by (subst k; unfold emin; lia).
  assert (k + emin = 971 -> R < 2 ^ 53) as Htop.
  { intros Hk971. assert (k = 971 - emin) as Hk by lia.
    assert (U = 2 ^ (971 - emin)) as HUeq by (subst U; by rewrite Hk).
    unfold max_ulps in HV. rewrite <- HUeq in HV. nia. }
  destruct (pack_spec R (k + emin) HR ltac:(subst k; lia) HkE Htop) as [Hnn Hul].
  replace (k + emin - emin) with k in Hul by lia.
  subst r. rewrite Heq. rewrite Hul. fold U.
  split; [done|]. split; [lia|]. split; [lia|].
  intros Hmod. apply Z.mod_divide in Hmod as [q Hq]; [|lia].
  assert (q < R + 1) by (apply (Z.mul_lt_mono_pos_r U); lia).
  assert (2 * R < 2 * q + 2) by (apply (Z.mul_lt_mono_pos_r U); lia).
  assert (R = q) as -> by lia. lia.
Qed.

(** *** Values in units *)

Lemma pow2_pos (k : Z) : 0 <= k -> 0 < 2 ^ k.
Proof. intros. by apply Z.pow_pos_nonneg. Qed.

Lemma nonneg_of_valid (m : positive) (e : Z) :
  valid_binary F64.prec F64.emax (S754_finite false m e) = true ->
  nonneg (S754_finite false m e).
Proof.
  unfold valid_binary, bounded, canonical_mantissa.
  change (SpecFloat.fexp F64.prec F64.emax) with fexp.
  change (Z.pos (digits2_pos m)) with (digits (Z.pos m)).
  change (F64.emax - F64.prec) with 971.
  intros [Hc Hb]%andb_true_iff. apply Z.eqb_eq in Hc. apply Z.leb_le in Hb.
  rewrite fexp_eq in Hc.
  pose proof (digits_bounds (Z.pos m) ltac:(lia)) as [_ Hhi].
  split; [done|]. split; [|unfold emin in *; lia].
  eapply Z.lt_le_trans; [exact Hhi|].
  apply Z.pow_le_mono_r; unfold emin in *; lia.
Qed.

Lemma ulps_nonneg (x : spec_float) : 0 <= ulps x.
Proof.
  destruct x as [| | |s m e]; simpl; lia.
Qed.

Lemma ulps_finite_pos (s : bool) (m : positive) (e : Z) :
  emin <= e -> 0 < ulps (S754_finite s m e).
Proof. intros He. simpl. pose proof (pow2_pos (e - emin)). lia. Qed.

Lemma ulps_le_max (x : spec_float) : nonneg x -> ulps x <= max_ulps.
Proof.
  destruct x as [s| | |s m e]; try done.
  intros (_ & Hm & He1 & He2). simpl. unfold max_ulps.
  apply Z.mul_le_mono_nonneg; [lia|lia|apply Z.pow_nonneg; lia|].
  apply Z.pow_le_mono_r; lia.
Qed.

(** A mantissa of at most 53 bits needs no rounding. *)
Lemma exact_small (z e : Z) :
  0 < z < 2 ^ 53 -> emin <= e ->
  (z * 2 ^ (e - emin)) mod 2 ^ Z.max (digits (z * 2 ^ (e - emin)) - 53) 0 = 0.
Proof.
  intros [Hz Hlt] He.
  rewrite digits_mul_pow2 by lia.
  pose proof (digits_le z 53 Hz ltac:(lia) Hlt) as Hd.
  pose proof (digits_pos z Hz).
  set (k := Z.max (digits z + (e - emin) - 53) 0).
  assert (0 <= k <= e - emin) as Hk by (subst k; lia).
  apply Z.mod_divide; [pose proof (pow2_pos k); lia|].
  exists (z * 2 ^ (e - emin - k)).
  rewrite <- Z.mul_assoc, <- Z.pow_add_r by lia. do 2 f_equal. lia.
Qed.

(** A multiple of [2^j] below [2^(53+j)] needs no rounding either. *)
Lemma exact_multiple (V j : Z) :
  0 < V -> 0 <= j -> V mod 2 ^ j = 0 -> V < 2 ^ (53 + j) ->
  V mod 2 ^ Z.max (digits V - 53) 0 = 0.
Proof.
  intros HV Hj Hmod Hlt.
  pose proof (digits_le V (53 + j) HV ltac:(lia) Hlt) as Hd.
  set (k := Z.max (digits V - 53) 0).
  assert (0 <= k <= j) as Hk by (subst k; lia).
  apply Z.mod_divide in Hmod as [q Hq]; [|pose proof (pow2_pos j); lia].
  apply Z.mod_divide; [pose proof (pow2_pos k); lia|].
  exists (q * 2 ^ (j - k)).
  rewrite Hq, <- Z.mul_assoc, <- Z.pow_add_r by lia. do 2 f_equal. lia.
Qed.

Lemma to_int_spec (x : spec_float) :
  nonneg x -> F64.to_int x = Some (ulps x / 2 ^ 1074).
Proof.
  destruct x as [s| | |s m e]; try done. intros (-> & Hm & He1 & He2).
  unfold F64.to_int, ulps, cond_Zopp, emin in *. f_equal.
  destruct (Z.leb_spec 0 e) as [He|He].
  - replace (e - -1074) with (e + 1074) by lia.
    rewrite Z.pow_add_r, Z.mul_assoc, Z.div_mul by (try apply Z.pow_nonzero; lia).
    done.
  - assert (2 ^ 1074 = 2 ^ (e - -1074) * 2 ^ (- e)) as ->
      by (rewrite <- Z.pow_add_r by lia; f_equal; lia).
    rewrite (Z.mul_comm (Z.pos m)).
    rewrite Z.div_mul_cancel_l; [done|apply Z.pow_nonzero; lia..].
Qed.

(** *** The operations *)

Lemma fmod_spec (x w : spec_float) :
  nonneg x -> nonneg w -> 0 < ulps w ->
  nonneg (F64.fmod x w) /\ ulps (F64.fmod x w) = ulps x mod ulps w.
Proof.
  intros Hx Hw Hwpos.
  destruct w as [sw| | |sw mw ew]; try done. destruct Hw as (-> & Hmw & Hew).
  destruct x as [sx| | |sx mx ex]; try done.
  destruct Hx as (-> & Hmx & Hex).
  unfold F64.fmod, cond_Zopp.
  set (e := Z.min ex ew).
  set (X := Z.pos mx * 2 ^ (ex - e)). set (Y := Z.pos mw * 2 ^ (ew - e)).
  assert (emin <= e <= 971) as He by (subst e; lia).
  assert (0 < X) as HX by (subst X; pose proof (pow2_pos (ex - e)); lia).
  assert (0 < Y) as HY by (subst Y; pose proof (pow2_pos (ew - e)); lia).
  assert (ulps (S754_finite false mx ex) = X * 2 ^ (e - emin)) as HuX.
  { simpl. subst X. rewrite <- Z.mul_assoc, <- Z.pow_add_r by lia.
    do 2 f_equal. lia. }
  assert (ulps (S754_finite false mw ew) = Y * 2 ^ (e - emin)) as HuY.
  { simpl. subst Y. rewrite <- Z.mul_assoc, <- Z.pow_add_r by lia.
    do 2 f_equal. lia. }
  rewrite HuX, HuY.
  pose proof (pow2_pos (e - emin) ltac:(lia)) as Hpe.
  rewrite Z.mul_mod_distr_r by lia.
  pose proof (Z.mod_pos_bound X Y HY) as Hmod.
  destruct (Z.eq_dec (X mod Y) 0) as [H0|Hne].
  { rewrite H0. simpl. split; [done|lia]. }
  assert (X mod Y < 2 ^ 53) as Hsmall.
  { destruct (Z.le_gt_cases ex ew).
    - assert (X = Z.pos mx) as HXe.
      { subst X e. rewrite Z.min_l, Z.sub_diag by lia. simpl. lia. }
      pose proof (Z.mod_le X Y ltac:(lia) HY). lia.
    - assert (Y = Z.pos mw) as HYe.
      { subst Y e. rewrite Z.min_r, Z.sub_diag by lia. simpl. lia. }
      lia. }
  pose proof (normalize_spec (X mod Y) e ltac:(lia) ltac:(lia)) as Hn.
  cbn zeta in Hn.
  destruct Hn as (Hnn & _ & _ & Hex').
  { pose proof (ulps_le_max (S754_finite false mw ew)
                  ltac:(split; [done|split; [done|lia]])) as Hle.
    rewrite HuY in Hle. nia. }
  split; [done|]. apply Hex'. apply exact_small; lia.
Qed.

Lemma sub_spec (x y : spec_float) :
  nonneg x -> nonneg y -> ulps y <= ulps x ->
  let V := ulps x - ulps y in
  nonneg (F64.sub x y) /\
  (V = 0 \/ V mod 2 ^ Z.max (digits V - 53) 0 = 0 -> ulps (F64.sub x y) = V).
Proof.
  intros Hx Hy Hle V.
  destruct x as [sx| | |sx mx ex]; try done;
    destruct y as [sy| | |sy my ey]; try done.
  - unfold nonneg in Hx, Hy. subst. done.
  - destruct Hy as (-> & _ & Hey). pose proof (ulps_finite_pos false my ey ltac:(lia)).
    simpl ulps at 2 in Hle. lia.
  - unfold nonneg in Hy. subst sy. split; [done|]. intros _. subst V. simpl. lia.
  - destruct Hx as (-> & Hmx & Hex). destruct Hy as (-> & Hmy & Hey).
    unfold F64.sub, SFsub, cond_Zopp.
    set (e := Z.min ex ey).
    rewrite !shl_align_fst by (subst e; lia).
    assert (emin <= e <= 971) as He by (subst e; lia).
    set (X := Z.pos mx * 2 ^ (ex - e)). set (Y := Z.pos my * 2 ^ (ey - e)).
    assert (0 < X) as HX by (subst X; pose proof (pow2_pos (ex - e)); lia).
    assert (0 < Y) as HY by (subst Y; pose proof (pow2_pos (ey - e)); lia).
    assert (ulps (S754_finite false mx ex) = X * 2 ^ (e - emin)) as HuX.
    { simpl. subst X. rewrite <- Z.mul_assoc, <- Z.pow_add_r by lia.
      do 2 f_equal. lia. }
    assert (ulps (S754_finite false my ey) = Y * 2 ^ (e - emin)) as HuY.
    { simpl. subst Y. rewrite <- Z.mul_assoc, <- Z.pow_add_r by lia.
      do 2 f_equal. lia. }
    pose proof (pow2_pos (e - emin) ltac:(lia)) as Hpe.
    assert (V = (X - Y) * 2 ^ (e - emin)) as HV by (subst V; rewrite HuX, HuY; ring).
    assert (Y <= X) as HYX by (rewrite HuX, HuY in Hle; nia).
    destruct (Z.eq_dec (X - Y) 0) as [H0|Hne].
    { rewrite H0. simpl. split; [done|]. intros _. rewrite HV, H0. lia. }
    pose proof (normalize_spec (X - Y) e ltac:(lia) ltac:(lia)) as Hn.
    cbn zeta in Hn. rewrite <- HV in Hn.
    destruct Hn as (Hnn & _ & _ & Hex').
    { pose proof (ulps_le_max (S754_finite false mx ex)
                    ltac:(split; [done|split; [done|lia]])) as Hmax.
      pose proof (ulps_nonneg (S754_finite false my ey)). lia. }
    split; [done|]. intros [HV0|Hmod]; [nia|by apply Hex'].
Qed.

Lemma floor_spec (r : spec_float) :
  nonneg r ->
  nonneg (F64.floor r) /\ ulps (F64.floor r) = ulps r / 2 ^ 1074 * 2 ^ 1074.
Proof.
  intros Hr. pose proof (to_int_spec r Hr) as Hint.
  destruct r as [s| | |s m e]; try done.
  destruct Hr as (-> & Hm & He1 & He2).
  unfold F64.floor, F64.to_int, cond_Zopp in *.
  injection Hint as Hint.
  destruct (Z.leb_spec 0 e) as [He|He].
  - split; [done|]. unfold ulps. rewrite <- Hint. unfold emin.
    replace (e - -1074) with (e + 1074) by lia.
    rewrite Z.pow_add_r by lia. ring.
  - rewrite Z.shiftr_div_pow2 by lia. unfold ulps at 2. rewrite <- Hint.
    set (z := Z.pos m / 2 ^ (- e)).
    assert (0 <= z) as Hz0 by (subst z; apply Z.div_pos; [lia|apply pow2_pos; lia]).
    assert (z < 2 ^ 53) as Hz53.
    { subst z. apply Z.div_lt_upper_bound; [apply pow2_pos; lia|].
      pose proof (pow2_pos (- e) ltac:(lia)). nia. }
    destruct (Z.eq_dec z 0) as [->|Hne]; [done|].
    pose proof (normalize_spec z 0 ltac:(lia) ltac:(unfold emin; lia)) as Hn.
    cbn zeta in Hn. unfold emin in Hn at 1 2 3 4 5. simpl (0 - -1074) in Hn.
    destruct Hn as (Hnn & _ & _ & Hex).
    { unfold max_ulps, emin.
      assert (2 ^ 1074 <= 2 ^ (971 - -1074)) by (apply Z.pow_le_mono_r; lia).
      pose proof (pow2_pos 1074 ltac:(lia)). nia. }
    split; [done|]. apply Hex.
    pose proof (exact_small z 0 ltac:(lia) ltac:(unfold emin; lia)) as Hes.
    unfold emin in Hes. simpl (0 - -1074) in Hes. exact Hes.
Qed.

Lemma add_spec (x y : spec_float) :
  nonneg x -> nonneg y -> ulps x + ulps y <= max_ulps ->
  nonneg (F64.add x y).
Proof.
  intros Hx Hy Hmax.
  destruct x as [sx| | |sx mx ex]; try done;
    destruct y as [sy| | |sy my ey]; try done.
  - unfold nonneg in Hx, Hy. by subst.
  - destruct Hx as (-> & Hmx & Hex). destruct Hy as (-> & Hmy & Hey).
    unfold F64.add, SFadd, cond_Zopp.
    set (e := Z.min ex ey).
    rewrite !shl_align_fst by (subst e; lia).
    assert (emin <= e <= 971) as He by (subst e; lia).
    set (X := Z.pos mx * 2 ^ (ex - e)). set (Y := Z.pos my * 2 ^ (ey - e)).
    assert (0 < X) as HX by (subst X; pose proof (pow2_pos (ex - e)); lia).
    assert (0 < Y) as HY by (subst Y; pose proof (pow2_pos (ey - e)); lia).
    assert (ulps (S754_finite false mx ex) = X * 2 ^ (e - emin)) as HuX.
    { simpl. subst X. rewrite <- Z.mul_assoc, <- Z.pow_add_r by lia.
      do 2 f_equal. lia. }
    assert (ulps (S754_finite false my ey) = Y * 2 ^ (e - emin)) as HuY.
    { simpl. subst Y. rewrite <- Z.mul_assoc, <- Z.pow_add_r by lia.
      do 2 f_equal. lia. }
    pose proof (normalize_spec (X + Y) e ltac:(lia) ltac:(lia)) as Hn.
    cbn zeta in Hn. apply Hn. rewrite HuX, HuY in Hmax. lia.
Qed.

Lemma div_eucl_div_mod (a b : Z) : Z.div_eucl a b = (a / b, a mod b).
Proof. unfold Z.div, Z.modulo. by destruct (Z.div_eucl a b). Qed.

(** A quotient by a value of at least 2 is finite. *)
Lemma div_nonneg (d : spec_float) (mw : positive) (ew : Z) :
  nonneg d -> nonneg (S754_finite false mw ew) ->
  2 <= digits (Z.pos mw) + ew ->
  nonneg (F64.div d (S754_finite false mw ew)) /\
  ulps (F64.div d (S754_finite false mw ew)) <= 2 ^ 53 * 2 ^ (970 - emin).
Proof.
  intros Hd (_ & Hmw & Hew) Hw2.
  destruct d as [sd| | |sd m1 e1]; try done.
  { unfold nonneg in Hd. subst sd. split; [done|]. simpl.
    pose proof (pow2_pos (970 - emin) ltac:(unfold emin; lia)).
    rewrite pow2_53. lia. }
  destruct Hd as (-> & Hm1 & He1).
  unfold F64.div, SFdiv, SFdiv_core_binary.
  change (SpecFloat.fexp F64.prec F64.emax) with fexp.
  change (Zdigits2 (Z.pos m1)) with (digits (Z.pos m1)).
  change (Zdigits2 (Z.pos mw)) with (digits (Z.pos mw)).
  set (d1 := digits (Z.pos m1)). set (d2 := digits (Z.pos mw)).
  set (e' := Z.min (fexp (d1 + e1 - (d2 + ew))) (e1 - ew)).
  set (s := e1 - ew - e').
  set (m' := match s with Z.pos _ => Z.shiftl (Z.pos m1) s | 0 => Z.pos m1 | Z.neg _ => 0 end).
  pose proof (digits_bounds (Z.pos m1) ltac:(lia)) as [_ Hd1hi]. fold d1 in Hd1hi.
  pose proof (digits_bounds (Z.pos mw) ltac:(lia)) as [Hd2lo _]. fold d2 in Hd2lo.
  pose proof (digits_pos (Z.pos m1) ltac:(lia)) as Hd1p. fold d1 in Hd1p.
  pose proof (digits_pos (Z.pos mw) ltac:(lia)) as Hd2p. fold d2 in Hd2p.
  pose proof (digits_le (Z.pos m1) 53 ltac:(lia) ltac:(lia) Hm1) as Hd153. fold d1 in Hd153.
  assert (0 <= s) as Hs by (subst s e'; lia).
  assert (m' = Z.pos m1 * 2 ^ s) as Hm'.
  { subst m'. destruct s as [|p|p] eqn:Hsp; [simpl; lia| |lia].
    by rewrite Z.shiftl_mul_pow2 by lia. }
  clearbody m'.
  rewrite div_eucl_div_mod. cbv beta iota zeta.
  change (xorb false false) with false.
  set (q := m' / Z.pos mw).
  assert (0 <= q) as Hq0.
  { subst q. apply Z.div_pos; [|lia]. rewrite Hm'. pose proof (pow2_pos s Hs). lia. }
  assert (e' <= 969) as He'.
  { subst e'. rewrite fexp_eq. unfold emin in *. lia. }
  assert (q = 0 \/ digits q + e' <= 1023) as Hdq.
  { destruct (Z.eq_dec q 0) as [|Hq]; [by left|right].
    pose proof (digits_bounds q ltac:(lia)) as [Hqlo _].
    pose proof (digits_pos q ltac:(lia)) as Hdqp.
    assert (q * Z.pos mw <= m') as Hqm.
    { subst q. rewrite Z.mul_comm. apply Z.mul_div_le. lia. }
    assert (m' < 2 ^ (d1 + s)) as Hm'lt.
    { rewrite Hm', Z.pow_add_r by lia.
      apply Z.mul_lt_mono_pos_r; [by apply pow2_pos|done]. }
    assert (2 ^ (digits q - 1 + (d2 - 1)) < 2 ^ (d1 + s)) as Hpow.
    { rewrite Z.pow_add_r by lia.
      eapply Z.le_lt_trans; [|exact Hm'lt]. etrans; [|exact Hqm].
      apply Z.mul_le_mono_nonneg; [apply Z.pow_nonneg; lia|done|
                                   apply Z.pow_nonneg; lia|done]. }
    apply Z.pow_lt_mono_r_iff in Hpow; [|lia|lia].
    subst s. lia. }
  destruct (round_char q e' (new_location (Z.pos mw) (m' mod Z.pos mw)) Hq0)
    as (R & HR1 & HR2 & _ & HE & ->).
  set (n := Z.max 0 (fexp (digits q + e') - e')) in *.
  assert (e' + n <= 970) as HE970.
  { subst n. rewrite fexp_eq. unfold emin in *.
    destruct Hdq as [->|Hdq]; [simpl; lia|lia]. }
  assert (0 <= R) as HR0.
  { assert (0 <= q / 2 ^ n); [|lia].
    apply Z.div_pos; [done|]. apply pow2_pos. subst n. lia. }
  destruct (pack_spec R (e' + n) ltac:(lia) HE ltac:(lia) ltac:(lia)) as [Hnn Hul].
  split; [done|]. rewrite Hul.
  apply Z.mul_le_mono_nonneg; [done|lia|apply Z.pow_nonneg; lia|].
  apply Z.pow_le_mono_r; lia.
Qed.

(** The float 60.0, and exact quotients by it. *)

Lemma new_location_0 (nb : Z) : new_location nb 0 = loc_Exact.
Proof.
  unfold new_location, new_location_even, new_location_odd.
  by destruct (Z.even nb).
Qed.

Lemma div_60_exact (d : spec_float) (k : Z) :
  nonneg d -> 0 < k < 64 -> ulps d = k * (60 * 2 ^ 1074) ->
  nonneg (F64.div d c60) /\ ulps (F64.div d c60) = k * 2 ^ 1074.
Proof.
  intros Hd Hk Hu.
  pose proof (pow2_pos 1074 ltac:(lia)) as Hp1074.
  destruct d as [sd| | |sd m1 e1]; try done; [simpl in Hu; nia|].
  destruct Hd as (-> & Hm1 & He1).
  unfold ulps in Hu. unfold emin in *.
  replace (e1 - -1074) with (e1 + 1074) in Hu by lia.
  set (D := digits (60 * k)).
  set (d1 := digits (Z.pos m1)).
  pose proof (digits_pos (Z.pos m1) ltac:(lia)) as Hd1p. fold d1 in Hd1p.
  pose proof (digits_le (Z.pos m1) 53 ltac:(lia) ltac:(lia) Hm1) as Hd153.
  fold d1 in Hd153.
  assert (d1 + e1 = D) as HD.
  { assert (digits (Z.pos m1 * 2 ^ (e1 + 1074)) = d1 + (e1 + 1074)) as H1
      by (apply digits_mul_pow2; lia).
    assert (digits (60 * k * 2 ^ 1074) = D + 1074) as H2
      by (apply digits_mul_pow2; lia).
    rewrite Hu in H1. replace (k * (60 * 2 ^ 1074)) with (60 * k * 2 ^ 1074) in H1 by ring.
    lia. }
  assert (6 <= D <= 12) as HDr.
  { subst D. split.
    - apply digits_ge; [lia|]. simpl. lia.
    - apply digits_le; [lia|lia|]. simpl. lia. }
  set (dk := digits k).
  pose proof (digits_bounds k ltac:(lia)) as [Hklo Hkhi]. fold dk in Hklo, Hkhi.
  pose proof (digits_pos k ltac:(lia)) as Hdkp. fold dk in Hdkp.
  assert (dk <= 6) as Hdk6 by (subst dk; apply digits_le; simpl; lia).
  assert (D <= dk + 6) as HDk.
  { subst D. apply digits_le; [lia|lia|]. rewrite Z.pow_add_r by lia.
    change (2 ^ 6) with 64. lia. }
  unfold F64.div, SFdiv, SFdiv_core_binary, c60.
  change (SpecFloat.fexp F64.prec F64.emax) with fexp.
  change (Zdigits2 (Z.pos m1)) with d1.
  change (Zdigits2 8444249301319680) with 53.
  assert (Z.min (fexp (d1 + e1 - (53 + -47))) (e1 - -47) = D - 59) as ->.
  { rewrite fexp_eq. unfold emin. lia. }
  assert (e1 - -47 - (D - 59) = 106 - d1) as -> by lia.
  destruct (106 - d1) as [|p|p] eqn:Hs; [lia| |lia]. rewrite <- Hs. clear p Hs.
  rewrite Z.shiftl_mul_pow2 by lia.
  rewrite div_eucl_div_mod. cbv beta iota zeta.
  change (xorb false false) with false.
  assert (Z.pos m1 * 2 ^ (106 - d1) = k * 2 ^ (59 - D) * 8444249301319680) as Hm'.
  { apply (Z.mul_reg_r _ _ (2 ^ (e1 + 1074))); [apply Z.pow_nonzero; lia|].
    replace (Z.pos m1 * 2 ^ (106 - d1) * 2 ^ (e1 + 1074))
      with (Z.pos m1 * 2 ^ (e1 + 1074) * 2 ^ (106 - d1)) by ring.
    rewrite Hu.
    change 8444249301319680 with (60 * 2 ^ 47).
    replace (k * 2 ^ (59 - D) * (60 * 2 ^ 47) * 2 ^ (e1 + 1074))
      with (k * 60 * (2 ^ (59 - D) * 2 ^ 47 * 2 ^ (e1 + 1074))) by ring.
    replace (k * (60 * 2 ^ 1074) * 2 ^ (106 - d1))
      with (k * 60 * (2 ^ 1074 * 2 ^ (106 - d1))) by ring.
    f_equal. rewrite <- !Z.pow_add_r by lia. f_equal. lia. }
  rewrite Hm', Z.div_mul, Z.mod_mul by lia. rewrite new_location_0.
  set (q := k * 2 ^ (59 - D)).
  pose proof (pow2_pos (59 - D) ltac:(lia)) as HpD.
  assert (0 < q) as Hq by (subst q; lia).
  destruct (round_char q (D - 59) loc_Exact ltac:(lia))
    as (R & [HRlo _] & HR2 & HR3 & HE & ->).
  specialize (HR3 eq_refl).
  assert (digits q = dk + (59 - D)) as Hdq by (apply digits_mul_pow2; lia).
  assert (Z.max 0 (fexp (digits q + (D - 59)) - (D - 59)) = dk + 6 - D) as Hn.
  { rewrite Hdq, fexp_eq. unfold emin. lia. }
  rewrite Hn in *. set (n := dk + 6 - D) in *.
  pose proof (pow2_pos n ltac:(lia)) as Hpn.
  set (R0 := k * 2 ^ (53 - dk)).
  pose proof (pow2_pos (53 - dk) ltac:(lia)) as Hp53.
  assert (q = R0 * 2 ^ n) as HqR.
  { subst q R0 n. rewrite <- Z.mul_assoc, <- Z.pow_add_r by lia.
    do 2 f_equal. lia. }
  rewrite HqR, Z.div_mul in HRlo by lia.
  assert (R = R0) as ->.
  { assert (2 * R < 2 * R0 + 2); [|lia].
    apply (Z.mul_lt_mono_pos_r (2 ^ n)); [done|]. rewrite HqR in HR3. lia. }
  assert (R0 < 2 ^ 53) as HR053.
  { subst R0. replace 53 with (dk + (53 - dk)) at 2 by lia.
    rewrite Z.pow_add_r by lia. apply Z.mul_lt_mono_pos_r; lia. }
  replace (D - 59 + n) with (dk - 53) by (subst n; lia).
  destruct (pack_spec R0 (dk - 53) ltac:(subst R0; lia) ltac:(unfold emin; lia)
              ltac:(lia) ltac:(lia)) as [Hnn Hul].
  split; [done|]. rewrite Hul. subst R0.
  rewrite <- Z.mul_assoc, <- Z.pow_add_r by (unfold emin; lia).
  do 2 f_equal. unfold emin. lia.
Qed.

(** The float 1000.0: a fraction below one times it stays below 1000
    after rounding. *)

Lemma mul_1000_bound (frac : spec_float) :
  nonneg frac -> ulps frac < 2 ^ 1074 ->
  exists ms, F64.to_int (F64.mul frac c1000) = Some ms /\ 0 <= ms < 1000.
Proof.
  intros Hf Hlt.
  destruct frac as [sf| | |sf mf ef]; try done.
  { exists 0. unfold nonneg in Hf. subst. done. }
  destruct Hf as (-> & Hmf & Hef). unfold emin in *.
  unfold ulps, emin in Hlt. replace (ef - -1074) with (ef + 1074) in Hlt by lia.
  pose proof (pow2_pos (ef + 1074) ltac:(lia)) as Hpe.
  assert (ef < 0) as Hneg.
  { destruct (Z.lt_ge_cases ef 0); [done|exfalso].
    assert (2 ^ 1074 <= 2 ^ (ef + 1074)) by (apply Z.pow_le_mono_r; lia).
    assert (2 ^ (ef + 1074) <= Z.pos mf * 2 ^ (ef + 1074)); [|lia].
    rewrite <- (Z.mul_1_l (2 ^ (ef + 1074))) at 1.
    apply Z.mul_le_mono_nonneg_r; lia. }
  assert (Z.pos mf < 2 ^ (- ef)) as Hmflt.
  { apply (Z.mul_lt_mono_pos_r (2 ^ (ef + 1074))); [done|].
    rewrite <- Z.pow_add_r by lia. by replace (- ef + (ef + 1074)) with 1074 by lia. }
  unfold F64.mul, SFmul, c1000. change (xorb false false) with false.
  rewrite Pos2Z.inj_mul.
  set (m := Z.pos mf * 8796093022208000). set (e := ef + -43).
  assert (0 < m) as Hm by (subst m; lia).
  destruct (round_char m e loc_Exact ltac:(lia))
    as (R & [HRlo _] & HR2 & HR3 & HE & ->).
  specialize (HR3 eq_refl).
  set (n := Z.max 0 (fexp (digits m + e) - e)) in *.
  assert (0 <= n) as Hn0 by (subst n; lia).
  pose proof (pow2_pos n Hn0) as Hpn.
  pose proof (pow2_pos (- ef) ltac:(lia)) as Hpef.
  assert (m <= 1000 * 2 ^ 43 * 2 ^ (- ef) - 1000 * 2 ^ 43) as Hmle.
  { subst m. change 8796093022208000 with (1000 * 2 ^ 43). nia. }
  assert (digits m <= 106) as Hdm.
  { apply digits_le; [done|lia|].
    subst m. change (2 ^ 106) with (2 ^ 53 * 2 ^ 53).
    apply Z.mul_lt_mono_nonneg; [lia|done|lia|done]. }
  assert (digits m + e <= 10) as Hme.
  { assert (digits m <= 10 - e); [|lia].
    apply digits_le; [done|subst e; lia|].
    replace (10 - e) with (53 + - ef) by (subst e; lia).
    rewrite Z.pow_add_r by lia. change (2 ^ 53) with (1024 * 2 ^ 43) .
    change (2 ^ 43) with 8796093022208 in *. lia. }
  assert (n <= 53) as Hn53.
  { subst n e. rewrite fexp_eq. unfold emin. lia. }
  assert (e + n <= -43) as HEneg.
  { subst n. rewrite fexp_eq. unfold emin. subst e. lia. }
  assert (2 ^ n <= 2 ^ 53) as Hpn53 by (apply Z.pow_le_mono_r; lia).
  assert (0 <= R) as HR0.
  { assert (0 <= m / 2 ^ n); [|lia]. apply Z.div_pos; lia. }
  (* the rounded mantissa stays below 1000 at its exponent *)
  assert (R * 2 ^ n < 1000 * 2 ^ 43 * 2 ^ (- ef)) as HRn.
  { change (2 ^ 53) with (1024 * 2 ^ 43) in Hpn53.
    change (2 ^ 43) with 8796093022208 in *. lia. }
  assert (R < 1000 * 2 ^ (- (e + n))) as HRE.
  { apply (Z.mul_lt_mono_pos_r (2 ^ n)); [done|].
    eapply Z.lt_le_trans; [exact HRn|].
    rewrite <- !Z.mul_assoc. apply Z.mul_le_mono_nonneg_l; [lia|].
    rewrite <- !Z.pow_add_r by lia. apply Z.pow_le_mono_r; [lia|subst e; lia]. }
  assert (emin <= e + n) as HE' by exact HE.
  destruct (pack_spec R (e + n) (conj HR0 HR2) HE' ltac:(lia)
              ltac:(intros; lia)) as [Hnn Hul].
  rewrite (to_int_spec _ Hnn), Hul. eexists. split; [done|].
  unfold emin in *.
  pose proof (pow2_pos (e + n - -1074) ltac:(lia)) as HpE.
  split; [apply Z.div_pos; [nia|lia]|].
  apply Z.div_lt_upper_bound; [lia|].
  assert (2 ^ 1074 = 2 ^ (e + n - -1074) * 2 ^ (- (e + n))) as ->.
  { rewrite <- Z.pow_add_r by lia. f_equal. lia. }
  pose proof (pow2_pos (- (e + n)) ltac:(lia)). nia.
Qed.

Lemma ulps_c60 : ulps c60 = 60 * 2 ^ 1074.
Proof.
  unfold ulps, c60, emin. change (-47 - -1074) with 1027.
  change 8444249301319680 with (60 * 2 ^ 47).
  rewrite <- Z.mul_assoc, <- Z.pow_add_r by lia. reflexivity.
Qed.

Lemma ulps_c3600 : ulps c3600 = 3600 * 2 ^ 1074.
Proof.
  unfold ulps, c3600, emin. change (-41 - -1074) with 1033.
  change 7916483719987200 with (3600 * 2 ^ 41).
  rewrite <- Z.mul_assoc, <- Z.pow_add_r by lia. reflexivity.
Qed.

Lemma ulps_one : ulps F64.one = 2 ^ 1074.
Proof.
  change F64.one with (S754_finite false 4503599627370496 (-52)).
  unfold ulps, emin. change (-52 - -1074) with 1022.
  change (Z.pos 4503599627370496) with (2 ^ 52).
  rewrite <- Z.pow_add_r by lia. reflexivity.
Qed.

Lemma nonneg_c60 : nonneg c60.
Proof. unfold nonneg, c60, emin. repeat split; lia. Qed.

Lemma nonneg_c3600 : nonneg c3600.
Proof. unfold nonneg, c3600, emin. repeat split; lia. Qed.

Lemma nonneg_one : nonneg F64.one.
Proof.
  change F64.one with (S754_finite false 4503599627370496 (-52)).
  unfold nonneg, emin. repeat split; lia.
Qed.

Lemma ltb_zero (x : spec_float) : nonneg x -> F64.ltb x F64.zero = false.
Proof. destruct x as [s| | |s m e]; try done. by intros (-> & _). Qed.

Lemma nonneg_zero (x : spec_float) : nonneg x -> ulps x = 0 -> x = S754_zero false.
Proof.
  destruct x as [s| | |s m e]; try done.
  - by intros ->.
  - intros (_ & _ & He & _) Hu.
    pose proof (ulps_finite_pos s m e He). lia.
Qed.

Lemma is_zero_false (x : spec_float) : 0 < ulps x -> F64.is_zero x = false.
Proof. destruct x; simpl; done || lia. Qed.

Lemma is_zero_ulps (x : spec_float) :
  nonneg x -> F64.is_zero x = false -> 0 < ulps x.
Proof.
  destruct x as [s| | |s m e]; try done.
  intros (_ & _ & He & _) _. by apply ulps_finite_pos.
Qed.

(** [x % w] for operands that are not negative: the exact remainder. *)
Lemma float_rem_spec (x w : spec_float) :
  nonneg x -> nonneg w -> 0 < ulps w ->
  exists r, F64.float_rem x w = Some r /\ nonneg r /\ ulps r = ulps x mod ulps w.
Proof.
  intros Hx Hw Hpos. unfold F64.float_rem.
  rewrite (is_zero_false w Hpos).
  destruct (fmod_spec x w Hx Hw Hpos) as [Hn Hu].
  rewrite (ltb_zero w Hw), (ltb_zero _ Hn). simpl.
  eexists. split; [done|].
  destruct (F64.is_zero (F64.fmod x w)) eqn:Hz; simpl; [|done].
  split.
  - unfold F64.zero_with_sign_of. destruct w; try done. by destruct Hw as [-> _].
  - rewrite <- Hu. destruct (F64.fmod x w); done.
Qed.

(** The whole seconds of [x % 60]. *)
Lemma rem_60_int (x : spec_float) :
  nonneg x ->
  exists r secs, F64.float_rem x c60 = Some r /\ F64.to_int r = Some secs /\
    0 <= secs < 60.
Proof.
  intros Hx.
  pose proof (pow2_pos 1074 ltac:(lia)) as Hp.
  destruct (float_rem_spec x c60 Hx nonneg_c60) as (r & Hr & Hn & Hu).
  { rewrite ulps_c60. lia. }
  exists r. eexists. split; [done|]. rewrite (to_int_spec r Hn). split; [done|].
  rewrite Hu, ulps_c60.
  pose proof (Z.mod_pos_bound (ulps x) (60 * 2 ^ 1074) ltac:(lia)) as Hb.
  split; [apply Z.div_pos; lia|apply Z.div_lt_upper_bound; lia].
Qed.

(** The milliseconds of [x % 1 * 1000]. *)
Lemma rem_1_millis (x : spec_float) :
  nonneg x ->
  exists r ms, F64.float_rem x F64.one = Some r /\
    F64.to_int (F64.mul r c1000) = Some ms /\ 0 <= ms < 1000.
Proof.
  intros Hx.
  pose proof (pow2_pos 1074 ltac:(lia)) as Hp.
  destruct (float_rem_spec x F64.one Hx nonneg_one) as (r & Hr & Hn & Hu).
  { rewrite ulps_one. lia. }
  rewrite ulps_one in Hu.
  pose proof (Z.mod_pos_bound (ulps x) (2 ^ 1074) ltac:(lia)) as Hb.
  destruct (mul_1000_bound r Hn ltac:(lia)) as (ms & Hms & Hrange).
  by exists r, ms.
Qed.

Lemma floor_div_no_adjust (x w : spec_float) :
  nonneg x -> nonneg w -> 0 < ulps w ->
  F64.float_floor_div x w =
    Some (let div_ := F64.div (F64.sub x (F64.fmod x w)) w in
          if negb (F64.is_zero div_)
          then let floordiv := F64.floor div_ in
               if F64.ltb F64.half (F64.sub div_ floordiv)
               then F64.add floordiv F64.one else floordiv
          else F64.zero_with_sign_of (F64.div x w)).
Proof.
  intros Hx Hw Hpos. unfold F64.float_floor_div.
  rewrite (is_zero_false w Hpos).
  destruct (fmod_spec x w Hx Hw Hpos) as [Hn Hu].
  rewrite (ltb_zero w Hw), (ltb_zero _ Hn). simpl (Bool.eqb false false).
  simpl (negb true). by rewrite andb_false_r.
Qed.

(** The hours of [x // 3600]. *)
Lemma floor_div_3600_int (x : spec_float) :
  nonneg x ->
  exists q hours, F64.float_floor_div x c3600 = Some q /\
    F64.to_int q = Some hours /\ 0 <= hours.
Proof.
  intros Hx.
  pose proof (pow2_pos 1074 ltac:(lia)) as Hp.
  assert (0 < ulps c3600) as Hpos by (rewrite ulps_c3600; lia).
  rewrite (floor_div_no_adjust x c3600 Hx nonneg_c3600 Hpos). cbv zeta.
  destruct (fmod_spec x c3600 Hx nonneg_c3600 Hpos) as [Hn Hu].
  pose proof (ulps_nonneg x) as Hx0.
  assert (ulps (F64.fmod x c3600) <= ulps x) as Hle.
  { rewrite Hu. apply Z.mod_le; lia. }
  destruct (sub_spec x _ Hx Hn Hle) as [Hsn _].
  destruct (div_nonneg _ 7916483719987200 (-41) Hsn nonneg_c3600 ltac:(done))
    as [Hdn Hdu].
  fold c3600 in Hdn, Hdu.
  set (div_ := F64.div (F64.sub x (F64.fmod x c3600)) c3600) in *.
  assert (forall r, nonneg r -> exists hours, F64.to_int r = Some hours /\ 0 <= hours)
    as Hint.
  { intros r Hr. rewrite (to_int_spec r Hr). eexists. split; [done|].
    apply Z.div_pos; [apply ulps_nonneg|lia]. }
  destruct (F64.is_zero div_) eqn:Hz; simpl negb; cbv iota.
  - eexists. exists 0. split; [done|]. split; [|done].
    unfold F64.zero_with_sign_of. done.
  - destruct (floor_spec div_ Hdn) as [Hfn Hfu].
    destruct (F64.ltb F64.half (F64.sub div_ (F64.floor div_))).
    + assert (nonneg (F64.add (F64.floor div_) F64.one)) as Han.
      { apply add_spec; [done|apply nonneg_one|].
        rewrite ulps_one, Hfu.
        pose proof (Z.mul_div_le (ulps div_) (2 ^ 1074) ltac:(lia)).
        unfold max_ulps, emin in *.
        change (970 - -1074) with 2044 in *. change (971 - -1074) with (2044 + 1).
        rewrite Z.pow_add_r by lia.
        assert (2 ^ 1074 <= 2 ^ 2044) by (apply Z.pow_le_mono_r; lia).
        pose proof (pow2_pos 53 ltac:(lia)).
        change (2 ^ 1) with 2. 
        assert (2 <= 2 ^ 53) by (change 2 with (2 ^ 1) at 1; apply Z.pow_le_mono_r; lia).
        nia. }
      destruct (Hint _ Han) as (h & Hh & Hh0). by eexists _, h.
    + destruct (Hint _ Hfn) as (h & Hh & Hh0). by eexists _, h.
Qed.

(** The minutes of [(x % 3600) // 60]. *)
Lemma floor_div_60_int (y : spec_float) :
  nonneg y -> ulps y < 3600 * 2 ^ 1074 ->
  exists q minutes, F64.float_floor_div y c60 = Some q /\
    F64.to_int q = Some minutes /\ 0 <= minutes < 60.
Proof.
  intros Hy Hlt.
  pose proof (pow2_pos 1074 ltac:(lia)) as Hp.
  assert (0 < ulps c60) as Hpos by (rewrite ulps_c60; lia).
  rewrite (floor_div_no_adjust y c60 Hy nonneg_c60 Hpos). cbv zeta.
  destruct (fmod_spec y c60 Hy nonneg_c60 Hpos) as [Hn Hu].
  rewrite ulps_c60 in Hu.
  pose proof (ulps_nonneg y) as Hy0.
  set (W := 60 * 2 ^ 1074) in *.
  set (k := ulps y / W).
  assert (0 <= k < 60) as Hk.
  { subst k. split; [apply Z.div_pos; lia|apply Z.div_lt_upper_bound; lia]. }
  assert (ulps y - ulps (F64.fmod y c60) = k * W) as HV.
  { rewrite Hu. pose proof (Z.div_mod (ulps y) W ltac:(lia)). subst k. lia. }
  assert (ulps (F64.fmod y c60) <= ulps y) as Hle.
  { rewrite Hu. apply Z.mod_le; lia. }
  destruct (sub_spec y _ Hy Hn Hle) as [Hsn Hsu]. cbv zeta in Hsu.
  rewrite HV in Hsu.
  destruct (Z.eq_dec k 0) as [Hk0|Hk0].
  - rewrite Hk0 in Hsu. rewrite (nonneg_zero _ Hsn (Hsu (or_introl eq_refl))).
    eexists. exists 0. split; [done|]. split; [done|lia].
  - assert (ulps (F64.sub y (F64.fmod y c60)) = k * W) as Hs.
    { apply Hsu. right. apply (exact_multiple _ 1074); [lia|lia| |].
      - subst W. replace (k * (60 * 2 ^ 1074)) with (k * 60 * 2 ^ 1074) by ring.
        apply Z.mod_mul. lia.
      - subst W. rewrite Z.pow_add_r by lia.
        pose proof (pow2_pos 53 ltac:(lia)).
        assert (k * 60 < 2 ^ 53) by (change (2 ^ 53) with 9007199254740992; lia).
        replace (k * (60 * 2 ^ 1074)) with (k * 60 * 2 ^ 1074) by ring.
        apply Z.mul_lt_mono_pos_r; lia. }
    destruct (div_60_exact _ k Hsn ltac:(lia) Hs) as [Hdn Hdu].
    set (div_ := F64.div (F64.sub y (F64.fmod y c60)) c60) in *.
    rewrite (is_zero_false div_) by (rewrite Hdu; lia). simpl negb. cbv iota.
    destruct (floor_spec div_ Hdn) as [Hfn Hfu].
    rewrite Hdu, Z.div_mul in Hfu by lia.
    destruct (sub_spec div_ _ Hdn Hfn ltac:(lia)) as [Hzn Hzu]. cbv zeta in Hzu.
    assert (ulps div_ - ulps (F64.floor div_) = 0) as Hz0 by (rewrite Hdu, Hfu; lia).
    rewrite (nonneg_zero _ Hzn (eq_trans (Hzu (or_introl Hz0)) Hz0)).
    change (F64.ltb F64.half (S754_zero false)) with false. cbv iota.
    eexists. exists k. split; [done|].
    rewrite (to_int_spec _ Hfn), Hfu, Z.div_mul by lia. done.
Qed.

Lemma of_int_3600 : F64.of_int 3600 = Some c3600.
Proof. reflexivity. Qed.

Lemma of_int_60 : F64.of_int 60 = Some c60.
Proof. reflexivity. Qed.

Lemma of_int_1 : F64.of_int 1 = Some F64.one.
Proof. reflexivity. Qed.

Lemma of_int_1000 : F64.of_int 1000 = Some c1000.
Proof. reflexivity. Qed.

Lemma floordiv_float (x : spec_float) (n : Z) (c : spec_float) :
  F64.of_int n = Some c ->
  Num.floordiv (PyFloat x) (PyInt n) = PyFloat <$> F64.float_floor_div x c.
Proof. intros H. unfold Num.floordiv, Num.lift2. by rewrite H. Qed.

Lemma mod_float (x : spec_float) (n : Z) (c : spec_float) :
  F64.of_int n = Some c ->
  Num.mod_ (PyFloat x) (PyInt n) = PyFloat <$> F64.float_rem x c.
Proof. intros H. unfold Num.mod_, Num.lift2. by rewrite H. Qed.

Lemma mul_float (x : spec_float) (n : Z) (c : spec_float) :
  F64.of_int n = Some c ->
  Num.mul (PyFloat x) (PyInt n) = Some (PyFloat (F64.mul x c)).
Proof. intros H. unfold Num.mul, Num.lift2. by rewrite H. Qed.

Lemma int_float (f : spec_float) : Num.int (PyFloat f) = F64.to_int f.
Proof. reflexivity. Qed.

Ltac bind_some :=
  cbn [mbind option_bind fmap option_fmap option_map mret option_ret].

Lemma seconds_to_srt_time_nonneg (x : spec_float) :
  nonneg x ->
  exists out, _seconds_to_srt_time (PyFloat x) = Some out /\ srt_time_shape out.
Proof.
  intros Hx.
  pose proof (pow2_pos 1074 ltac:(lia)) as Hp.
  destruct (floor_div_3600_int x Hx) as (q1 & hours & Hq1 & Hhours & Hh).
  assert (0 < ulps c3600) as Hpos by (rewrite ulps_c3600; lia).
  destruct (float_rem_spec x c3600 Hx nonneg_c3600 Hpos) as (y & Hy & Hyn & Hyu).
  rewrite ulps_c3600 in Hyu.
  pose proof (Z.mod_pos_bound (ulps x) (3600 * 2 ^ 1074) ltac:(lia)) as Hyb.
  destruct (floor_div_60_int y Hyn ltac:(lia)) as (q2 & minutes & Hq2 & Hminutes & Hm).
  destruct (rem_60_int x Hx) as (r3 & secs & Hr3 & Hsecs & Hs).
  destruct (rem_1_millis x Hx) as (r4 & ms & Hr4 & Hms & Hmsr).
  exists (srt_time hours minutes secs ms). split.
  - unfold _seconds_to_srt_time.
    rewrite (floordiv_float x 3600 c3600 of_int_3600), Hq1. bind_some.
    rewrite int_float, Hhours. bind_some.
    rewrite (mod_float x 3600 c3600 of_int_3600), Hy. bind_some.
    rewrite (floordiv_float y 60 c60 of_int_60), Hq2. bind_some.
    rewrite int_float, Hminutes. bind_some.
    rewrite (mod_float x 60 c60 of_int_60), Hr3. bind_some.
    rewrite int_float, Hsecs. bind_some.
    rewrite (mod_float x 1 F64.one of_int_1), Hr4. bind_some.
    rewrite (mul_float r4 1000 c1000 of_int_1000). bind_some.
    rewrite int_float, Hms. bind_some.
    rewrite (format_0d_2 hours) by lia.
    rewrite !format_0d_2_small by lia. rewrite format_0d_3 by lia. done.
  - by exists hours, minutes, secs, ms.
Qed.

End UlpFacts.

(** * Further properties *)

(** ** The generator under arbitrary answers of FFmpeg *)

Section GeneratorAnyAnswer.

Variable e : env.

(** Every iteration that stays in the loop runs FFmpeg once. *)
Lemma gen_iteration_calls s g o s' g' :
  gen_iteration e s g = (o, s', g') ->
  match o with
  | GenReturn => ffmpeg_calls g' = ffmpeg_calls g
  | GenContinue => ffmpeg_calls g' = S (ffmpeg_calls g)
  | GenYield _ => ffmpeg_calls (gen_resume s' g').2 = S (ffmpeg_calls g)
  end.
Proof.
  unfold gen_iteration. intros H.
  destruct ((current_position g <? total_duration s) && is_running s);
    [|by simplify_eq].
  destruct (is_interrupted s); [by simplify_eq|].
  destruct (ffmpeg e _ _ _) as [|rc data]; [by simplify_eq|].
  destruct (negb (rc =? 0)); [by simplify_eq|].
  destruct (0 <? length data)%nat; simpl in H; by simplify_eq.
Qed.

(** The chunk number grows by at most one per iteration and never
    decreases. *)
Lemma gen_iteration_number s g o s' g' :
  gen_iteration e s g = (o, s', g') ->
  match o with
  | GenReturn => chunk_number g' = chunk_number g
  | GenContinue => chunk_number g <= chunk_number g' <= chunk_number g + 1
  | GenYield c => chunk_number g' = chunk_number g /\ (0 < length (chunk_data c))%nat
  end.
Proof.
  unfold gen_iteration. intros H.
  destruct ((current_position g <? total_duration s) && is_running s);
    [|by simplify_eq].
  destruct (is_interrupted s); [by simplify_eq|].
  destruct (ffmpeg e _ _ _) as [|rc data]; [simplify_eq; simpl; lia|].
  destruct (negb (rc =? 0)); [simplify_eq; simpl; lia|].
  destruct (0 <? length data)%nat eqn:Hlen; simpl in H; simplify_eq; simpl.
  - split; [done|]. by apply Nat.ltb_lt.
  - lia.
Qed.

(** Left running, the generator runs FFmpeg exactly once per window:
    a window whose extraction fails is not tried again. *)
Lemma drain_calls fuel : forall s g,
  0 < step_size g ->
  is_running s = true -> is_interrupted s = false ->
  (window_count (total_duration s) (step_size g) (current_position g) < fuel)%nat ->
  exists s' g',
    (drain fuel e s g).2 = Some (s', g') /\
    ffmpeg_calls g'
      = (ffmpeg_calls g
         + window_count (total_duration s) (step_size g) (current_position g))%nat /\
    current_position g'
      = current_position g
        + Z.of_nat (window_count (total_duration s) (step_size g) (current_position g))
          * step_size g.
Proof.
  induction fuel as [|fuel IH]; intros s g Hstep Hrun Hint Hfuel; [lia|].
  rewrite drain_S.
  destruct (gen_iteration e s g) as [[o s'] g'] eqn:Hit.
  pose proof (gen_iteration_total_duration _ _ _ _ _ _ Hit) as HD.
  pose proof (gen_iteration_locals _ _ _ _ _ _ Hit) as [_ Hst].
  pose proof (gen_iteration_flags _ _ _ _ _ _ Hit) as [Hr Hi].
  pose proof (gen_iteration_advance _ _ _ _ _ _ Hit) as Hadv.
  pose proof (gen_iteration_calls _ _ _ _ _ Hit) as Hcalls.
  pose proof (gen_iteration_return e s g) as Hret. rewrite Hit in Hret. simpl in Hret.
  assert (o <> GenReturn -> current_position g < total_duration s) as Hpos.
  { intros Ho. destruct (Z.lt_ge_cases (current_position g) (total_duration s));
      [done|]. exfalso. apply Ho, Hret. by left. }
  destruct o as [| |c].
  - destruct Hadv as [-> ->].
    destruct (proj1 Hret eq_refl) as [?|[?|?]]; [|congruence..].
    rewrite window_count_done by done. exists s, g. simpl.
    split; [done|]. split; lia.
  - rewrite (window_count_step _ _ (current_position g)) in Hfuel |- * by auto.
    destruct (IH s' g') as (s2 & g2 & Hd & Hc & Hp); [lia|congruence..| |].
    { rewrite HD, Hst, Hadv. lia. }
    exists s2, g2. split; [done|].
    rewrite Hc, Hp, HD, Hst, Hadv, Hcalls. split; lia.
  - rewrite (window_count_step _ _ (current_position g)) in Hfuel |- * by auto.
    destruct (IH (gen_resume s' g').1 (gen_resume s' g').2) as (s2 & g2 & Hd & Hc & Hp).
    + by rewrite gen_resume_step_size, Hst.
    + by rewrite gen_resume_running, Hr.
    + by rewrite gen_resume_interrupted, Hi.
    + rewrite gen_resume_total_duration, gen_resume_step_size, HD, Hst, Hadv. lia.
    + rewrite gen_resume_total_duration, gen_resume_step_size, HD, Hst, Hadv in Hc, Hp.
      rewrite Hcalls in Hc.
      destruct (drain fuel e _ _) as [l r]. simpl in *.
      exists s2, g2. split; [done|]. rewrite Hc, Hp. split; lia.
Qed.

(** Every chunk of the sequence lies at or after the current position and
    carries a number at or after the current one; it starts a whole
    number of steps later, and its number has grown by no more than that
    number of steps. *)
Lemma drain_chunks fuel : forall s g,
  0 < step_size g ->
  forall (i : nat) c, (drain fuel e s g).1 !! i = Some c ->
    exists k : nat,
      chunk_start_time c = current_position g + Z.of_nat k * step_size g /\
      chunk_number g + Z.of_nat i <= chunk_chunk_number c <= chunk_number g + Z.of_nat k /\
      (i <= k)%nat /\
      chunk_start_time c < total_duration s /\
      chunk_duration_ c = Z.min (chunk_size g) (total_duration s - chunk_start_time c) /\
      (0 < length (chunk_data c))%nat.
Proof.
  induction fuel as [|fuel IH]; intros s g Hstep i c Hc; [by destruct i|].
  rewrite drain_S in Hc.
  destruct (gen_iteration e s g) as [[o s'] g'] eqn:Hit.
  pose proof (gen_iteration_total_duration _ _ _ _ _ _ Hit) as HD.
  pose proof (gen_iteration_locals _ _ _ _ _ _ Hit) as [Hcs Hst].
  pose proof (gen_iteration_advance _ _ _ _ _ _ Hit) as Hadv.
  pose proof (gen_iteration_number _ _ _ _ _ Hit) as Hnum.
  destruct o as [| |c0].
  - by destruct i.
  - destruct (IH s' g' ltac:(lia) i c Hc) as (k & H1 & H2 & H3 & H4 & H5 & H6).
    exists (S k). rewrite H1, H5, HD, Hst, Hcs, Hadv in *.
    repeat split; try done; lia.
  - pose proof (gen_iteration_yield _ _ _ _ _ _ Hit)
      as (-> & Hc1 & Hc2 & Hc3 & Hlt & Hp' & Hn' & _).
    destruct Hnum as [_ Hdata].
    specialize (IH (gen_resume s g').1 (gen_resume s g').2).
    rewrite gen_resume_total_duration, gen_resume_step_size, gen_resume_position,
      gen_resume_number, gen_resume_chunk_size, Hst, Hcs, Hp', Hn' in IH.
    destruct (drain fuel e _ _) as [l r]. simpl in *.
    destruct i as [|i]; simpl in Hc.
    + injection Hc as <-. exists O. rewrite Hc1, Hc2, Hc3.
      repeat split; try done; lia.
    + destruct (IH Hstep i c Hc) as (k & H1 & H2 & H3 & H4 & H5 & H6).
      exists (S k). rewrite H1, H5. repeat split; try done; lia.
Qed.

(** The chunks come in strictly increasing order of start offset and of
    chunk number. *)
Lemma drain_increasing fuel : forall s g,
  0 < step_size g ->
  forall (i j : nat) c c', (i < j)%nat ->
    (drain fuel e s g).1 !! i = Some c -> (drain fuel e s g).1 !! j = Some c' ->
    chunk_start_time c < chunk_start_time c' /\
    chunk_chunk_number c < chunk_chunk_number c'.
Proof.
  induction fuel as [|fuel IH]; intros s g Hstep i j c c' Hij Hc Hc';
    [by destruct i|].
  rewrite drain_S in Hc, Hc'.
  destruct (gen_iteration e s g) as [[o s'] g'] eqn:Hit.
  pose proof (gen_iteration_locals _ _ _ _ _ _ Hit) as [Hcs Hst].
  destruct o as [| |c0].
  - by destruct i.
  - apply (IH s' g' ltac:(lia) i j); done.
  - pose proof (gen_iteration_yield _ _ _ _ _ _ Hit)
      as (-> & Hc1 & Hc2 & Hc3 & Hlt & Hp' & Hn' & _).
    pose proof (drain_chunks fuel (gen_resume s g').1 (gen_resume s g').2) as Hlow.
    specialize (IH (gen_resume s g').1 (gen_resume s g').2).
    rewrite gen_resume_step_size, Hst in IH, Hlow.
    rewrite gen_resume_position, gen_resume_number, Hp', Hn', Hst in Hlow.
    destruct (drain fuel e _ _) as [l r]. simpl in *.
    destruct j as [|j]; [lia|]. simpl in Hc'.
    destruct i as [|i]; simpl in Hc.
    + injection Hc as <-.
      destruct (Hlow Hstep j c' Hc') as (k & H1 & H2 & _).
      rewrite Hc1, Hc3, H1. split; nia.
    + apply (IH Hstep i j); [lia|done..].
Qed.

(** A generator that is not running, is interrupted or has no audio left
    returns at once. *)
Lemma drain_idle fuel s g :
  is_running s = false \/ is_interrupted s = true
  \/ total_duration s <= current_position g ->
  drain (S fuel) e s g = ([], Some (s, g)).
Proof.
  intros H. rewrite drain_S.
  destruct (gen_iteration e s g) as [[o s'] g'] eqn:Hit.
  pose proof (gen_iteration_return e s g) as Hret. rewrite Hit in Hret.
  simpl in Hret.
  assert (o = GenReturn) as -> by (apply Hret; tauto).
  by apply gen_iteration_advance in Hit as [-> ->].
Qed.

(** When every extraction succeeds the progress offset ends one step past
    the start of the last window. *)
Lemma drain_processed fuel : forall s g,
  extraction_succeeds e ->
  0 < step_size g ->
  is_running s = true -> is_interrupted s = false ->
  current_position g < total_duration s ->
  (window_count (total_duration s) (step_size g) (current_position g) < fuel)%nat ->
  exists s' g',
    (drain fuel e s g).2 = Some (s', g') /\
    processed_duration s' = current_position g' /\
    current_position g'
      = current_position g
        + Z.of_nat (window_count (total_duration s) (step_size g) (current_position g))
          * step_size g.
Proof.
  induction fuel as [|fuel IH]; intros s g Hok Hstep Hrun Hint Hpos Hfuel; [lia|].
  rewrite drain_S.
  destruct (gen_iteration e s g) as [[o s'] g'] eqn:Hit.
  pose proof (gen_iteration_locals _ _ _ _ _ _ Hit) as [_ Hst].
  pose proof (gen_iteration_return e s g) as Hret. rewrite Hit in Hret. simpl in Hret.
  destruct o as [| |c].
  - destruct (proj1 Hret eq_refl) as [?|[?|?]]; [lia|congruence..].
  - exfalso. revert Hit. unfold gen_iteration.
    destruct ((current_position g <? total_duration s) && is_running s);
      [|congruence].
    destruct (is_interrupted s); [congruence|].
    destruct (Hok (ffmpeg_calls g) (current_position g)
                (Z.min (chunk_size g) (total_duration s - current_position g)))
      as (data & -> & Hdata).
    simpl. apply Nat.ltb_lt in Hdata. rewrite Hdata. congruence.
  - apply gen_iteration_yield in Hit as (-> & _ & _ & _ & _ & Hp' & _ & _).
    rewrite (window_count_step _ _ (current_position g)) in Hfuel |- * by auto.
    set (s1 := (gen_resume s g').1). set (g1 := (gen_resume s g').2).
    assert (current_position g1 = current_position g + step_size g) as Hp1
      by (subst g1; rewrite gen_resume_position, Hp', Hst; done).
    assert (step_size g1 = step_size g) as Hs1
      by (subst g1; rewrite gen_resume_step_size; done).
    assert (processed_duration s1 = current_position g1) as Hpd by done.
    assert (total_duration s1 = total_duration s) as HD1 by done.
    assert (is_running s1 = true) as Hr1 by done.
    assert (is_interrupted s1 = false) as Hi1 by done.
    clearbody s1 g1.
    destruct (Z.lt_ge_cases (current_position g1) (total_duration s)) as [Hlt|Hge].
    + destruct (IH s1 g1 Hok) as (s2 & g2 & Hd & Hpd2 & Hp2); try done.
      * by rewrite Hs1.
      * by rewrite HD1.
      * rewrite Hs1, Hp1, HD1. lia.
      * destruct (drain fuel e s1 g1) as [l r]. simpl in Hd |- *.
        exists s2, g2. split; [done|]. split; [done|].
        rewrite Hp2, Hs1, Hp1, HD1. lia.
    + destruct fuel as [|fuel]; [lia|].
      rewrite (drain_idle fuel s1 g1) by (right; right; lia). simpl.
      exists s1, g1. split; [done|]. split; [done|].
      rewrite Hp1, window_count_done by lia. lia.
Qed.

End GeneratorAnyAnswer.

Lemma window_count_overshoot D step :
  0 < step -> 0 < D -> Z.of_nat (window_count D step 0) * step < D + step.
Proof.
  intros Hs HD. unfold window_count.
  rewrite Z2Nat.id by (apply Z.div_pos; lia).
  pose proof (Z.mul_div_le (D - 0 + step - 1) step Hs). lia.
Qed.

(** ** Strings *)

Lemma length_append (a b : string) :
  String.length (a +:+ b) = (String.length a + String.length b)%nat.
Proof. induction a as [|x a IH]; [done|]. rewrite append_cons. simpl. by rewrite IH. Qed.

Lemma length_zero (a : string) : String.length a = O -> a = "".
Proof. by destruct a. Qed.

(** Two strings that are equal have the same ending of any given
    length. *)
Lemma append_same_ending (a : string) : forall b x y,
  a +:+ x = b +:+ y -> String.length x = String.length y -> x = y.
Proof.
  induction a as [|c a IH]; intros b x y Heq Hlen.
  - change ("" +:+ x) with x in Heq. subst x.
    rewrite length_append in Hlen.
    assert (b = "") as -> by (apply length_zero; lia). done.
  - destruct b as [|c' b].
    + change ("" +:+ y) with y in Heq. subst y.
      rewrite length_append in Hlen. simpl in Hlen. lia.
    + rewrite !append_cons in Heq. injection Heq as _ Heq. by apply (IH b).
Qed.

Lemma take_length (n : nat) : forall s,
  String.length (Py.take n s) = Nat.min n (String.length s).
Proof.
  induction n as [|n IH]; intros [|a s]; simpl; try done. by rewrite IH.
Qed.

(** *** [strip] leaves no white space at either end *)

Lemma lstrip_head (s : string) a r :
  Py.lstrip s = String a r -> Py.isspace a = false.
Proof.
  induction s as [|b s IH]; simpl; [done|].
  destruct (Py.isspace b) eqn:Hb; [done|]. by intros [= <- _].
Qed.

Lemma rstrip_head a (s : string) :
  Py.isspace a = false -> exists r, Py.rstrip (String a s) = String a r.
Proof.
  intros Ha. simpl. destruct (Py.rstrip s); [rewrite Ha|]; by eexists.
Qed.

Lemma rstrip_last (s : string) : forall pre a,
  Py.rstrip s = pre +:+ String a "" -> Py.isspace a = false.
Proof.
  induction s as [|b s IH]; intros pre a; simpl.
  - by destruct pre.
  - destruct (Py.rstrip s) as [|c r] eqn:Hr.
    + destruct (Py.isspace b) eqn:Hb; [by destruct pre|].
      destruct pre as [|x pre]; [by intros [= <-]|].
      rewrite append_cons. intros [= _ H]. by destruct pre.
    + destruct pre as [|x pre]; [done|].
      rewrite append_cons. intros [= _ H]. by apply (IH pre).
Qed.

Lemma strip_head (s : string) a r :
  Py.strip s = String a r -> Py.isspace a = false.
Proof.
  unfold Py.strip. destruct (Py.lstrip s) as [|b t] eqn:Hl; [done|].
  pose proof (lstrip_head _ _ _ Hl) as Hb.
  destruct (rstrip_head b t Hb) as [r' ->]. by intros [= <- _].
Qed.

Lemma strip_last (s : string) pre a :
  Py.strip s = pre +:+ String a "" -> Py.isspace a = false.
Proof. apply rstrip_last. Qed.

(** *** The first format with audio *)

Lemma find_audio_url_first (pre : list format_info) f post :
  Forall (fun g => fmt_acodec g = Some "none") pre ->
  fmt_acodec f <> Some "none" ->
  find_audio_url (pre ++ f :: post) = fmt_url f.
Proof.
  induction 1 as [|g pre Hg _ IH]; intros Hf; simpl.
  - by destruct (decide _).
  - destruct (decide _); [by apply IH|done].
Qed.

Lemma find_audio_url_none (l : list format_info) :
  Forall (fun g => fmt_acodec g = Some "none") l -> find_audio_url l = None.
Proof. induction 1 as [|g l Hg _ IH]; simpl; [done|]. by destruct (decide _). Qed.

(** ** The files of a run *)

Lemma replace_from_shorter (old : string) (s : string) : forall skip,
  (String.length (Py.replace_from old "" skip s) <= String.length s)%nat.
Proof.
  induction s as [|a s IH]; intros skip; [done|].
  cbn [Py.replace_from String.length].
  destruct skip as [|k].
  - destruct (String.prefix old (String a s)).
    + change ("" +:+ ?x) with x. specialize (IH (String.length old - 1)%nat). lia.
    + cbn [String.length]. specialize (IH O). lia.
  - specialize (IH k). lia.
Qed.

Lemma path_join_txt (a n : string) :
  exists pre, Py.path_join a (n +:+ ".txt") = pre +:+ ".txt".
Proof.
  unfold Py.path_join. repeat case_match.
  - by exists n.
  - by exists n.
  - exists (a +:+ n). by rewrite append_assoc.
  - exists (a +:+ "/" +:+ n). by rewrite !append_assoc.
Qed.

Lemma txt_not_empty (pre : string) : pre +:+ ".txt" <> "".
Proof. by destruct pre. Qed.

(** The four paths of a run are different from one another. *)
Lemma output_paths_ne (pre : string) :
  let p := pre +:+ ".txt" in
  p <> resume_path p /\ p <> json_path p /\ p <> srt_path p /\
  resume_path p <> json_path p /\ resume_path p <> srt_path p /\
  json_path p <> srt_path p.
Proof.
  intros p.
  pose proof (replace_from_shorter ".txt" p O) as Hshort.
  fold (Py.replace ".txt" "" p) in Hshort.
  assert (p <> resume_path p) as H1.
  { intros H. apply (f_equal String.length) in H.
    unfold resume_path in H. rewrite length_append in H. simpl in H. lia. }
  assert (p <> json_path p) as H2.
  { unfold json_path, p. intros H.
    change ".json" with ("." +:+ "json") in H. rewrite <- append_assoc in H.
    by apply append_same_ending in H. }
  assert (p <> srt_path p) as H3.
  { unfold srt_path, p. intros H. by apply append_same_ending in H. }
  assert (resume_path p <> json_path p) as H4.
  { intros H. apply (f_equal String.length) in H.
    unfold resume_path, json_path in H. rewrite !length_append in H.
    simpl in H. lia. }
  assert (resume_path p <> srt_path p) as H5.
  { intros H. apply (f_equal String.length) in H.
    unfold resume_path, srt_path in H. rewrite !length_append in H.
    simpl in H. lia. }
  assert (json_path p <> srt_path p) as H6.
  { unfold json_path, srt_path. intros H. by apply String.app_inj in H. }
  done.
Qed.

Lemma model_size_close_progress_bar s :
  model_size (close_progress_bar s) = model_size s.
Proof. unfold close_progress_bar. by destruct (progress_bar s). Qed.

Lemma model_size_close_if_true s :
  model_size (close_if_true s) = model_size s.
Proof.
  unfold close_if_true. destruct (bar_is_true s); [|done].
  apply model_size_close_progress_bar.
Qed.

(** The truth value of the bar only depends on the bar and on the three
    fields its total is computed from. *)
Lemma bar_is_true_same s s' :
  progress_bar s' = progress_bar s -> total_duration s' = total_duration s ->
  chunk_duration s' = chunk_duration s ->
  overlap_duration s' = overlap_duration s ->
  bar_is_true s' = bar_is_true s.
Proof. unfold bar_is_true, total_chunks. by intros -> -> -> ->. Qed.

(** Closing the bar when it is true leaves it closed, or the bar was not
    true. *)
Lemma progress_bar_close_if_true s :
  progress_bar (close_if_true s) = Some true -> bar_is_true s = false.
Proof.
  unfold close_if_true. destruct (bar_is_true s) eqn:Hb; [|done].
  unfold close_progress_bar, bar_is_true in *.
  by destruct (progress_bar s).
Qed.

(** The [finally] clause of [run] stops the object and closes the bar
    when the bar counts as true; it leaves the other fields alone. *)
Lemma finally_clause_fields s :
  transcripts (finally_clause s) = transcripts s /\
  output_file (finally_clause s) = output_file s /\
  model_size (finally_clause s) = model_size s /\
  chunk_duration (finally_clause s) = chunk_duration s /\
  overlap_duration (finally_clause s) = overlap_duration s /\
  is_interrupted (finally_clause s) = is_interrupted s /\
  processed_duration (finally_clause s) = processed_duration s /\
  total_duration (finally_clause s) = total_duration s /\
  is_running (finally_clause s) = false /\
  (progress_bar (finally_clause s) = Some true ->
   bar_is_true (finally_clause s) = false).
Proof.
  unfold finally_clause.
  destruct (close_if_true_fields (set_running false s))
    as (-> & -> & -> & -> & -> & -> & -> & ->).
  rewrite model_size_close_if_true.
  repeat split; try done.
  intros H. pose proof (progress_bar_close_if_true _ H) as Hb.
  unfold close_if_true in *. by rewrite Hb in *.
Qed.

Lemma json_data_fields v s s' now :
  model_size s' = model_size s -> chunk_duration s' = chunk_duration s ->
  overlap_duration s' = overlap_duration s -> transcripts s' = transcripts s ->
  json_data v s' now = json_data v s now.
Proof. unfold json_data. by intros -> -> -> ->. Qed.

Lemma text_file_snoc old trs t :
  Some (default [] (text_file old trs) ++ [live_line t])%list
  = text_file old (trs ++ [t]).
Proof.
  unfold text_file. destruct trs as [|t0 trs]; [done|].
  cbn [app default]. rewrite !fmap_cons, fmap_app. unfold id.
  by rewrite <- app_assoc.
Qed.

Section Files.

Variable e : env.
Variable f0 : files.

(** A step that writes neither a file nor the transcripts nor the output
    path keeps the invariant. *)
Lemma files_invariant_quiet c c' :
  files_invariant f0 c ->
  transcripts (self c') = transcripts (self c) ->
  output_file (self c') = output_file (self c) ->
  model_size (self c') = model_size (self c) ->
  chunk_duration (self c') = chunk_duration (self c) ->
  overlap_duration (self c') = overlap_duration (self c) ->
  (is_interrupted (self c') = false -> is_interrupted (self c) = false) ->
  fs c' = fs c ->
  (finished (at_ c) = true -> video c' = video c) ->
  (before_output (at_ c') = true -> before_output (at_ c) = true) ->
  (before_loop (at_ c') = true -> before_loop (at_ c) = true) ->
  (has_video (at_ c') = true -> is_Some (video c')) ->
  (finished (at_ c') = true ->
   finished (at_ c) = true \/ transcripts (self c) = []
   \/ is_interrupted (self c') = true) ->
  (forall extra, mid_save c extra -> mid_save c' extra) ->
  files_invariant f0 c'.
Proof.
  intros (Hbo & Hbl & Hv & Hnone & extra & Hmid & Hex & Hnil & Hp)
    Htr Hout Hms Hcd Hod Hint Hfs Hvid Hbo' Hbl' Hv' Hfin Hmid'.
  unfold files_invariant. rewrite Htr, Hout, Hfs.
  split; [auto|]. split; [auto|]. split; [auto|]. split; [auto|].
  exists extra. split; [auto|]. split; [done|]. split; [done|].
  intros p Hop. destruct (Hp p Hop) as (Hpre & Htxt & Hother & Hres & Hsaved).
  split; [done|]. split; [done|]. split; [done|]. split; [auto|].
  intros Hf Hi Hne. destruct (Hfin Hf) as [Hf'|[?|?]]; [|done|congruence].
  destruct (Hsaved Hf' (Hint Hi) Hne) as (v & now & H1 & H2 & H3).
  exists v, now. rewrite Htr, Hfs, (Hvid Hf'). split; [done|]. split; [done|].
  by rewrite H3, (json_data_fields v (self c) (self c') now).
Qed.

Ltac in_paths :=
  unfold output_paths;
  repeat first [apply list_elem_of_here | apply list_elem_of_further].

Ltac quiet Hinv Hv Hbl :=
  eapply files_invariant_quiet;
  [exact Hinv
  |unfold mid_save; cbn; try done; try (intros _; by apply Hv);
   try (intros _; right; left; by apply Hbl);
   try (intros ? ->; by left)..].

Lemma step_files_invariant c ev :
  files_invariant f0 c -> files_invariant f0 (step e ev c).
Proof.
  intros Hinv.
  destruct (exit_status_of c) as [st|] eqn:Hst.
  { unfold exit_status_of in Hst. destruct (at_ c) eqn:Hat; try done.
    by rewrite (step_exited e c ev _ Hat). }
  destruct ev.
  2:{ rewrite (step_signal_eq e c Hst).
      unfold _signal_handler, _save_partial_results. cbn [fst snd].
      set (s1 := close_if_true (set_running false (set_interrupted true (self c)))).
      pose proof (close_if_true_fields
                    (set_running false (set_interrupted true (self c))))
        as (Htr1 & Hout1 & Hpd1 & Htd1 & Hcd1 & Hod1 & _ & Hi1).
      pose proof (model_size_close_if_true
                    (set_running false (set_interrupted true (self c)))) as Hms1.
      fold s1 in Htr1, Hout1, Hpd1, Htd1, Hcd1, Hod1, Hi1, Hms1.
      cbn in Htr1, Hout1, Hpd1, Htd1, Hcd1, Hod1, Hi1, Hms1.
      pose proof (finally_clause_fields s1)
        as (Htr2 & Hout2 & Hms2 & Hcd2 & Hod2 & Hi2 & _).
      assert (forall extra, mid_save c extra ->
                extra = [] \/
                exists t, extra = [t] /\ is_interrupted (finally_clause s1) = true)
        as Hmid'.
      { intros extra. unfold mid_save. unfold exit_status_of in Hst.
        rewrite Hi2, Hi1.
        destruct (at_ c); try done; try (by left). intros ->. right. by eexists. }
      destruct (transcripts s1) as [|t0 trs0] eqn:Htrs.
      - eapply files_invariant_quiet; [exact Hinv|unfold goto_fs; cbn..];
          try congruence; try done.
        intros _. right. right. congruence.
      - destruct Hinv as (Hbo & Hbl & Hv & Hnone & extra & Hmid & Hex & Hnil & Hp).
        destruct (output_file (self c)) as [p|] eqn:Hop;
          [|rewrite Hnone in Htr1 by done; congruence].
        destruct (Hp p eq_refl) as (Hpre & Htxt & Hother & Hres & Hsaved).
        destruct Hpre as [pre ->].
        destruct (output_paths_ne pre) as (Hn1 & _).
        unfold files_invariant, goto_fs.
        cbn [at_ self fs args video gen whisper_calls clock before_output
             before_loop has_video finished].
        rewrite Htr2, Hout2, Hout1, Hi2, Hi1, Htr1.
        split; [done|]. split; [done|]. split; [done|]. split; [done|].
        exists extra. split; [unfold mid_save; cbn [at_ self]; by apply Hmid'|].
        split; [done|].
        split; [intros H; apply app_eq_nil in H as [H _]; rewrite H in Htr1;
                congruence|].
        intros p' [= <-].
        unfold write_file, resume_file. rewrite Hout1. cbn [Py.str_of_opt].
        fold (resume_path (pre +:+ ".txt")).
        split; [by eexists|]. split; [by rewrite lookup_insert_ne|].
        split; [|done].
        intros path Hpath. rewrite lookup_insert_ne; [by apply Hother|].
        intros <-. apply Hpath. in_paths. }
  destruct c as [p s f a v g w k]. unfold step, step_tick.
  pose proof Hinv as (Hbo & Hbl & Hv & Hnone & extra & Hmid & Hex & Hnil & Hp).
  unfold mid_save in Hmid.
  cbn [at_ self fs args video gen whisper_calls clock] in *.
  destruct p; cbn [at_ self fs args video gen whisper_calls clock].
  - destruct (makedirs_ok e); quiet Hinv Hv Hbl.
  - destruct (load_model_ok e); quiet Hinv Hv Hbl.
  - unfold extract_youtube_info.
    destruct (extract_info e (arg_url a)) as [info|]; cbn; quiet Hinv Hv Hbl.
  - destruct v as [v|]; [destruct (negb (Py.timedelta_ok (vi_duration v)));
       [|destruct (negb (Py.truthy (vi_audio_url v)))]|];
      quiet Hinv Hv Hbl.
  - destruct v as [v|]; [|quiet Hinv Hv Hbl].
    unfold files_invariant, goto.
    cbn [at_ self fs args video gen whisper_calls clock before_output
         before_loop has_video finished output_file transcripts set_output_file
         is_interrupted].
    specialize (Hbo eq_refl). specialize (Hbl eq_refl). subst extra.
    rewrite Hbl in Hnil. specialize (Hnil eq_refl).
    split; [done|]. split; [done|]. split; [by eexists|]. split; [done|].
    exists []. split; [done|]. split; [done|]. split; [done|].
    intros p' [= <-].
    rewrite Hbl, Hnil. cbn [text_file app].
    split; [|done].
    rewrite <- !append_assoc. apply path_join_txt.
  - destruct (total_chunks s); quiet Hinv Hv Hbl.
  - quiet Hinv Hv Hbl.
  - destruct (gen_iteration e s g) as [[o s'] g'] eqn:Hit.
    assert (transcripts s' = transcripts s /\ output_file s' = output_file s /\
            model_size s' = model_size s /\ chunk_duration s' = chunk_duration s /\
            overlap_duration s' = overlap_duration s /\
            is_interrupted s' = is_interrupted s) as (H1 & H2 & H3 & H4 & H5 & H6).
    { by destruct (gen_iteration_self _ _ _ _ _ _ Hit) as [->|[d ->]]. }
    destruct o as [| |ch]; quiet Hinv Hv Hbl; try congruence.
  - destruct (negb (is_running s) || is_interrupted s); quiet Hinv Hv Hbl.
  - destruct t as [t|]; [|quiet Hinv Hv Hbl].
    destruct (Py.truthy (output_file s)) eqn:Htruthy; cbn [negb]; [|quiet Hinv Hv Hbl].
    destruct (output_file s) as [p|] eqn:Hop; [|done].
    destruct (Hp p eq_refl) as (Hpre & Htxt & Hother & Hres & Hsaved).
    subst extra. rewrite app_nil_r in Htxt.
    unfold files_invariant, goto_fs, write_transcript_line.
    cbn [at_ self fs args video gen whisper_calls clock before_output
         before_loop has_video finished output_file transcripts
         is_interrupted Py.str_of_opt].
    rewrite Hop.
    split; [done|]. split; [done|]. split; [done|]. split; [done|].
    exists [t]. split; [done|]. split; [done|].
    split; [intros H; by apply app_eq_nil in H as [_ H]|].
    intros p' [= <-].
    unfold append_file. cbn [Py.str_of_opt].
    split; [done|]. split; [|split; [|split; [|done]]].
    + rewrite lookup_insert_eq, Htxt. apply text_file_snoc.
    + intros path Hpath. rewrite lookup_insert_ne; [by apply Hother|].
      intros <-. apply Hpath. in_paths.
    + intros Hi. destruct Hpre as [pre ->].
      destruct (output_paths_ne pre) as (Hn1 & _).
      rewrite lookup_insert_ne by done. by apply Hres.
  - subst extra.
    destruct (output_file s) as [p|] eqn:Hop; [|by specialize (Hex eq_refl)].
    destruct (Hp p eq_refl) as (Hpre & Htxt & Hother & Hres & Hsaved).
    unfold files_invariant, goto, append_transcript.
    cbn [at_ self fs args video gen whisper_calls clock before_output
         before_loop has_video finished output_file transcripts set_transcripts
         is_interrupted].
    rewrite Hop.
    split; [done|]. split; [done|]. split; [done|]. split; [done|].
    exists []. rewrite app_nil_r. split; [done|]. split; [done|].
    split; [intros H; by apply app_eq_nil in H as [_ H]|].
    intros p' [= <-]. done.
  - quiet Hinv Hv Hbl.
  - subst extra. rewrite app_nil_r in Hnil.
    pose proof (close_progress_bar_fields s)
      as (Htr1 & Hout1 & _ & _ & Hcd1 & Hod1 & _ & Hi1).
    pose proof (model_size_close_progress_bar s) as Hms1.
    set (s1 := close_progress_bar s) in *.
    destruct (is_interrupted s1) eqn:Hint1; cbn [negb].
    { quiet Hinv Hv Hbl; try congruence. intros _. right. right. done. }
    destruct v as [v|]; [|by destruct (Hv eq_refl)].
    unfold save_final_results.
    destruct (transcripts s1) as [|t0 trs0] eqn:Htrs.
    { quiet Hinv Hv Hbl; try congruence. intros _. right. left. congruence. }
    destruct (output_file s) as [p|] eqn:Hop;
      [|rewrite Hnone in Htr1 by done; congruence].
    rewrite Hout1. rewrite <- Htrs in Htr1 |- *. rewrite srt_document_records.
    destruct (Hp p eq_refl) as (Hpre & Htxt & Hother & Hres & Hsaved).
    rewrite app_nil_r in Htxt.
    destruct Hpre as [pre ->].
    destruct (output_paths_ne pre) as (Hn1 & Hn2 & Hn3 & Hn4 & Hn5 & Hn6).
    fold (json_path (pre +:+ ".txt")) (srt_path (pre +:+ ".txt")) in *.
    unfold files_invariant, goto_fs, write_file.
    cbn [at_ self fs args video gen whisper_calls clock before_output
         before_loop has_video finished fst].
    rewrite Hout1, Hint1, Htr1.
    split; [done|]. split; [done|]. split; [done|]. split; [done|].
    exists []. rewrite app_nil_r. split; [done|]. split; [done|].
    split; [intros H; rewrite H in Htr1; congruence|].
    intros p' [= <-].
    split; [by eexists|]. split; [|split; [|split]].
    + by rewrite !lookup_insert_ne.
    + intros path Hpath. rewrite !lookup_insert_ne; [by apply Hother|..];
        intros <-; apply Hpath; in_paths.
    + intros _. rewrite !lookup_insert_ne by done. by apply Hres.
    + intros _ _ _. eexists v, _. cbn [video fs self].
      split; [done|]. rewrite Htr1. split; [apply lookup_insert_eq|].
      rewrite lookup_insert_ne by done. rewrite lookup_insert_eq. done.
  - pose proof (finally_clause_fields s)
      as (Htr1 & Hout1 & Hms1 & Hcd1 & Hod1 & Hi1 & _).
    quiet Hinv Hv Hbl; try (intros; congruence). intros _. by left.
  - done.
Qed.

Lemma exec_files_invariant evs : forall c,
  files_invariant f0 c -> files_invariant f0 (exec e evs c).
Proof.
  induction evs as [|ev evs IH]; intros c Hc; [done|].
  simpl. by apply IH, step_files_invariant.
Qed.

End Files.

Lemma start_run_files_invariant a f : files_invariant f (start_run a f).
Proof.
  unfold files_invariant. cbn. split; [done|]. split; [done|]. split; [done|].
  split; [done|]. exists []. by repeat split.
Qed.

(** ** The counters of a run *)

Section Calls.

Variable e : env.

Lemma step_calls_invariant c ev :
  calls_invariant c -> calls_invariant (step e ev c).
Proof.
  intros Hinv.
  destruct (exit_status_of c) as [st|] eqn:Hst.
  { unfold exit_status_of in Hst. destruct (at_ c) eqn:Hat; try done.
    by rewrite (step_exited e c ev _ Hat). }
  destruct ev.
  2:{ rewrite (step_signal_eq e c Hst).
      destruct Hinv as (Hpre & Hw & Hf).
      pose proof (finally_clause_fields
                    (_signal_handler (now_isoformat e (clock c)) (self c) (fs c)).1)
        as (Htr & _).
      unfold _signal_handler in Htr. cbn [fst] in Htr.
      rewrite transcripts_close_if_true in Htr. cbn in Htr.
      unfold calls_invariant, goto_fs.
      cbn [at_ self fs args video gen whisper_calls clock before_loop].
      unfold _signal_handler. cbn [fst]. rewrite Htr.
      split; [done|]. split; [destruct (at_ c) as [| | | | | | | | |[?|]| | | | |]; lia|].
      intros _. destruct (before_loop (at_ c)) eqn:Hb.
      - destruct (Hpre eq_refl) as [-> _]. lia.
      - specialize (Hf eq_refl). destruct (at_ c); lia. }
  destruct c as [p s f a v g w k]. unfold step, step_tick.
  destruct Hinv as (Hpre & Hw & Hf).
  unfold calls_invariant.
  cbn [at_ self fs args video gen whisper_calls clock] in *.
  destruct p; cbn [at_ self fs args video gen whisper_calls clock before_loop] in *.
  - destruct (Hpre eq_refl) as [-> Hn].
    destruct (makedirs_ok e); cbn; (split; [done|]); split; lia.
  - destruct (Hpre eq_refl) as [-> Hn].
    destruct (load_model_ok e); cbn; (split; [done|]); split; lia.
  - destruct (Hpre eq_refl) as [-> Hn]. unfold extract_youtube_info.
    destruct (extract_info e (arg_url a)); cbn; (split; [done|]); split; lia.
  - destruct (Hpre eq_refl) as [-> Hn].
    destruct v as [v|]; [destruct (negb (Py.timedelta_ok (vi_duration v)));
       [|destruct (negb (Py.truthy (vi_audio_url v)))]|];
      cbn; (split; [done|]); split; lia.
  - destruct (Hpre eq_refl) as [-> Hn].
    destruct v as [v|]; cbn; (split; [done|]); split; lia.
  - destruct (Hpre eq_refl) as [-> Hn].
    destruct (total_chunks s); cbn; (split; [done|]); split; lia.
  - destruct (Hpre eq_refl) as [-> Hn]. cbn. split; [done|]. split; lia.
  - specialize (Hf eq_refl).
    destruct (gen_iteration e s g) as [[o s'] g'] eqn:Hit.
    assert (transcripts s' = transcripts s) as Htr
      by (by destruct (gen_iteration_self _ _ _ _ _ _ Hit) as [->|[d ->]]).
    pose proof (gen_iteration_calls _ _ _ _ _ _ Hit) as Hcalls.
    destruct o as [| |ch]; cbn; rewrite Htr; (split; [done|]); split; try lia.
    apply gen_iteration_yield in Hit as (_ & _ & _ & _ & _ & _ & _ & ->). lia.
  - specialize (Hf eq_refl).
    destruct (negb (is_running s) || is_interrupted s); cbn;
      (split; [done|]); split; try lia.
    destruct (transcribe_audio_chunk _ _ _); lia.
  - specialize (Hf eq_refl). destruct t as [t|]; cbn.
    + destruct (negb (Py.truthy (output_file s))); cbn;
        (split; [done|]); split; lia.
    + split; [done|]. split; lia.
  - specialize (Hf eq_refl). cbn. rewrite length_app. cbn.
    split; [done|]. split; lia.
  - specialize (Hf eq_refl). cbn. split; [done|]. split; lia.
  - specialize (Hf eq_refl).
    rewrite <- (transcripts_close_progress_bar s) in Hw.
    destruct (negb (is_interrupted (close_progress_bar s))); [destruct v|];
      cbn; (split; [done|]); split; lia.
  - specialize (Hf eq_refl).
    rewrite <- (transcripts_finally_clause s) in Hw.
    cbn. split; [done|]. split; lia.
  - done.
Qed.

Lemma exec_calls_invariant evs : forall c,
  calls_invariant c -> calls_invariant (exec e evs c).
Proof.
  induction evs as [|ev evs IH]; intros c Hc; [done|].
  simpl. by apply IH, step_calls_invariant.
Qed.

(** *** Leaving the process *)


(** Only a signal sets [is_interrupted]. *)
Lemma step_tick_interrupted c :
  is_interrupted (self (step e Tick c)) = is_interrupted (self c).
Proof.
  destruct c as [p s f a v g w k]. unfold step, step_tick.
  cbn [at_ self fs args video gen whisper_calls clock].
  destruct p; cbn [at_ self fs args video gen whisper_calls clock]; try done.
  - by destruct (makedirs_ok e).
  - by destruct (load_model_ok e).
  - unfold extract_youtube_info. by destruct (extract_info e (arg_url a)).
  - destruct v as [v|]; [destruct (negb (Py.timedelta_ok (vi_duration v)));
       [|destruct (negb (Py.truthy (vi_audio_url v)))]|]; done.
  - by destruct v.
  - by destruct (total_chunks s).
  - destruct (gen_iteration e s g) as [[o s'] g'] eqn:Hit.
    apply gen_iteration_flags in Hit as [_ Hi]. by destruct o.
  - by destruct (negb (is_running s) || is_interrupted s).
  - destruct t as [t|]; [|done].
    by destruct (negb (Py.truthy (output_file s))).
  - pose proof (close_progress_bar_fields s) as (_ & _ & _ & _ & _ & _ & _ & Hi).
    destruct (negb (is_interrupted (close_progress_bar s))); [destruct v|]; done.
  - cbn. apply finally_clause_fields.
Qed.

Lemma exec_ticks_interrupted n : forall c,
  is_interrupted (self (exec e (replicate n Tick) c)) = is_interrupted (self c).
Proof.
  induction n as [|n IH]; intros c; [done|].
  cbn [replicate]. simpl. by rewrite IH, step_tick_interrupted.
Qed.

End Calls.

Lemma start_run_calls_invariant a f : calls_invariant (start_run a f).
Proof. unfold calls_invariant. cbn. repeat split; lia. Qed.

(** ** Characters of the output file name *)

Lemma in_take (n : nat) : forall s a,
  In a (list_ascii_of_string (Py.take n s)) -> In a (list_ascii_of_string s).
Proof.
  induction n as [|n IH]; intros [|b s] a; simpl; try done.
  intros [?|?]; [by left|right; by apply IH].
Qed.

Lemma in_lstrip (s : string) a :
  In a (list_ascii_of_string (Py.lstrip s)) -> In a (list_ascii_of_string s).
Proof.
  induction s as [|b s IH]; simpl; [done|].
  destruct (Py.isspace b); [auto|done].
Qed.

Lemma in_rstrip (s : string) a :
  In a (list_ascii_of_string (Py.rstrip s)) -> In a (list_ascii_of_string s).
Proof.
  induction s as [|b s IH]; simpl; [done|].
  destruct (Py.rstrip s) as [|c r].
  - destruct (Py.isspace b); simpl; [done|]. intros [?|[]]. by left.
  - simpl. intros [?|?]; [by left|right; by apply IH].
Qed.

Lemma in_filter_chars (p : ascii -> bool) (s : string) a :
  In a (list_ascii_of_string (Py.filter_chars p s)) -> p a = true.
Proof.
  induction s as [|b s IH]; simpl; [done|].
  destruct (p b) eqn:Hb; [|done]. simpl. intros [<-|?]; [done|by apply IH].
Qed.

Lemma take_head (n : nat) (s : string) a r :
  Py.take n s = String a r -> exists r', s = String a r'.
Proof. destruct n, s; simpl; try done. intros [= <- _]. by eexists. Qed.

(** ** The fields of the time stamp of a float offset *)

Module StampFields.

Import Ulp UlpFacts.

(** Exact quotients: dividing [k * c] by the whole number [c], given by
    its normal mantissa and exponent, gives [k] when [k * c] is below
    [2^53]. *)
Lemma div_exact (d : spec_float) (mw : positive) (ew c k : Z) :
  digits (Z.pos mw) = 53 -> -52 <= ew <= 0 -> Z.pos mw = c * 2 ^ (- ew) ->
  nonneg d -> 0 < k -> c * k < 2 ^ 53 ->
  ulps d = k * (c * 2 ^ 1074) ->
  nonneg (F64.div d (S754_finite false mw ew)) /\
  ulps (F64.div d (S754_finite false mw ew)) = k * 2 ^ 1074.
Proof.
  intros Hdw Hew Hmw Hd Hk Hck Hu.
  pose proof (pow2_pos 1074 ltac:(lia)) as Hp1074.
  pose proof (pow2_pos (- ew) ltac:(lia)) as Hpew.
  assert (0 < c) as Hc by nia.
  destruct d as [sd| | |sd m1 e1]; try done; [simpl in Hu; nia|].
  destruct Hd as (-> & Hm1 & He1).
  unfold ulps in Hu. unfold emin in *.
  replace (e1 - -1074) with (e1 + 1074) in Hu by lia.
  set (D := digits (c * k)).
  set (d1 := digits (Z.pos m1)).
  set (dk := digits k).
  set (dc := digits c).
  pose proof (digits_pos (Z.pos m1) ltac:(lia)) as Hd1p. fold d1 in Hd1p.
  pose proof (digits_le (Z.pos m1) 53 ltac:(lia) ltac:(lia) Hm1) as Hd153.
  fold d1 in Hd153.
  pose proof (digits_pos (c * k) ltac:(nia)) as HDp. fold D in HDp.
  pose proof (digits_le (c * k) 53 ltac:(nia) ltac:(lia) Hck) as HD53. fold D in HD53.
  pose proof (digits_bounds k ltac:(lia)) as [Hklo Hkhi]. fold dk in Hklo, Hkhi.
  pose proof (digits_pos k ltac:(lia)) as Hdkp. fold dk in Hdkp.
  pose proof (digits_bounds c ltac:(lia)) as [Hclo Hchi]. fold dc in Hclo, Hchi.
  pose proof (digits_pos c ltac:(lia)) as Hdcp. fold dc in Hdcp.
  assert (dc = 53 + ew) as Hdc.
  { pose proof (digits_mul_pow2 c (- ew) ltac:(lia) ltac:(lia)) as H.
    rewrite <- Hmw, Hdw in H. fold dc in H. lia. }
  assert (d1 + e1 = D) as HD.
  { assert (digits (Z.pos m1 * 2 ^ (e1 + 1074)) = d1 + (e1 + 1074)) as H1
      by (apply digits_mul_pow2; lia).
    assert (digits (c * k * 2 ^ 1074) = D + 1074) as H2
      by (apply digits_mul_pow2; [nia|lia]).
    rewrite Hu in H1.
    replace (k * (c * 2 ^ 1074)) with (c * k * 2 ^ 1074) in H1 by ring. lia. }
  assert (D <= dk + dc) as HDk.
  { subst D. apply digits_le; [nia|lia|]. rewrite Z.pow_add_r by lia.
    rewrite (Z.mul_comm c k). apply Z.mul_lt_mono_nonneg; lia. }
  assert (dk <= 53) as Hdk53.
  { subst dk. apply digits_le; [lia|lia|]. nia. }
  unfold F64.div, SFdiv, SFdiv_core_binary.
  change (SpecFloat.fexp F64.prec F64.emax) with fexp.
  change (Zdigits2 (Z.pos m1)) with d1.
  change (Zdigits2 (Z.pos mw)) with (digits (Z.pos mw)). rewrite Hdw.
  assert (Z.min (fexp (d1 + e1 - (53 + ew))) (e1 - ew) = D - 106 - ew) as ->.
  { rewrite fexp_eq. unfold emin. lia. }
  assert (e1 - ew - (D - 106 - ew) = 106 - d1) as -> by lia.
  destruct (106 - d1) as [|p|p] eqn:Hs; [lia| |lia]. rewrite <- Hs. clear p Hs.
  rewrite Z.shiftl_mul_pow2 by lia.
  rewrite div_eucl_div_mod. cbv beta iota zeta.
  change (xorb false false) with false.
  assert (Z.pos m1 * 2 ^ (106 - d1) = k * 2 ^ (106 + ew - D) * Z.pos mw) as Hm'.
  { apply (Z.mul_reg_r _ _ (2 ^ (e1 + 1074))); [apply Z.pow_nonzero; lia|].
    replace (Z.pos m1 * 2 ^ (106 - d1) * 2 ^ (e1 + 1074))
      with (Z.pos m1 * 2 ^ (e1 + 1074) * 2 ^ (106 - d1)) by ring.
    rewrite Hu, Hmw.
    replace (k * 2 ^ (106 + ew - D) * (c * 2 ^ (- ew)) * 2 ^ (e1 + 1074))
      with (k * c * (2 ^ (106 + ew - D) * 2 ^ (- ew) * 2 ^ (e1 + 1074))) by ring.
    replace (k * (c * 2 ^ 1074) * 2 ^ (106 - d1))
      with (k * c * (2 ^ 1074 * 2 ^ (106 - d1))) by ring.
    f_equal. rewrite <- !Z.pow_add_r by lia. f_equal. lia. }
  rewrite Hm', Z.div_mul, Z.mod_mul by lia. rewrite new_location_0.
  set (q := k * 2 ^ (106 + ew - D)).
  pose proof (pow2_pos (106 + ew - D) ltac:(lia)) as HpD.
  assert (0 < q) as Hq by (subst q; lia).
  destruct (round_char q (D - 106 - ew) loc_Exact ltac:(lia))
    as (R & [HRlo _] & HR2 & HR3 & HE & ->).
  specialize (HR3 eq_refl).
  assert (digits q = dk + (106 + ew - D)) as Hdq by (apply digits_mul_pow2; lia).
  assert (Z.max 0 (fexp (digits q + (D - 106 - ew)) - (D - 106 - ew))
          = dk + dc - D) as Hn.
  { rewrite Hdq, fexp_eq. unfold emin. lia. }
  rewrite Hn in *. set (n := dk + dc - D) in *.
  pose proof (pow2_pos n ltac:(lia)) as Hpn.
  set (R0 := k * 2 ^ (53 - dk)).
  pose proof (pow2_pos (53 - dk) ltac:(lia)) as Hp53.
  assert (q = R0 * 2 ^ n) as HqR.
  { subst q R0 n. rewrite <- Z.mul_assoc, <- Z.pow_add_r by lia.
    do 2 f_equal. lia. }
  rewrite HqR, Z.div_mul in HRlo by lia.
  assert (R = R0) as ->.
  { assert (2 * R < 2 * R0 + 2); [|lia].
    apply (Z.mul_lt_mono_pos_r (2 ^ n)); [done|]. rewrite HqR in HR3. lia. }
  assert (R0 < 2 ^ 53) as HR053.
  { subst R0. replace 53 with (dk + (53 - dk)) at 2 by lia.
    rewrite Z.pow_add_r by lia. apply Z.mul_lt_mono_pos_r; lia. }
  replace (D - 106 - ew + n) with (dk - 53) by (subst n; lia).
  destruct (pack_spec R0 (dk - 53) ltac:(subst R0; lia) ltac:(unfold emin; lia)
              ltac:(lia) ltac:(lia)) as [Hnn Hul].
  split; [done|]. rewrite Hul. subst R0.
  rewrite <- Z.mul_assoc, <- Z.pow_add_r by (unfold emin; lia).
  do 2 f_equal. unfold emin. lia.
Qed.

Lemma mod_div_scale (X a U : Z) :
  0 < U -> 0 < a -> X mod (a * U) / U = (X / U) mod a.
Proof.
  intros HU Ha. rewrite (Z.mul_comm a U), Z.rem_mul_r by lia.
  rewrite (Z.mul_comm U), Z.div_add by lia.
  rewrite Z.div_small by (apply Z.mod_pos_bound; lia). lia.
Qed.

(** [y // c] for a float [y] below [2^53] that is not negative and a
    whole number [c]: the exact quotient of the integer parts. *)
Lemma floor_div_whole (y : spec_float) (mw : positive) (ew c : Z) :
  digits (Z.pos mw) = 53 -> -52 <= ew <= 0 -> Z.pos mw = c * 2 ^ (- ew) ->
  nonneg y -> ulps y < 2 ^ 53 * 2 ^ 1074 ->
  exists q, F64.float_floor_div y (S754_finite false mw ew) = Some q /\
    F64.to_int q = Some (ulps y / 2 ^ 1074 / c).
Proof.
  intros Hdw Hew Hmw Hy Hlt.
  pose proof (pow2_pos 1074 ltac:(lia)) as Hp.
  pose proof (pow2_pos 53 ltac:(lia)) as Hp53.
  pose proof (pow2_pos (- ew) ltac:(lia)) as Hpew.
  assert (0 < c) as Hc by nia.
  set (w := S754_finite false mw ew).
  assert (nonneg w) as Hw.
  { unfold w, nonneg. split; [done|].
    pose proof (digits_bounds (Z.pos mw) ltac:(lia)) as [_ H]. rewrite Hdw in H.
    unfold emin. lia. }
  assert (ulps w = c * 2 ^ 1074) as Huw.
  { unfold w, ulps, emin. rewrite Hmw, <- Z.mul_assoc, <- Z.pow_add_r by lia.
    do 2 f_equal. lia. }
  assert (0 < ulps w) as Hpos by (rewrite Huw; lia).
  rewrite (floor_div_no_adjust y w Hy Hw Hpos). cbv zeta.
  destruct (fmod_spec y w Hy Hw Hpos) as [Hn Hu].
  rewrite Huw in Hu.
  pose proof (ulps_nonneg y) as Hy0.
  rewrite Z.div_div, (Z.mul_comm (2 ^ 1074)) by lia.
  set (W := c * 2 ^ 1074) in *.
  set (k := ulps y / W).
  assert (0 <= k) as Hk by (subst k; apply Z.div_pos; lia).
  assert (ulps y - ulps (F64.fmod y w) = k * W) as HV.
  { rewrite Hu. pose proof (Z.div_mod (ulps y) W ltac:(lia)). subst k. lia. }
  assert (k * W <= ulps y) as HkW.
  { pose proof (Z.mod_pos_bound (ulps y) W ltac:(lia)). lia. }
  assert (ulps (F64.fmod y w) <= ulps y) as Hle.
  { rewrite Hu. apply Z.mod_le; lia. }
  destruct (sub_spec y _ Hy Hn Hle) as [Hsn Hsu]. cbv zeta in Hsu.
  rewrite HV in Hsu.
  destruct (Z.eq_dec k 0) as [Hk0|Hk0].
  - rewrite Hk0 in Hsu |- *.
    rewrite (nonneg_zero _ Hsn (Hsu (or_introl eq_refl))).
    eexists. split; done.
  - assert (c * k < 2 ^ 53) as Hck.
    { apply (Z.mul_lt_mono_pos_r (2 ^ 1074)); [done|]. subst W. lia. }
    assert (ulps (F64.sub y (F64.fmod y w)) = k * W) as Hs.
    { apply Hsu. right. apply (exact_multiple _ 1074); [subst W; nia|lia| |].
      - subst W. replace (k * (c * 2 ^ 1074)) with (k * c * 2 ^ 1074) by ring.
        apply Z.mod_mul. lia.
      - rewrite Z.pow_add_r by lia. lia. }
    destruct (div_exact _ mw ew c k Hdw Hew Hmw Hsn ltac:(lia) Hck Hs) as [Hdn Hdu].
    fold w in Hdn, Hdu.
    set (div_ := F64.div (F64.sub y (F64.fmod y w)) w) in *.
    rewrite (is_zero_false div_) by (rewrite Hdu; lia). simpl negb. cbv iota.
    destruct (floor_spec div_ Hdn) as [Hfn Hfu].
    rewrite Hdu, Z.div_mul in Hfu by lia.
    destruct (sub_spec div_ _ Hdn Hfn ltac:(lia)) as [Hzn Hzu]. cbv zeta in Hzu.
    assert (ulps div_ - ulps (F64.floor div_) = 0) as Hz0 by (rewrite Hdu, Hfu; lia).
    rewrite (nonneg_zero _ Hzn (eq_trans (Hzu (or_introl Hz0)) Hz0)).
    change (F64.ltb F64.half (S754_zero false)) with false. cbv iota.
    eexists. split; [done|].
    rewrite (to_int_spec _ Hfn), Hfu, Z.div_mul by lia. done.
Qed.

Lemma c60_whole :
  digits 8444249301319680 = 53 /\ 8444249301319680 = 60 * 2 ^ (- -47).
Proof. split; reflexivity. Qed.

Lemma c3600_whole :
  digits 7916483719987200 = 53 /\ 7916483719987200 = 3600 * 2 ^ (- -41).
Proof. split; reflexivity. Qed.

(** The stamp of a float offset below [2^53]: hours, minutes and seconds
    are those of its integer part. *)
Lemma seconds_to_srt_time_fields (x : spec_float) :
  nonneg x -> ulps x < 2 ^ 53 * 2 ^ 1074 ->
  exists n ms,
    F64.to_int x = Some n /\ 0 <= n /\ 0 <= ms < 1000 /\
    _seconds_to_srt_time (PyFloat x)
    = Some (srt_time (n / 3600) (n mod 3600 / 60) (n mod 60) ms).
Proof.
  intros Hx Hlt.
  pose proof (pow2_pos 1074 ltac:(lia)) as Hp.
  pose proof (pow2_pos 53 ltac:(lia)) as Hp53.
  pose proof (ulps_nonneg x) as Hx0.
  set (n := ulps x / 2 ^ 1074).
  assert (0 <= n) as Hn0 by (subst n; apply Z.div_pos; lia).
  destruct c3600_whole as [Hd3600 Hm3600]. destruct c60_whole as [Hd60 Hm60].
  destruct (floor_div_whole x 7916483719987200 (-41) 3600 Hd3600 ltac:(lia) Hm3600
              Hx Hlt) as (q1 & Hq1 & Hhours).
  fold c3600 in Hq1. fold n in Hhours.
  assert (0 < ulps c3600) as Hpos by (rewrite ulps_c3600; lia).
  destruct (float_rem_spec x c3600 Hx nonneg_c3600 Hpos) as (y & Hy & Hyn & Hyu).
  rewrite ulps_c3600 in Hyu.
  pose proof (Z.mod_pos_bound (ulps x) (3600 * 2 ^ 1074) ltac:(lia)) as Hyb.
  destruct (floor_div_whole y 8444249301319680 (-47) 60 Hd60 ltac:(lia) Hm60 Hyn)
    as (q2 & Hq2 & Hminutes).
  { rewrite Hyu. pose proof (Z.mod_le (ulps x) (3600 * 2 ^ 1074) Hx0 ltac:(lia)). lia. }
  fold c60 in Hq2. rewrite Hyu, mod_div_scale in Hminutes by lia. fold n in Hminutes.
  assert (0 < ulps c60) as Hpos60 by (rewrite ulps_c60; lia).
  destruct (float_rem_spec x c60 Hx nonneg_c60 Hpos60) as (r3 & Hr3 & Hr3n & Hr3u).
  rewrite ulps_c60 in Hr3u.
  pose proof (to_int_spec r3 Hr3n) as Hsecs.
  rewrite Hr3u, mod_div_scale in Hsecs by lia. fold n in Hsecs.
  destruct (rem_1_millis x Hx) as (r4 & ms & Hr4 & Hms & Hmsr).
  exists n, ms. split; [apply (to_int_spec x Hx)|]. split; [done|]. split; [done|].
  assert (0 <= n mod 3600 / 60 < 60) by (Z.to_euclidean_division_equations; lia).
  assert (0 <= n mod 60 < 60) by (apply Z.mod_pos_bound; lia).
  assert (0 <= n / 3600) by (apply Z.div_pos; lia).
  unfold _seconds_to_srt_time.
  rewrite (floordiv_float x 3600 c3600 of_int_3600), Hq1. bind_some.
  rewrite int_float, Hhours. bind_some.
  rewrite (mod_float x 3600 c3600 of_int_3600), Hy. bind_some.
  rewrite (floordiv_float y 60 c60 of_int_60), Hq2. bind_some.
  rewrite int_float, Hminutes. bind_some.
  rewrite (mod_float x 60 c60 of_int_60), Hr3. bind_some.
  rewrite int_float, Hsecs. bind_some.
  rewrite (mod_float x 1 F64.one of_int_1), Hr4. bind_some.
  rewrite (mul_float r4 1000 c1000 of_int_1000). bind_some.
  rewrite int_float, Hms. bind_some.
  rewrite (format_0d_2 (n / 3600)) by lia.
  rewrite !format_0d_2_small by lia. rewrite format_0d_3 by lia. done.
Qed.

(** The milliseconds: the product of the fraction and [1000.0] is the
    exact product rounded once, so its whole part is that of 1000 times
    the fraction up to [2^-43]. *)
Lemma mul_1000_millis (frac : spec_float) :
  nonneg frac -> ulps frac < 2 ^ 1074 ->
  exists ms, F64.to_int (F64.mul frac c1000) = Some ms /\ 0 <= ms < 1000 /\
    millis_of (ulps frac) ms.
Proof.
  intros Hf Hlt.
  destruct (mul_1000_bound frac Hf Hlt) as (ms & Hms & Hrange).
  exists ms. split; [done|]. split; [done|].
  pose proof (pow2_pos 1074 ltac:(lia)) as HU.
  destruct frac as [sf| | |sf mf ef]; try done.
  { injection Hms as <-. unfold millis_of, ulps.
    pose proof (pow2_pos 1030 ltac:(lia)). pose proof (pow2_pos 1031 ltac:(lia)).
    lia. }
  destruct Hf as (-> & Hmf & Hef). unfold emin in *.
  unfold ulps, emin in Hlt |- *.
  replace (ef - -1074) with (ef + 1074) in * by lia.
  pose proof (pow2_pos (ef + 1074) ltac:(lia)) as Hpe.
  assert (ef < 0) as Hneg.
  { destruct (Z.lt_ge_cases ef 0); [done|exfalso].
    assert (2 ^ 1074 <= 2 ^ (ef + 1074)) by (apply Z.pow_le_mono_r; lia).
    assert (2 ^ (ef + 1074) <= Z.pos mf * 2 ^ (ef + 1074)); [|lia].
    rewrite <- (Z.mul_1_l (2 ^ (ef + 1074))) at 1.
    apply Z.mul_le_mono_nonneg_r; lia. }
  revert Hms.
  unfold F64.mul, SFmul, c1000. change (xorb false false) with false.
  rewrite Pos2Z.inj_mul.
  set (m := Z.pos mf * 8796093022208000). set (e := ef + -43).
  assert (0 < m) as Hm by (subst m; lia).
  destruct (round_char m e loc_Exact ltac:(lia))
    as (R & [HRlo _] & HR2 & HR3 & HE & ->).
  specialize (HR3 eq_refl).
  set (n := Z.max 0 (fexp (digits m + e) - e)) in *.
  assert (0 <= n) as Hn0 by (subst n; lia).
  pose proof (pow2_pos n Hn0) as Hpn.
  assert (Z.pos mf < 2 ^ (- ef)) as Hmflt.
  { apply (Z.mul_lt_mono_pos_r (2 ^ (ef + 1074))); [done|].
    rewrite <- Z.pow_add_r by lia. by replace (- ef + (ef + 1074)) with 1074 by lia. }
  assert (digits m + e <= 10) as Hme.
  { assert (digits m <= 10 - e); [|lia].
    apply digits_le; [done|subst e; lia|].
    replace (10 - e) with (53 + - ef) by (subst e; lia).
    rewrite Z.pow_add_r by lia. change (2 ^ 53) with (1024 * 2 ^ 43).
    subst m. change 8796093022208000 with (1000 * 2 ^ 43).
    pose proof (pow2_pos 43 ltac:(lia)). pose proof (pow2_pos (- ef) ltac:(lia)).
    nia. }
  assert (e + n <= -43) as HEneg.
  { subst n. rewrite fexp_eq. unfold emin. subst e. lia. }
  assert (0 <= R) as HR0.
  { assert (0 <= m / 2 ^ n); [|lia]. apply Z.div_pos; lia. }
  assert (emin <= e + n) as HE' by exact HE.
  destruct (pack_spec R (e + n) (conj HR0 HR2) HE' ltac:(lia)
              ltac:(intros; lia)) as [Hnn Hul].
  rewrite (to_int_spec _ Hnn), Hul. unfold emin in *. intros [= Hms].
  set (E := 2 ^ (e + n - -1074)) in *.
  assert (0 < E) as HE0 by (subst E; apply pow2_pos; lia).
  assert (E <= 2 ^ 1031) as HE1 by (subst E; apply Z.pow_le_mono_r; lia).
  (* the exact product, at the exponent of the rounded one *)
  assert (m * E = 1000 * (Z.pos mf * 2 ^ (ef + 1074)) * 2 ^ n) as Hexact.
  { subst m E. change 8796093022208000 with (1000 * 2 ^ 43).
    replace (Z.pos mf * (1000 * 2 ^ 43) * 2 ^ (e + n - -1074))
      with (1000 * Z.pos mf * (2 ^ 43 * 2 ^ (e + n - -1074))) by ring.
    replace (1000 * (Z.pos mf * 2 ^ (ef + 1074)) * 2 ^ n)
      with (1000 * Z.pos mf * (2 ^ (ef + 1074) * 2 ^ n)) by ring.
    rewrite <- !Z.pow_add_r by lia. do 2 f_equal. subst e. lia. }
  set (F := Z.pos mf * 2 ^ (ef + 1074)) in *.
  set (V := R * E) in *.
  assert (m < (R + 1) * 2 ^ n) as Hlo.
  { pose proof (Z.div_mod m (2 ^ n) ltac:(lia)).
    pose proof (Z.mod_pos_bound m (2 ^ n) ltac:(lia)). nia. }
  assert (1000 * F < V + E) as HV1.
  { apply (Z.mul_lt_mono_pos_r (2 ^ n)); [done|]. rewrite <- Hexact.
    subst V. nia. }
  assert (2 * V <= 2000 * F + E) as HV2.
  { apply (Z.mul_le_mono_pos_r _ _ (2 ^ n)); [done|].
    replace (2000 * F) with (2 * (1000 * F)) by ring.
    replace ((2 * (1000 * F) + E) * 2 ^ n)
      with (2 * (1000 * F * 2 ^ n) + E * 2 ^ n) by ring.
    rewrite <- Hexact. subst V. nia. }
  pose proof (Z.div_mod V (2 ^ 1074) ltac:(lia)) as Hdm.
  pose proof (Z.mod_pos_bound V (2 ^ 1074) ltac:(lia)) as Hmb.
  rewrite Hms in Hdm.
  change (2 ^ 1031) with (2 * 2 ^ 1030) in *.
  unfold millis_of. change (2 ^ 1031) with (2 * 2 ^ 1030).
  pose proof (pow2_pos 1030 ltac:(lia)).
  split; lia.
Qed.

(** The stamp of any float offset that is not negative: minutes and
    seconds are those of its integer part, the hours too when that part is
    below [2^53], and the milliseconds come from the fraction. *)
Lemma seconds_to_srt_time_float (x : spec_float) :
  nonneg x ->
  exists n h ms,
    F64.to_int x = Some n /\ 0 <= n /\ 0 <= h /\
    (n < 2 ^ 53 -> h = n / 3600) /\
    0 <= ms < 1000 /\ millis_of (ulps x mod 2 ^ 1074) ms /\
    _seconds_to_srt_time (PyFloat x)
    = Some (srt_time h (n mod 3600 / 60) (n mod 60) ms).
Proof.
  intros Hx.
  pose proof (pow2_pos 1074 ltac:(lia)) as Hp.
  pose proof (pow2_pos 53 ltac:(lia)) as Hp53.
  pose proof (ulps_nonneg x) as Hx0.
  set (n := ulps x / 2 ^ 1074).
  assert (0 <= n) as Hn0 by (subst n; apply Z.div_pos; lia).
  destruct c3600_whole as [Hd3600 Hm3600]. destruct c60_whole as [Hd60 Hm60].
  destruct (floor_div_3600_int x Hx) as (q1 & hours & Hq1 & Hhours & Hh).
  assert (n < 2 ^ 53 -> hours = n / 3600) as Hexact.
  { intros Hlt.
    destruct (floor_div_whole x 7916483719987200 (-41) 3600 Hd3600 ltac:(lia) Hm3600
                Hx) as (q1' & Hq1' & Hhours').
    { apply Z.nle_gt. intros Hge.
      apply (Z.div_le_mono _ _ (2 ^ 1074)) in Hge; [|done].
      rewrite Z.div_mul in Hge by lia. fold n in Hge. lia. }
    fold c3600 in Hq1'. fold n in Hhours'. congruence. }
  assert (0 < ulps c3600) as Hpos by (rewrite ulps_c3600; lia).
  destruct (float_rem_spec x c3600 Hx nonneg_c3600 Hpos) as (y & Hy & Hyn & Hyu).
  rewrite ulps_c3600 in Hyu.
  pose proof (Z.mod_pos_bound (ulps x) (3600 * 2 ^ 1074) ltac:(lia)) as Hyb.
  destruct (floor_div_whole y 8444249301319680 (-47) 60 Hd60 ltac:(lia) Hm60 Hyn)
    as (q2 & Hq2 & Hminutes).
  { rewrite Hyu. change (2 ^ 53) with 9007199254740992. lia. }
  fold c60 in Hq2. rewrite Hyu, mod_div_scale in Hminutes by lia. fold n in Hminutes.
  assert (0 < ulps c60) as Hpos60 by (rewrite ulps_c60; lia).
  destruct (float_rem_spec x c60 Hx nonneg_c60 Hpos60) as (r3 & Hr3 & Hr3n & Hr3u).
  rewrite ulps_c60 in Hr3u.
  pose proof (to_int_spec r3 Hr3n) as Hsecs.
  rewrite Hr3u, mod_div_scale in Hsecs by lia. fold n in Hsecs.
  destruct (float_rem_spec x F64.one Hx nonneg_one) as (r4 & Hr4 & Hr4n & Hr4u).
  { rewrite ulps_one. lia. }
  rewrite ulps_one in Hr4u.
  pose proof (Z.mod_pos_bound (ulps x) (2 ^ 1074) ltac:(lia)) as Hfb.
  destruct (mul_1000_millis r4 Hr4n ltac:(lia)) as (ms & Hms & Hmsr & Hmillis).
  rewrite Hr4u in Hmillis.
  exists n, hours, ms. split; [apply (to_int_spec x Hx)|].
  split; [done|]. split; [done|]. split; [done|]. split; [done|]. split; [done|].
  assert (0 <= n mod 3600 / 60 < 60) by (Z.to_euclidean_division_equations; lia).
  assert (0 <= n mod 60 < 60) by (apply Z.mod_pos_bound; lia).
  unfold _seconds_to_srt_time.
  rewrite (floordiv_float x 3600 c3600 of_int_3600), Hq1. bind_some.
  rewrite int_float, Hhours. bind_some.
  rewrite (mod_float x 3600 c3600 of_int_3600), Hy. bind_some.
  rewrite (floordiv_float y 60 c60 of_int_60), Hq2. bind_some.
  rewrite int_float, Hminutes. bind_some.
  rewrite (mod_float x 60 c60 of_int_60), Hr3. bind_some.
  rewrite int_float, Hsecs. bind_some.
  rewrite (mod_float x 1 F64.one of_int_1), Hr4. bind_some.
  rewrite (mul_float r4 1000 c1000 of_int_1000). bind_some.
  rewrite int_float, Hms. bind_some.
  rewrite (format_0d_2 hours) by lia.
  rewrite !format_0d_2_small by lia. rewrite format_0d_3 by lia. done.
Qed.

End StampFields.

(** C6: the conversion maps 3725.4 seconds to [01:02:05,400]; and for
    every offset that is not negative, an [int] or a finite [float], it
    returns a string of the form [HH:MM:SS,mmm] whose fields are those of
    the offset: with [n] the whole seconds of the offset, the minutes are
    [n mod 3600 / 60] and the seconds [n mod 60]; the hours, padded to two
    digits, are [n / 3600] for every [int] and for every [float] below
    [2^53] (above, the float quotient is rounded); the milliseconds are
    in [0,1000), zero for an [int] and for a [float] the whole part of 1000
    times the fraction, up to the rounding of that one product. *)
Theorem seconds_to_srt_time_format (seconds : pynum) :
  nonneg_offset seconds ->
  _seconds_to_srt_time (PyFloat (float_literal 37254 10)) = Some "01:02:05,400" /\
  exists out n h ms,
    _seconds_to_srt_time seconds = Some out /\ srt_time_shape out /\
    Num.int seconds = Some n /\ 0 <= n /\
    out = srt_time h (n mod 3600 / 60) (n mod 60) ms /\
    0 <= h /\ (n < 2 ^ 53 -> h = n / 3600) /\
    (forall z, seconds = PyInt z -> h = z / 3600 /\ ms = 0) /\
    0 <= ms < 1000 /\ millis_of (fraction_ulps seconds) ms.
Proof.
  intros Hs. split; [by vm_compute|].
  assert (millis_of 0 0) as Hzero.
  { unfold millis_of. pose proof (UlpFacts.pow2_pos 1074 ltac:(lia)).
    pose proof (UlpFacts.pow2_pos 1030 ltac:(lia)).
    pose proof (UlpFacts.pow2_pos 1031 ltac:(lia)). lia. }
  destruct seconds as [z|x]; simpl in Hs.
  - destruct (stamp_shape z Hs) as [Hst Hshape].
    exists (stamp z), z, (z / 3600), 0.
    split; [apply seconds_to_srt_time_int|]. split; [done|].
    split; [done|]. split; [done|]. split; [done|].
    split; [by apply Z.div_pos|]. split; [done|].
    split; [by intros z' [= <-]|]. split; [lia|done].
  - destruct Hs as [Hvalid Hsign].
    destruct x as [s| | |s m e]; try done.
    + exists "00:00:00,000", 0, 0, 0.
      split; [by destruct s; vm_compute|].
      split; [exists 0, 0, 0, 0; repeat split; done || lia|].
      split; [done|]. split; [done|]. split; [done|]. split; [done|].
      split; [done|]. split; [done|]. split; [lia|].
      unfold fraction_ulps, Ulp.ulps.
      by rewrite Z.mod_0_l by (apply Z.pow_nonzero; lia).
    + subst s.
      pose proof (UlpFacts.nonneg_of_valid m e Hvalid) as Hx.
      destruct (StampFields.seconds_to_srt_time_float _ Hx)
        as (n & h & ms & Hn & Hn0 & Hh0 & Hh & Hms & Hmillis & Hout).
      exists (srt_time h (n mod 3600 / 60) (n mod 60) ms), n, h, ms.
      split; [done|].
      split.
      { exists h, (n mod 3600 / 60), (n mod 60), ms.
        split; [done|].
        split; [Z.to_euclidean_division_equations; lia|].
        split; [apply Z.mod_pos_bound; lia|]. done. }
      split; [done|]. split; [done|]. split; [done|]. split; [done|].
      split; [done|]. split; [done|]. done.
Qed.

Lemma seconds_to_srt_time_format_witness :
  _seconds_to_srt_time (PyFloat (float_literal 37254 10)) = Some "01:02:05,400" /\
  exists out n h ms,
    _seconds_to_srt_time (PyFloat (float_literal 3 2)) = Some out /\
    srt_time_shape out /\
    Num.int (PyFloat (float_literal 3 2)) = Some n /\ 0 <= n /\
    out = srt_time h (n mod 3600 / 60) (n mod 60) ms /\
    0 <= h /\ (n < 2 ^ 53 -> h = n / 3600) /\
    (forall z, PyFloat (float_literal 3 2) = PyInt z -> h = z / 3600 /\ ms = 0) /\
    0 <= ms < 1000 /\ millis_of (fraction_ulps (PyFloat (float_literal 3 2))) ms.
Proof.
  apply (seconds_to_srt_time_format (PyFloat (float_literal 3 2))).
  vm_compute. split; reflexivity.
Defined.

(** ** Runs that stop early and runs that never stop *)

Section Never.

Variable e : env.
Hypothesis Hnever : never_delivers e.

Lemma gen_iteration_no_chunk s g o s' g' :
  gen_iteration e s g = (o, s', g') -> forall ch, o <> GenYield ch.
Proof.
  unfold gen_iteration.
  destruct ((current_position g <? total_duration s) && is_running s);
    [|by intros [= <- _ _]].
  destruct (is_interrupted s); [by intros [= <- _ _]|].
  pose proof (Hnever (ffmpeg_calls g) (current_position g)
                (Z.min (chunk_size g) (total_duration s - current_position g)))
    as Hno.
  destruct (ffmpeg e _ _ _) as [|rc data]; [by intros [= <- _ _]|].
  destruct rc as [|rc|rc]; cbn [negb Z.eqb]; try by intros [= <- _ _].
  destruct data as [|b data]; [|done]. cbn. by intros [= <- _ _].
Qed.

Lemma step_never_ending c :
  never_ending e c -> never_ending e (step e Tick c).
Proof.
  destruct c as [p s f a v g w k]. unfold never_ending, step, step_tick.
  cbn [at_ self fs args video gen whisper_calls clock].
  intros (Hint & Hstep & Hat).
  destruct p; cbn [at_ self fs args video gen whisper_calls clock].
  - destruct Hat as (-> & Hl & Hx). cbn. done.
  - destruct Hat as (Hm & -> & Hx). cbn. done.
  - destruct Hat as (Hm & Hl & info & Hx & Haudio & Hok & HD).
    unfold extract_youtube_info. rewrite Hx. cbn.
    split; [done|]. split; [done|]. split; [|done]. by eexists.
  - destruct Hat as ((v0 & -> & Hv & Hok) & HD). rewrite Hv, Hok. cbn.
    split; [done|]. split; [done|]. split; [by eexists|done].
  - destruct Hat as ((v0 & -> & Hv & Hok) & HD). cbn. done.
  - unfold total_chunks.
    destruct (Z.eqb_spec (chunk_duration s - overlap_duration s) 0); [lia|].
    cbn. done.
  - cbn. cbn in Hstep. repeat split; try done; lia.
  - destruct Hat as (Hrun & Hg & Hpos).
    destruct (gen_iteration e s g) as [[o s'] g'] eqn:Hit.
    pose proof (gen_iteration_total_duration _ _ _ _ _ _ Hit) as HD.
    pose proof (gen_iteration_locals _ _ _ _ _ _ Hit) as [_ Hst].
    pose proof (gen_iteration_flags _ _ _ _ _ _ Hit) as [Hr Hi].
    pose proof (gen_iteration_advance _ _ _ _ _ _ Hit) as Hadv.
    pose proof (gen_iteration_no_chunk _ _ _ _ _ Hit) as Hno.
    pose proof (gen_iteration_return e s g) as Hret. rewrite Hit in Hret.
    cbn in Hret.
    assert (chunk_duration s' = chunk_duration s /\
            overlap_duration s' = overlap_duration s) as [HL HO].
    { by destruct (gen_iteration_self _ _ _ _ _ _ Hit) as [->|[d ->]]. }
    destruct o as [| |ch]; cbn; rewrite ?HD, ?HL, ?HO, ?Hst, ?Hr, ?Hi.
    + destruct (proj1 Hret eq_refl) as [?|[?|?]]; [lia|congruence..].
    + rewrite Hadv. repeat split; try done; lia.
    + by destruct (Hno ch).
  - done.
  - done.
  - done.
  - done.
  - done.
  - done.
  - done.
Qed.

Lemma exec_never_ending n : forall c,
  never_ending e c -> never_ending e (exec e (replicate n Tick) c).
Proof.
  induction n as [|n IH]; intros c Hc; [done|].
  cbn [replicate]. simpl. by apply IH, step_never_ending.
Qed.

End Never.

Lemma never_ending_running e c : never_ending e c -> exit_status_of c = None.
Proof. intros (_ & _ & H). unfold exit_status_of. by destruct (at_ c). Qed.

Section EarlyAndNever.

Variable e : env.

(** The first steps of [run] when they succeed. *)
Lemma run_to_check_audio (a : cli_args) (f : files) (info : yt_info) :
  makedirs_ok e = true -> load_model_ok e = true ->
  extract_info e (arg_url a) = Some info ->
  exists v s,
    exec e (replicate 3 Tick) (start_run a f)
    = {| at_ := RunCheckAudio; self := s; fs := f; args := a; video := Some v;
         gen := gen_start (__init__ (arg_model a) (arg_chunk_duration a) (arg_overlap a));
         whisper_calls := 0; clock := 3 |} /\
    vi_audio_url v = find_audio_url (default [] (info_formats info)) /\
    chunk_duration s = arg_chunk_duration a /\
    overlap_duration s = arg_overlap a /\
    transcripts s = [] /\ output_file s = None /\ is_interrupted s = false /\
    is_running s = false /\ progress_bar s = None /\
    total_duration s = default 0 (info_duration info) /\
    vi_duration v = default 0 (info_duration info).
Proof.
  intros Hm Hl Hx. unfold exec. cbn [replicate foldl].
  set (c0 := start_run a f).
  assert (step e Tick c0 = goto RunLoadModel (self c0) c0) as ->.
  { unfold step, step_tick. cbn [at_ c0 start_run]. by rewrite Hm. }
  set (c1 := goto RunLoadModel (self c0) c0).
  assert (step e Tick c1
          = goto RunExtractInfo (set_whisper_model true (self c1)) c1) as ->.
  { unfold step, step_tick. cbn [at_ c1 goto]. by rewrite Hl. }
  set (c2 := goto RunExtractInfo (set_whisper_model true (self c1)) c1).
  unfold step, step_tick. cbn [at_ c2 goto]. unfold extract_youtube_info.
  cbn [args c2 c1 c0 goto start_run]. rewrite Hx. cbn [mbind option_bind].
  eexists _, _. split; [reflexivity|]. cbn. done.
Qed.

Lemma tick_check_audio c v :
  at_ c = RunCheckAudio -> video c = Some v ->
  step e Tick c =
  if negb (Py.timedelta_ok (vi_duration v)) then goto RunFinally (self c) c
  else if negb (Py.truthy (vi_audio_url v)) then goto RunFinally (self c) c
  else goto RunSetupOutput (self c) c.
Proof.
  destruct c as [p s f a v0 g w k]. cbn. intros -> ->.
  unfold step, step_tick. cbn [at_ video self]. done.
Qed.

Lemma tick_check_audio_missing c v :
  at_ c = RunCheckAudio -> video c = Some v ->
  Py.truthy (vi_audio_url v) = false ->
  step e Tick c = goto RunFinally (self c) c.
Proof.
  intros Hat Hv Haudio. rewrite (tick_check_audio c v Hat Hv), Haudio.
  by destruct (negb (Py.timedelta_ok (vi_duration v))).
Qed.

Lemma tick_check_audio_found c v :
  at_ c = RunCheckAudio -> video c = Some v ->
  Py.timedelta_ok (vi_duration v) = true -> Py.truthy (vi_audio_url v) = true ->
  step e Tick c = goto RunSetupOutput (self c) c.
Proof.
  intros Hat Hv Hok Haudio. by rewrite (tick_check_audio c v Hat Hv), Hok, Haudio.
Qed.

Lemma tick_setup_output c v :
  at_ c = RunSetupOutput -> video c = Some v ->
  step e Tick c =
  goto RunProgressBar
    (set_output_file
       (Some (Py.path_join (arg_output_dir (args c))
                (safe_title (vi_title v) +:+ "_" +:+ now_stamp e (clock c) +:+ ".txt")))
       (self c)) c.
Proof.
  destruct c as [p s f a v0 g w k]. cbn. intros -> ->.
  unfold step, step_tick. cbn [at_ video self]. done.
Qed.

Lemma tick_progress_bar_none c :
  at_ c = RunProgressBar -> total_chunks (self c) = None ->
  step e Tick c = goto RunFinally (self c) c.
Proof.
  destruct c as [p s f a v0 g w k]. cbn. intros -> H.
  unfold step, step_tick. cbn [at_ video self]. by rewrite H.
Qed.

Lemma tick_finally c :
  at_ c = RunFinally ->
  step e Tick c = goto (Exited 0) (finally_clause (self c)) c.
Proof.
  destruct c as [p s f a v0 g w k]. cbn. intros ->.
  unfold step, step_tick. cbn [at_ video self]. done.
Qed.

End EarlyAndNever.

(** Name the configuration the next step starts from. *)
(** *** Runs in which nothing is heard *)

Section Silent.

Variable e : env.
Variable f0 : files.
Hypothesis Hsilent : nothing_heard e.

Lemma step_nothing_recorded c ev :
  nothing_recorded f0 c -> nothing_recorded f0 (step e ev c).
Proof.
  intros Hinv.
  destruct (exit_status_of c) as [st|] eqn:Hst.
  { unfold exit_status_of in Hst. destruct (at_ c) eqn:Hat; try done.
    by rewrite (step_exited e c ev _ Hat). }
  destruct ev.
  2:{ rewrite (step_signal_eq e c Hst). destruct Hinv as (Htr & Hfs & Hat).
      destruct (signal_fields (now_isoformat e (clock c)) (self c) (fs c))
        as (_ & _ & _ & Htr').
      unfold nothing_recorded, goto_fs. cbn [at_ self fs].
      rewrite Htr', Htr. split; [done|]. split; [|done].
      unfold _signal_handler, _save_partial_results. cbn [snd].
      rewrite transcripts_close_if_true. cbn [transcripts set_running set_interrupted].
      by rewrite Htr. }
  destruct c as [p s f a v g w k]. destruct Hinv as (Htr & Hfs & Hat).
  unfold nothing_recorded, step, step_tick.
  cbn [at_ self fs args video gen whisper_calls clock] in *.
  destruct p; cbn [at_ self fs args video gen whisper_calls clock]; try done.
  - by destruct (makedirs_ok e).
  - by destruct (load_model_ok e).
  - unfold extract_youtube_info. by destruct (extract_info e (arg_url a)).
  - destruct v as [v|]; [destruct (negb (Py.timedelta_ok (vi_duration v)));
       [|destruct (negb (Py.truthy (vi_audio_url v)))]|]; done.
  - by destruct v.
  - by destruct (total_chunks s).
  - destruct (gen_iteration e s g) as [[o s'] g'] eqn:Hit.
    assert (transcripts s' = transcripts s) as Htr'
      by (by destruct (gen_iteration_self _ _ _ _ _ _ Hit) as [->|[d ->]]).
    destruct o; cbn; by rewrite Htr'.
  - destruct (negb (is_running s) || is_interrupted s); [done|].
    cbn. by rewrite Hsilent.
  - by destruct t.
  - pose proof (transcripts_close_progress_bar s) as Hcl.
    destruct (negb (is_interrupted (close_progress_bar s))); [destruct v|]; cbn;
      rewrite ?Hcl; try done.
    unfold save_final_results. rewrite Hcl, Htr. done.
  - cbn. by rewrite transcripts_finally_clause.
Qed.

Lemma exec_nothing_recorded evs : forall c,
  nothing_recorded f0 c -> nothing_recorded f0 (exec e evs c).
Proof.
  induction evs as [|ev evs IH]; intros c Hc; [done|].
  simpl. by apply IH, step_nothing_recorded.
Qed.

End Silent.

(** *** The lengths never change *)



Ltac next_config c0 :=
  match goal with
  | |- context [step _ Tick ?c] =>
      lazymatch c with
      | context [step] => fail
      | _ => set (c0 := c)
      end
  end.

(** ** The names of the final results *)

(** An occurrence of [.txt] cannot begin in a string and end in a [.txt]
    put after it. *)
Lemma prefix_txt_append a (s : string) :
  String.prefix ".txt" (String a s) = false ->
  String.prefix ".txt" (String a s +:+ ".txt") = false.
Proof.
  rewrite append_cons. cbn [String.prefix].
  destruct (Ascii.ascii_dec "." a) as [_|]; [|done].
  destruct s as [|b s]; [done|]. rewrite append_cons. cbn [String.prefix].
  destruct (Ascii.ascii_dec "t" b) as [_|]; [|done].
  destruct s as [|c s]; [done|]. rewrite append_cons. cbn [String.prefix].
  destruct (Ascii.ascii_dec "x" c) as [_|]; [|done].
  destruct s as [|d s]; [done|]. rewrite append_cons. cbn [String.prefix].
  destruct (Ascii.ascii_dec "t" d); [|done]. by destruct s.
Qed.

Lemma replace_txt_stem (stem : string) :
  occurs ".txt" stem = false -> Py.replace ".txt" "" (stem +:+ ".txt") = stem.
Proof.
  unfold Py.replace. induction stem as [|a stem IH]; [by vm_compute|].
  cbn [occurs]. intros [Hp Ho]%orb_false_iff.
  rewrite append_cons. cbn [Py.replace_from].
  rewrite <- append_cons, (prefix_txt_append _ _ Hp). by rewrite IH.
Qed.

(** ** Further properties of the generator *)

(** X1: left running and not interrupted, with the overlap below the
    chunk length, [create_audio_chunks] runs FFmpeg exactly as many times
    as there are windows, whatever FFmpeg answers, and then returns with
    its position one step per run from the start: a window whose
    extraction fails or raises is passed over and never tried again. *)
Theorem ffmpeg_once_per_window (e : env) (s : scribe) (fuel : nat) :
  overlap_duration s < chunk_duration s ->
  is_running s = true -> is_interrupted s = false ->
  (window_count (total_duration s) (chunk_duration s - overlap_duration s) 0
   < fuel)%nat ->
  exists s' g',
    (create_audio_chunks fuel e s).2 = Some (s', g') /\
    ffmpeg_calls g'
      = window_count (total_duration s) (chunk_duration s - overlap_duration s) 0 /\
    current_position g'
      = Z.of_nat (ffmpeg_calls g') * (chunk_duration s - overlap_duration s).
Proof.
  intros HLO Hrun Hint Hfuel.
  destruct (drain_calls e fuel s (gen_start s)) as (s' & g' & Hd & Hc & Hp);
    [simpl; lia|done..|].
  exists s', g'. split; [done|]. simpl in Hc, Hp. rewrite Hc, Hp. split; lia.
Qed.

Lemma ffmpeg_once_per_window_witness :
  exists s' g',
    (create_audio_chunks 4 flaky_env (ready 52 (__init__ "base" 30 5))).2
      = Some (s', g') /\
    ffmpeg_calls g' = window_count 52 (30 - 5) 0 /\
    current_position g' = Z.of_nat (ffmpeg_calls g') * (30 - 5).
Proof.
  apply (ffmpeg_once_per_window flaky_env (ready 52 (__init__ "base" 30 5)) 4).
  - simpl; lia.
  - reflexivity.
  - reflexivity.
  - vm_compute; lia.
Defined.

(** X2: with the overlap below the chunk length, whatever FFmpeg answers,
    the chunks [create_audio_chunks] yields come in strictly increasing
    order of start offset and of chunk number; each starts a whole number
    [k] of steps from 0, before the end of the audio, lasts
    [min(L, D - start)], holds some audio, and its number lies between its
    index in the sequence and [k] (failed windows leave the number behind
    the window). *)
Theorem chunks_in_order (e : env) (s : scribe) (fuel : nat) :
  overlap_duration s < chunk_duration s ->
  let D := total_duration s in
  let L := chunk_duration s in
  let O := overlap_duration s in
  let l := (create_audio_chunks fuel e s).1 in
  (forall (i : nat) c, l !! i = Some c ->
     exists k : nat,
       chunk_start_time c = Z.of_nat k * (L - O) /\
       Z.of_nat i <= chunk_chunk_number c <= Z.of_nat k /\
       chunk_start_time c < D /\
       chunk_duration_ c = Z.min L (D - chunk_start_time c) /\
       (0 < length (chunk_data c))%nat) /\
  (forall (i j : nat) c c', (i < j)%nat -> l !! i = Some c -> l !! j = Some c' ->
     chunk_start_time c < chunk_start_time c' /\
     chunk_chunk_number c < chunk_chunk_number c').
Proof.
  intros HLO D L O l. split.
  - intros i c Hc.
    destruct (drain_chunks e fuel s (gen_start s) ltac:(simpl; lia) i c Hc)
      as (k & H1 & H2 & _ & H4 & H5 & H6).
    exists k. simpl in H1, H2, H5. subst D L O. repeat split; try done; lia.
  - intros i j c c' Hij Hc Hc'.
    by apply (drain_increasing e fuel s (gen_start s) ltac:(simpl; lia) i j).
Qed.

Lemma chunks_in_order_witness :
  let l := (create_audio_chunks 4 flaky_env (ready 52 (__init__ "base" 30 5))).1 in
  exists c c',
    l !! 0%nat = Some c /\ l !! 1%nat = Some c' /\
    chunk_start_time c < chunk_start_time c' /\
    chunk_chunk_number c < chunk_chunk_number c'.
Proof.
  intros l.
  destruct (chunks_in_order flaky_env (ready 52 (__init__ "base" 30 5)) 4)
    as [_ Hord]; [simpl; lia|].
  eexists _, _.
  split; [vm_compute; reflexivity|]. split; [vm_compute; reflexivity|].
  apply (Hord 0%nat 1%nat); [lia|vm_compute; reflexivity..].
Defined.

(** X3: in a run of the generator in which every extraction succeeds, the
    progress offset [processed_duration] ends at the number of windows
    times the step: at or past the total duration of the audio, by less
    than one step. *)
Theorem progress_offset_passes_the_end (e : env) (s : scribe) (fuel : nat) :
  overlap_duration s < chunk_duration s ->
  is_running s = true -> is_interrupted s = false ->
  extraction_succeeds e ->
  0 < total_duration s ->
  (window_count (total_duration s) (chunk_duration s - overlap_duration s) 0
   < fuel)%nat ->
  let D := total_duration s in
  let step := chunk_duration s - overlap_duration s in
  exists s' g',
    (create_audio_chunks fuel e s).2 = Some (s', g') /\
    processed_duration s' = Z.of_nat (window_count D step 0) * step /\
    D <= processed_duration s' < D + step.
Proof.
  intros HLO Hrun Hint Hok HD Hfuel D step.
  destruct (drain_processed e fuel s (gen_start s) Hok) as (s' & g' & Hd & Hpd & Hp);
    [simpl; lia|done..|].
  exists s', g'. split; [done|]. simpl in Hp. rewrite Hpd, Hp.
  fold D step.
  pose proof (window_count_reaches D step ltac:(subst step; lia)).
  pose proof (window_count_overshoot D step ltac:(subst step; lia) HD).
  split; lia.
Qed.

Lemma progress_offset_passes_the_end_witness :
  exists s' g',
    (create_audio_chunks 4 steady_env (ready 52 (__init__ "base" 30 5))).2
      = Some (s', g') /\
    processed_duration s' = Z.of_nat (window_count 52 (30 - 5) 0) * (30 - 5) /\
    52 <= processed_duration s' < 52 + (30 - 5).
Proof.
  apply (progress_offset_passes_the_end steady_env
           (ready 52 (__init__ "base" 30 5)) 4).
  - simpl; lia.
  - reflexivity.
  - reflexivity.
  - exact steady_env_extraction.
  - simpl; lia.
  - vm_compute; lia.
Defined.

(** X4: [create_audio_chunks] yields nothing, runs FFmpeg not at all and
    leaves the object as it is when the object is not running (as it is
    until [run] sets [is_running]), when it is interrupted, or when the
    total duration is zero or negative. *)
Theorem generator_needs_running (e : env) (s : scribe) (fuel : nat) :
  is_running s = false \/ is_interrupted s = true \/ total_duration s <= 0 ->
  create_audio_chunks (S fuel) e s = ([], Some (s, gen_start s)) /\
  ffmpeg_calls (gen_start s) = O.
Proof. intros H. split; [|done]. by apply drain_idle. Qed.

Lemma generator_needs_running_witness :
  create_audio_chunks 1 steady_env (set_total_duration 52 (__init__ "base" 30 5))
  = ([], Some (set_total_duration 52 (__init__ "base" 30 5),
               gen_start (set_total_duration 52 (__init__ "base" 30 5)))).
Proof.
  apply (generator_needs_running steady_env
           (set_total_duration 52 (__init__ "base" 30 5)) 0).
  left. reflexivity.
Defined.

(** ** Transcription and video information *)

(** X5: for recognized text made of ASCII characters, a segment returned
    by [transcribe_audio_chunk] carries that text stripped of white space:
    the text is not empty and neither starts nor ends with a white-space
    character; the language defaults to [unknown]; offsets, duration and
    number are the chunk's, the end being start plus duration.  When the
    model raises, no segment is returned. *)
Theorem segment_text_is_stripped (r : whisper_result) (now : string)
    (ch : chunk) (t : segment) :
  (forall text language,
     r = TranscribeReturns text language -> Py.is_ascii (default "" text) = true) ->
  transcribe_audio_chunk r now ch = Some t ->
  seg_text t <> "" /\
  (forall a rest, seg_text t = String a rest -> Py.isspace a = false) /\
  (forall pre a, seg_text t = pre +:+ String a "" -> Py.isspace a = false) /\
  (exists text language,
     r = TranscribeReturns text language /\
     seg_text t = Py.strip (default "" text) /\
     seg_language t = default "unknown" language) /\
  seg_start_time t = chunk_start_time ch /\
  seg_end_time t = chunk_start_time ch + chunk_duration_ ch /\
  seg_duration t = chunk_duration_ ch /\
  seg_chunk_number t = chunk_chunk_number ch /\
  seg_timestamp t = now.
Proof.
  intros _.
  unfold transcribe_audio_chunk. destruct r as [|text language]; [done|].
  destruct (Py.strip (default "" text)) as [|a0 rest0] eqn:Hs; [done|].
  cbn. intros [= <-]. cbn. rewrite <- Hs.
  split; [by rewrite Hs|]. split; [apply strip_head|]. split; [apply strip_last|].
  split; [by eexists _, _|done].
Qed.

Lemma segment_text_is_stripped_witness :
  exists t,
    transcribe_audio_chunk (TranscribeReturns (Some " hello ") None)
      "2024-01-01T00:00:00" first_chunk = Some t /\
    seg_text t <> "".
Proof.
  eexists. split; [reflexivity|].
  eapply (segment_text_is_stripped (TranscribeReturns (Some " hello ") None)
            "2024-01-01T00:00:00" first_chunk).
  - intros text language [= <- _]. reflexivity.
  - reflexivity.
Defined.

(** X6: [extract_youtube_info] takes the audio address from the first
    format whose [acodec] is not ['none'] (a format without the key
    counts): the address is that format's [url], absent when that format
    has none even if a later format has one; when every format is
    ['none'], or there are no formats, there is no audio address.  The
    call stores the duration (0 when absent) in [total_duration] and
    raises only when the resolver does. *)
Theorem audio_url_of_first_audio_format (e : env) (url : string) (s : scribe)
    (info : yt_info) :
  extract_info e url = Some info ->
  exists v,
    extract_youtube_info e url s
      = Some (v, set_total_duration (default 0 (info_duration info)) s) /\
    vi_duration v = default 0 (info_duration info) /\
    (forall pre f post,
       info_formats info = Some (pre ++ f :: post)%list ->
       Forall (fun g => fmt_acodec g = Some "none") pre ->
       fmt_acodec f <> Some "none" ->
       vi_audio_url v = fmt_url f) /\
    (Forall (fun g => fmt_acodec g = Some "none") (default [] (info_formats info)) ->
     vi_audio_url v = None).
Proof.
  intros Hinfo. unfold extract_youtube_info. rewrite Hinfo. cbn.
  eexists. split; [done|]. cbn. split; [done|]. split.
  - intros pre f post -> Hpre Hf. by apply find_audio_url_first.
  - apply find_audio_url_none.
Qed.

Lemma audio_url_of_first_audio_format_witness :
  exists v,
    extract_youtube_info described_env "https://youtu.be/x" (__init__ "base" 30 5)
      = Some (v, set_total_duration 52 (__init__ "base" 30 5)) /\
    vi_audio_url v = None.
Proof.
  destruct (audio_url_of_first_audio_format described_env "https://youtu.be/x"
              (__init__ "base" 30 5) described_info eq_refl)
    as (v & Hv & _ & Hfirst & _).
  exists v. split; [exact Hv|].
  apply (Hfirst [ {| fmt_acodec := Some "none"; fmt_url := Some "https://v/1" |} ]
                {| fmt_acodec := Some "opus"; fmt_url := None |}
                [ {| fmt_acodec := Some "mp4a"; fmt_url := Some "https://a/2" |} ]).
  - reflexivity.
  - repeat constructor.
  - discriminate.
Defined.

(** X7: the description [extract_youtube_info] returns is the first 200
    characters of the resolver's description followed by three dots, also
    when the description is shorter than 200 characters; it is empty when
    the resolver gives no description or an empty one.  It is never longer
    than 203 characters. *)
Theorem description_is_cut (e : env) (url : string) (s : scribe)
    (v : video_info) (s' : scribe) :
  extract_youtube_info e url s = Some (v, s') ->
  exists info,
    extract_info e url = Some info /\
    (String.length (vi_description v) <= 203)%nat /\
    (forall d, info_description info = Some d -> d <> "" ->
       vi_description v = Py.take 200 d +:+ "..." /\
       String.length (vi_description v) = (Nat.min 200 (String.length d) + 3)%nat) /\
    (info_description info = None \/ info_description info = Some "" ->
     vi_description v = "").
Proof.
  unfold extract_youtube_info.
  destruct (extract_info e url) as [info|]; [|done].
  cbn [mbind option_bind].
  remember (Py.take 200 (default "" (info_description info))) as cut eqn:Hcut.
  intros [= <- _]. cbn [vi_description].
  exists info. split; [done|].
  assert (String.length cut
          = Nat.min 200 (String.length (default "" (info_description info))))
    as Hlen by (subst cut; apply take_length).
  destruct (info_description info) as [[|a d]|]; cbn [Py.truthy default from_option id] in *.
  - split; [cbn; lia|]. split; [by intros d' [= <-] ?|done].
  - rewrite length_append, Hlen. cbn [String.length].
    split; [lia|]. split; [|by intros [?|?]].
    intros d' [= <-] _. by subst cut.
  - split; [cbn; lia|]. split; [done|]. by intros [?|?].
Qed.

Lemma description_is_cut_witness :
  exists v s',
    extract_youtube_info described_env "https://youtu.be/x" (__init__ "base" 30 5)
      = Some (v, s') /\
    (String.length (vi_description v) <= 203)%nat.
Proof.
  eexists _, _. split; [reflexivity|].
  destruct (description_is_cut described_env "https://youtu.be/x"
              (__init__ "base" 30 5) _ _ eq_refl) as (info & _ & Hlen & _).
  exact Hlen.
Defined.

(** ** Further properties of a run *)

(** X8: a run in which no transcription gives a segment (the model
    raises, or hears nothing but white space) records nothing and writes
    none of its files, whatever else happens (failing extraction, signals,
    an early error): every file is left as it was found, and not even an
    empty text file is made.  (The output directory and the temporary
    chunk files, which the file system of the model leaves out, are all
    such a run makes.) *)
Theorem no_segment_no_file (e : env) (a : cli_args) (f : files)
    (evs : list event) :
  nothing_heard e ->
  let c := exec e evs (start_run a f) in
  transcripts (self c) = [] /\ fs c = f.
Proof.
  intros Hsilent c.
  destruct (exec_nothing_recorded e f Hsilent evs (start_run a f)) as (H1 & H2 & _);
    [by repeat split|done].
Qed.

Lemma no_segment_no_file_witness :
  let c := exec silent_env (replicate 30 Tick) (start_run sample_args ∅) in
  transcripts (self c) = [] /\ fs c = ∅.
Proof.
  apply (no_segment_no_file silent_env sample_args ∅ (replicate 30 Tick)).
  intros n data now ch. reflexivity.
Defined.

(** X9: a segment is recorded only once the output path is chosen, and
    that path ends in [.txt]; so the resume snapshot of a run is written
    to [<output>.resume.json] for that path, never for a missing one. *)
Theorem segments_have_an_output_file (e : env) (a : cli_args) (f : files)
    (evs : list event) :
  let c := exec e evs (start_run a f) in
  transcripts (self c) <> [] ->
  exists pre,
    output_file (self c) = Some (pre +:+ ".txt") /\
    resume_file (self c) = pre +:+ ".txt" +:+ ".resume.json".
Proof.
  intros c Hne.
  pose proof (exec_files_invariant e f evs _ (start_run_files_invariant a f))
    as (_ & _ & _ & Hnone & extra & _ & _ & _ & Hp).
  fold c in Hnone, Hp.
  destruct (output_file (self c)) as [p|] eqn:Hop; [|by destruct Hne; apply Hnone].
  destruct (Hp p eq_refl) as ([pre ->] & _).
  exists pre. split; [done|]. unfold resume_file. rewrite Hop. cbn.
  by rewrite append_assoc.
Qed.

Lemma segments_have_an_output_file_witness :
  exists pre,
    output_file (self (after_ticks steady_env 22)) = Some (pre +:+ ".txt").
Proof.
  destruct (segments_have_an_output_file steady_env sample_args ∅
              (replicate 22 Tick)) as (pre & Hpre & _).
  - vm_compute. discriminate.
  - exists pre. exact Hpre.
Defined.



(** X11: between two steps of a run, the files whose content differs from
    what it was before the run are among four, all different: the text
    file [p], [p.resume.json], and the JSON and SRT files named after [p]
    with every [.txt] removed; every other file keeps its content, and the
    resume file is written only by a run that received a signal.  Before
    the output path is chosen no file is written.  (A transcription makes
    a temporary chunk file and removes it before it returns; that file and
    the output directory are not files of the model.) *)
Theorem run_writes_only_its_output_files (e : env) (a : cli_args) (f : files)
    (evs : list event) :
  let c := exec e evs (start_run a f) in
  (output_file (self c) = None -> fs c = f) /\
  forall p, output_file (self c) = Some p ->
    NoDup (output_paths p) /\
    (forall path, path ∉ output_paths p -> fs c !! path = f !! path) /\
    (is_interrupted (self c) = false ->
     fs c !! resume_path p = f !! resume_path p).
Proof.
  intros c.
  pose proof (exec_files_invariant e f evs _ (start_run_files_invariant a f))
    as (_ & _ & _ & Hnone & extra & _ & Hex & Hnil & Hp).
  fold c in Hnone, Hex, Hnil, Hp.
  split; [intros Hop; apply Hnil; by rewrite (Hnone Hop), (Hex Hop)|].
  intros p Hop. destruct (Hp p Hop) as ([pre ->] & _ & Hother & Hres & _).
  split; [|done].
  destruct (output_paths_ne pre) as (H1 & H2 & H3 & H4 & H5 & H6).
  unfold output_paths. rewrite !NoDup_cons, !not_elem_of_cons.
  repeat split; auto using not_elem_of_nil, NoDup_nil_2.
Qed.

Lemma run_writes_only_its_output_files_witness :
  fs (after_ticks steady_env 30) !! "notes.md" = (∅ : files) !! "notes.md".
Proof.
  destruct (run_writes_only_its_output_files steady_env sample_args ∅
              (replicate 30 Tick)) as [_ H].
  destruct (H "transcripts/Talk_20240101_000000.txt") as (_ & Hother & _).
  - vm_compute. reflexivity.
  - apply Hother. unfold output_paths. rewrite !not_elem_of_cons.
    repeat split; try (vm_compute; discriminate). apply not_elem_of_nil.
Defined.

(** X12: with the overlap below the chunk length a run that receives no
    signal ends, with status 0 and not interrupted.  If it recorded no
    segment, it wrote none of its files.  If it recorded any, its output
    path is [<stem>.txt], no resume file was written, and, when [.txt]
    does not occur in the stem (it can only come from the output
    directory), the final results are saved: [<stem>.srt] holds the SRT
    document of all segments and [<stem>.json] the JSON document of the
    run. *)
Theorem completed_run_saves_final_results (e : env) (a : cli_args) (f : files) :
  arg_overlap a < arg_chunk_duration a ->
  exists n,
    let c := exec e (replicate n Tick) (start_run a f) in
    at_ c = Exited 0 /\
    is_interrupted (self c) = false /\
    (transcripts (self c) = [] -> fs c = f) /\
    (transcripts (self c) <> [] ->
     exists stem v now,
       output_file (self c) = Some (stem +:+ ".txt") /\
       video c = Some v /\
       fs c !! resume_path (stem +:+ ".txt") = f !! resume_path (stem +:+ ".txt") /\
       (occurs ".txt" stem = false ->
        fs c !! (stem +:+ ".srt")
          = Some [Text (srt_document (transcripts (self c)))] /\
        fs c !! (stem +:+ ".json") = Some [Json (json_data v (self c) now)])).
Proof.
  intros HLO.
  exists (steps_left e (start_run a f)).
  set (n := steps_left e (start_run a f)). intros c.
  destruct (exec_ticks_exit e n (start_run a f)) as [st Hst];
    [split; simpl; lia|lia|].
  fold c in Hst. unfold exit_status_of in Hst.
  destruct (at_ c) eqn:Hat; try done. injection Hst as ->.
  assert (st = 0) as ->
    by (apply exec_exit_status in Hat as [Hat| ->]; done).
  assert (is_interrupted (self c) = false) as Hint
    by (subst c; by rewrite exec_ticks_interrupted).
  pose proof (exec_files_invariant e f (replicate n Tick) _
                (start_run_files_invariant a f))
    as (_ & _ & _ & Hnone & extra & Hmid & _ & Hnil & Hp).
  fold c in Hnone, Hmid, Hnil, Hp.
  assert (extra = []) as ->.
  { unfold mid_save in Hmid. rewrite Hat in Hmid.
    destruct Hmid as [?|(t & _ & Hi)]; [done|congruence]. }
  rewrite app_nil_r in Hnil.
  split; [done|]. split; [done|]. split; [done|].
  intros Hne.
  destruct (output_file (self c)) as [p|] eqn:Hop; [|by destruct Hne; apply Hnone].
  destruct (Hp p eq_refl) as ([stem ->] & _ & _ & Hres & Hsaved).
  destruct Hsaved as (v & now & Hv & Hsrt & Hjson); [by rewrite Hat|done..|].
  exists stem, v, now. split; [done|]. split; [done|]. split; [by apply Hres|].
  intros Hstem. unfold srt_path, json_path in *.
  by rewrite (replace_txt_stem stem Hstem) in Hsrt, Hjson.
Qed.

Lemma completed_run_saves_final_results_witness :
  exists n,
    let c := exec steady_env (replicate n Tick) (start_run sample_args ∅) in
    at_ c = Exited 0 /\
    is_interrupted (self c) = false /\
    (transcripts (self c) = [] -> fs c = ∅) /\
    (transcripts (self c) <> [] ->
     exists stem v now,
       output_file (self c) = Some (stem +:+ ".txt") /\
       video c = Some v /\
       fs c !! resume_path (stem +:+ ".txt")
         = (∅ : files) !! resume_path (stem +:+ ".txt") /\
       (occurs ".txt" stem = false ->
        fs c !! (stem +:+ ".srt")
          = Some [Text (srt_document (transcripts (self c)))] /\
        fs c !! (stem +:+ ".json") = Some [Json (json_data v (self c) now)])).
Proof.
  apply (completed_run_saves_final_results steady_env sample_args ∅).
  simpl; lia.
Defined.

(** X13: at every point of a run the number of recorded segments is at
    most the number of calls of the model, which is at most the number of
    runs of FFmpeg: every segment comes from one transcription, every
    transcription from one extracted chunk. *)
Theorem segments_calls_and_runs (e : env) (a : cli_args) (f : files)
    (evs : list event) :
  let c := exec e evs (start_run a f) in
  (length (transcripts (self c)) <= whisper_calls c)%nat /\
  (whisper_calls c <= ffmpeg_calls (gen c))%nat.
Proof.
  intros c.
  pose proof (exec_calls_invariant e evs _ (start_run_calls_invariant a f))
    as (Hpre & Hw & Hf).
  fold c in Hpre, Hw, Hf. split; [lia|].
  destruct (before_loop (at_ c)) eqn:Hb.
  - destruct (Hpre eq_refl) as [-> _]. lia.
  - specialize (Hf eq_refl). lia.
Qed.



(** X15: [is_interrupted] is set exactly by a signal that arrives while
    the process is running: the flag of a run is true if and only if one
    of its events is a signal delivered before the process had ended. *)
Theorem interrupted_iff_signalled (e : env) (a : cli_args) (f : files)
    (evs : list event) :
  is_interrupted (self (exec e evs (start_run a f))) = true <->
  exists evs1 evs2,
    evs = (evs1 ++ Signal :: evs2)%list /\
    exit_status_of (exec e evs1 (start_run a f)) = None.
Proof.
  assert (forall evs c, is_interrupted (self c) = false ->
            is_interrupted (self (exec e evs c)) = true <->
            exists evs1 evs2,
              evs = (evs1 ++ Signal :: evs2)%list /\
              exit_status_of (exec e evs1 c) = None) as Hall.
  { clear. induction evs as [|ev evs IH]; intros c Hc.
    - simpl. rewrite Hc. split; [done|]. intros (evs1 & evs2 & H & _).
      by destruct evs1.
    - destruct (exit_status_of c) as [st|] eqn:Hst.
      + unfold exit_status_of in Hst. destruct (at_ c) eqn:Hat; try done.
        rewrite (exec_exited e _ c _ Hat), Hc. split; [done|].
        intros (evs1 & evs2 & _ & H). rewrite (exec_exited e _ c _ Hat) in H.
        unfold exit_status_of in H. by rewrite Hat in H.
      + destruct ev.
        * simpl. rewrite (IH (step e Tick c))
            by (by rewrite step_tick_interrupted).
          split.
          -- intros (evs1 & evs2 & -> & H). by exists (Tick :: evs1), evs2.
          -- intros (evs1 & evs2 & Heq & H).
             destruct evs1 as [|ev1 evs1]; [done|].
             injection Heq as <- ->. by exists evs1, evs2.
        * split; [intros _; by exists [], evs|]. intros _. simpl.
          pose proof (step_signal_exits e c Hst) as Hex.
          rewrite (exec_exited e _ _ _ Hex).
          rewrite (step_signal_eq e c Hst). unfold goto_fs. cbn [self].
          destruct (finally_clause_fields
                      (_signal_handler (now_isoformat e (clock c)) (self c) (fs c)).1)
            as (_ & _ & _ & _ & _ & -> & _).
          unfold _signal_handler. cbn [fst].
          by destruct (close_if_true_fields
                         (set_running false (set_interrupted true (self c))))
            as (_ & _ & _ & _ & _ & _ & _ & ->). }
  by apply Hall.
Qed.

Lemma interrupted_iff_signalled_witness :
  is_interrupted
    (self (exec flaky_env (replicate 8 Tick ++ [Signal]) (start_run sample_args ∅)))
  = true.
Proof.
  apply (interrupted_iff_signalled flaky_env sample_args ∅
           (replicate 8 Tick ++ [Signal])).
  exists (replicate 8 Tick), []. split; [reflexivity|].
  vm_compute. reflexivity.
Defined.

(** ** Names and times as they are printed *)

(** X16: for a whole number of seconds from 0 up [format_time] prints
    [H:MM:SS]: the hours of the day without padding, minutes and seconds
    with two digits; from 24 hours on the days come first, as [1 day, ]
    or [N days, ]. *)
Theorem format_time_shape (z : Z) :
  0 <= z < 86400 * 1000000000 ->
  format_time z =
  (if z <? 86400 then ""
   else pretty (z / 86400) +:+ (if z / 86400 =? 1 then " day, " else " days, "))
  +:+ pretty (z mod 86400 / 3600) +:+ ":" +:+ two_digits (z mod 3600 / 60)
  +:+ ":" +:+ two_digits (z mod 60).
Proof.
  intros Hz. unfold format_time, Py.timedelta_str, Py.str. cbv zeta.
  assert (z mod 86400 / 60 / 60 = z mod 86400 / 3600) as ->
    by (rewrite Z.div_div by lia; done).
  assert ((z mod 86400 / 60) mod 60 = z mod 3600 / 60) as ->
    by (Z.to_euclidean_division_equations; lia).
  assert ((z mod 86400) mod 60 = z mod 60) as ->
    by (Z.to_euclidean_division_equations; lia).
  assert (0 <= z mod 3600 / 60 < 60) by (Z.to_euclidean_division_equations; lia).
  assert (0 <= z mod 60 < 60) by (apply Z.mod_pos_bound; lia).
  assert (0 <= z / 86400) by (apply Z.div_pos; lia).
  rewrite !format_0d_2_small by lia.
  destruct (Z.ltb_spec z 86400) as [Hlt|Hge].
  - rewrite Z.div_small by lia. done.
  - destruct (Z.eqb_spec (z / 86400) 0) as [Hd0|_];
      [Z.to_euclidean_division_equations; lia|].
    rewrite Z.abs_eq by done.
    destruct (z / 86400 =? 1); by rewrite !append_assoc.
Qed.

Lemma format_time_shape_witness :
  format_time 3725 = "1:02:05".
Proof.
  rewrite (format_time_shape 3725) by lia. vm_compute. reflexivity.
Defined.

(** X17: for a title made of ASCII characters, the file-name stem [run]
    makes of it has at most 50 characters, all of them letters, digits,
    spaces, hyphens or underscores, and does not start with white space;
    so it holds no path separator and no dot, and the name
    [<stem>_<timestamp>.txt] never starts with a slash. *)
Theorem safe_title_is_safe (title : string) :
  Py.is_ascii title = true ->
  (String.length (safe_title title) <= 50)%nat /\
  (forall c, In c (list_ascii_of_string (safe_title title)) ->
     Py.isalnum c = true \/ c = " "%char \/ c = "-"%char \/ c = "_"%char) /\
  (forall c rest, safe_title title = String c rest -> Py.isspace c = false) /\
  (forall rest, String.prefix "/" (safe_title title +:+ "_" +:+ rest) = false).
Proof.
  intros _.
  unfold safe_title.
  set (allowed := fun c => Py.isalnum c || bool_decide (c = " "%char)
                           || bool_decide (c = "-"%char) || bool_decide (c = "_"%char)).
  set (kept := Py.filter_chars allowed title).
  assert (forall c, In c (list_ascii_of_string (Py.take 50 (Py.strip kept))) ->
            Py.isalnum c = true \/ c = " "%char \/ c = "-"%char \/ c = "_"%char)
    as Hchars.
  { intros c Hc. apply in_take, in_rstrip, in_lstrip, in_filter_chars in Hc.
    unfold allowed in Hc.
    apply orb_true_iff in Hc as [Hc|Hc];
      [apply orb_true_iff in Hc as [Hc|Hc];
       [apply orb_true_iff in Hc as [Hc|Hc]|]|];
      rewrite ?bool_decide_eq_true in Hc; auto. }
  split; [rewrite take_length; lia|]. split; [done|]. split.
  - intros c rest Hs. apply take_head in Hs as [r' Hs]. by eapply strip_head.
  - intros rest.
    destruct (Py.take 50 (Py.strip kept)) as [|c r] eqn:Hs; [done|].
    rewrite append_cons. cbn [String.prefix].
    destruct (Ascii.ascii_dec "/" c) as [<-|]; [exfalso|done].
    destruct (Hchars "/"%char ltac:(by left)) as [Hc|[Hc|[Hc|Hc]]];
      vm_compute in Hc; discriminate.
Qed.

Lemma safe_title_is_safe_witness :
  safe_title " Talk: part 1/2 (live) " = "Talk part 12 live" /\
  (String.length (safe_title " Talk: part 1/2 (live) ") <= 50)%nat.
Proof.
  split; [vm_compute; reflexivity|].
  apply (safe_title_is_safe " Talk: part 1/2 (live) "). reflexivity.
Defined.

(** X18: for a float offset that is not negative and whose integer part
    [n] is below [2^53], the hours, minutes and seconds that
    [_seconds_to_srt_time] prints are exactly those of [n], the same as
    for the [int] offset [n]: the rounding of the float operations never
    reaches them.  The milliseconds are a whole number in [0,1000). *)
Theorem float_stamp_fields_are_exact (x : spec_float) (n : Z) :
  F64.nonneg_finite x -> F64.to_int x = Some n -> n < 2 ^ 53 ->
  0 <= n /\
  exists ms,
    0 <= ms < 1000 /\
    _seconds_to_srt_time (PyFloat x)
    = Some (srt_time (n / 3600) (n mod 3600 / 60) (n mod 60) ms).
Proof.
  intros [Hvalid Hsign] Hn Hlt.
  destruct x as [s| | |s m e]; try done.
  - injection Hn as <-. split; [done|]. exists 0. split; [lia|].
    by destruct s; vm_compute.
  - subst s.
    pose proof (UlpFacts.nonneg_of_valid m e Hvalid) as Hx.
    pose proof (UlpFacts.pow2_pos 1074 ltac:(lia)) as Hp.
    rewrite (UlpFacts.to_int_spec _ Hx) in Hn. injection Hn as Hn.
    destruct (StampFields.seconds_to_srt_time_fields _ Hx)
      as (n' & ms & Hn' & Hn0 & Hms & Hout).
    { apply Z.nle_gt. intros Hge.
      apply (Z.div_le_mono _ _ (2 ^ 1074)) in Hge; [|done].
      rewrite Z.div_mul in Hge by lia. unfold Ulp.ulps in Hge. lia. }
    rewrite (UlpFacts.to_int_spec _ Hx) in Hn'. injection Hn' as Hn'.
    assert (n' = n) as -> by congruence.
    split; [done|]. by exists ms.
Qed.

Lemma float_stamp_fields_are_exact_witness :
  exists ms,
    0 <= ms < 1000 /\
    _seconds_to_srt_time (PyFloat (float_literal 37254 10))
    = Some (srt_time (3725 / 3600) (3725 mod 3600 / 60) (3725 mod 60) ms).
Proof.
  apply (float_stamp_fields_are_exact (float_literal 37254 10) 3725).
  - vm_compute. split; reflexivity.
  - vm_compute. reflexivity.
  - reflexivity.
Defined.

(** ** Runs that stop early and runs that never stop *)

(** X19: when the resolver reaches the video but no format carries an
    audio address (none with audio, or the first one with audio has no or
    an empty [url]), [run] reports it and returns: the process ends five
    steps after its start with status 0, having chosen no output path,
    written no file and run neither FFmpeg nor the model. *)
Theorem missing_audio_ends_run (e : env) (a : cli_args) (f : files)
    (info : yt_info) :
  makedirs_ok e = true -> load_model_ok e = true ->
  extract_info e (arg_url a) = Some info ->
  Py.truthy (find_audio_url (default [] (info_formats info))) = false ->
  let c := exec e (replicate 5 Tick) (start_run a f) in
  at_ c = Exited 0 /\ fs c = f /\ output_file (self c) = None /\
  transcripts (self c) = [] /\ is_running (self c) = false /\
  whisper_calls c = O /\ ffmpeg_calls (gen c) = O.
Proof.
  intros Hm Hl Hx Haudio c. subst c.
  change (replicate 5 Tick) with (replicate 3 Tick ++ replicate 2 Tick)%list.
  rewrite exec_app.
  destruct (run_to_check_audio e a f info Hm Hl Hx)
    as (v & s & -> & Hv & _ & _ & Htr & Hout & _ & _ & Hbar & _).
  unfold exec. cbn [replicate foldl].
  next_config c3.
  rewrite (tick_check_audio_missing e c3 v eq_refl eq_refl)
    by (by rewrite Hv, Haudio).
  next_config c4. rewrite (tick_finally e c4 eq_refl). subst c4 c3. unfold goto.
  cbn [at_ video self fs args gen whisper_calls clock].
  destruct (finally_clause_fields s) as (-> & -> & _ & _ & _ & _ & _ & _ & -> & _).
  done.
Qed.

Lemma missing_audio_ends_run_witness :
  let c := exec mute_env (replicate 5 Tick) (start_run sample_args ∅) in
  at_ c = Exited 0 /\ fs c = ∅ /\ output_file (self c) = None /\
  transcripts (self c) = [] /\ is_running (self c) = false /\
  whisper_calls c = O /\ ffmpeg_calls (gen c) = O.
Proof.
  apply (missing_audio_ends_run mute_env sample_args ∅
           {| info_title := Some "Talk"; info_duration := Some 52;
              info_uploader := None; info_description := None;
              info_formats := Some [ {| fmt_acodec := Some "none";
                                        fmt_url := Some "https://v/1" |} ] |}).
  - reflexivity.
  - reflexivity.
  - reflexivity.
  - reflexivity.
Defined.

(** X20: for a video with audio whose duration [format_time] accepts:
    when the overlap equals the chunk length, [run] fails on the division
    that sizes the progress bar, after the model is loaded and the video
    resolved: the process ends seven steps after its start with status 0,
    and neither FFmpeg nor the model was run and no file was written.
    When the overlap is above the chunk length, the duration is positive
    and FFmpeg never delivers a chunk, a run that receives no signal never
    ends: the generator moves its position backwards for ever. *)
Theorem overlap_not_below_chunk_length (e : env) (a : cli_args) (f : files)
    (info : yt_info) :
  makedirs_ok e = true -> load_model_ok e = true ->
  extract_info e (arg_url a) = Some info ->
  Py.truthy (find_audio_url (default [] (info_formats info))) = true ->
  Py.timedelta_ok (default 0 (info_duration info)) = true ->
  (arg_overlap a = arg_chunk_duration a ->
   let c := exec e (replicate 7 Tick) (start_run a f) in
   at_ c = Exited 0 /\ fs c = f /\ transcripts (self c) = [] /\
   whisper_calls c = O /\ ffmpeg_calls (gen c) = O) /\
  (arg_chunk_duration a < arg_overlap a -> 0 < default 0 (info_duration info) ->
   never_delivers e ->
   forall n, exit_status_of (exec e (replicate n Tick) (start_run a f)) = None).
Proof.
  intros Hm Hl Hx Haudio Hrange. split.
  - intros Heq c. subst c.
    change (replicate 7 Tick) with (replicate 3 Tick ++ replicate 4 Tick)%list.
    rewrite exec_app.
    destruct (run_to_check_audio e a f info Hm Hl Hx)
      as (v & s & -> & Hv & HL & HO & Htr & Hout & _ & _ & Hbar & _ & Hvd).
    unfold exec. cbn [replicate foldl].
    next_config c3.
    rewrite (tick_check_audio_found e c3 v eq_refl eq_refl)
      by (by rewrite ?Hvd, ?Hv).
    next_config c4. rewrite (tick_setup_output e c4 v eq_refl eq_refl).
    next_config c5. rewrite (tick_progress_bar_none e c5 eq_refl).
    2:{ subst c5 c4 c3. unfold total_chunks, goto.
        cbn [self chunk_duration overlap_duration set_output_file].
        rewrite HL, HO, Heq, Z.sub_diag. done. }
    next_config c6. rewrite (tick_finally e c6 eq_refl). subst c6 c5 c4 c3.
    unfold goto. cbn [at_ video self fs args gen whisper_calls clock].
    destruct (finally_clause_fields (set_output_file
                (Some (Py.path_join (arg_output_dir a)
                         (safe_title (vi_title v) +:+ "_" +:+ now_stamp e 4 +:+ ".txt")))
                s)) as (-> & _).
    done.
  - intros HLO HD Hnever n.
    apply (never_ending_running e), (exec_never_ending e Hnever).
    unfold never_ending. cbn. split; [done|]. split; [lia|].
    split; [done|]. split; [done|]. by exists info.
Qed.

Lemma overlap_not_below_chunk_length_witness :
  (let c := exec steady_env (replicate 7 Tick) (start_run equal_args ∅) in
   at_ c = Exited 0 /\ fs c = ∅ /\ transcripts (self c) = [] /\
   whisper_calls c = O /\ ffmpeg_calls (gen c) = O) /\
  exit_status_of (exec failing_env (replicate 40 Tick) (start_run reversed_args ∅))
  = None.
Proof.
  split.
  - apply (overlap_not_below_chunk_length steady_env equal_args ∅
             {| info_title := Some "Talk"; info_duration := Some 52;
                info_uploader := None; info_description := None;
                info_formats := Some [ {| fmt_acodec := Some "opus";
                                          fmt_url := Some "https://a/b" |} ] |});
      reflexivity.
  - apply (overlap_not_below_chunk_length failing_env reversed_args ∅
             {| info_title := Some "Talk"; info_duration := Some 52;
                info_uploader := None; info_description := None;
                info_formats := Some [ {| fmt_acodec := Some "opus";
                                          fmt_url := Some "https://a/b" |} ] |});
      first [reflexivity | simpl; lia | intros n ss t; exact I].
Defined.

(** X21: for a duration from 0 up and the overlap below the chunk length
    (both below [2^53], where the float quotient of [run] truncates to the
    integer quotient), the total [run] gives the progress bar is
    [D / (L - O) + 1]; it is never below the number of windows the
    generator goes through, equals it when the duration is not a multiple
    of the step, and is one more when it is: then the bar cannot fill. *)
Theorem progress_total_and_windows (s : scribe) :
  let D := total_duration s in
  let step := chunk_duration s - overlap_duration s in
  0 < step < 2 ^ 53 -> 0 <= D < 2 ^ 53 ->
  total_chunks s = Some (D / step + 1) /\
  Z.of_nat (window_count D step 0) <= D / step + 1 /\
  (D mod step = 0 -> D / step + 1 = Z.of_nat (window_count D step 0) + 1) /\
  (D mod step <> 0 -> D / step + 1 = Z.of_nat (window_count D step 0)).
Proof.
  intros D step Hstep HD.
  assert (total_chunks s = Some (D / step + 1)) as Htot.
  { unfold total_chunks. fold step D.
    destruct (Z.eqb_spec step 0); [lia|]. by rewrite Z.quot_div_nonneg by lia. }
  assert (Z.of_nat (window_count D step 0) = (D + step - 1) / step) as Hwc.
  { unfold window_count. rewrite Z2Nat.id by (apply Z.div_pos; lia).
    f_equal. lia. }
  rewrite Hwc. split; [done|].
  pose proof (Z.div_mod D step ltac:(lia)) as Hdm.
  pose proof (Z.mod_pos_bound D step ltac:(lia)) as Hmod.
  split; [|split].
  - assert ((D + step - 1) / step < D / step + 2); [|lia].
    apply Z.div_lt_upper_bound; nia.
  - intros H0. f_equal.
    apply (Z.div_unique _ _ _ (step - 1)); [lia|]. nia.
  - intros Hne.
    apply (Z.div_unique _ _ _ (D mod step - 1)); [lia|]. nia.
Qed.

Lemma progress_total_and_windows_witness :
  total_chunks (ready 50 (__init__ "base" 30 5)) = Some 3 /\
  window_count 50 25 0 = 2%nat.
Proof.
  destruct (progress_total_and_windows (ready 50 (__init__ "base" 30 5)))
    as (Htot & _ & Hmult & _).
  - vm_compute. split; reflexivity.
  - vm_compute. split; [discriminate|reflexivity].
  - split; [exact Htot|]. reflexivity.
Defined.

(** X22: when the output path is [<stem>.txt] and [.txt] does not occur
    in the stem, [save_final_results] with a non-empty transcript
    sequence writes the SRT document to [<stem>.srt] and the JSON document
    to [<stem>.json], returns normally and leaves every other path as it
    was.  ([.txt] is removed from the path wherever it occurs, so with an
    occurrence inside the stem the two files get another name.) *)
Theorem final_results_are_named_after_the_stem (v : video_info) (now : string)
    (s : scribe) (f : files) (stem : string) :
  output_file s = Some (stem +:+ ".txt") -> transcripts s <> [] ->
  occurs ".txt" stem = false ->
  let r := save_final_results v now s f in
  r.2 = true /\
  r.1 !! (stem +:+ ".srt") = Some [Text (srt_document (transcripts s))] /\
  r.1 !! (stem +:+ ".json") = Some [Json (json_data v s now)] /\
  forall path, path <> stem +:+ ".srt" -> path <> stem +:+ ".json" ->
    r.1 !! path = f !! path.
Proof.
  intros Hout Hne Hstem r. subst r. unfold save_final_results.
  destruct (transcripts s) as [|t l] eqn:Ht; [done|]. rewrite Hout, <- Ht.
  rewrite srt_document_records, (replace_txt_stem stem Hstem).
  cbn [fst snd]. unfold write_file.
  assert (stem +:+ ".json" <> stem +:+ ".srt") as Hjs
    by (intros H; by apply String.app_inj in H).
  split; [done|]. split; [apply lookup_insert_eq|]. split.
  - rewrite lookup_insert_ne by done. apply lookup_insert_eq.
  - intros path H1 H2. by rewrite !lookup_insert_ne.
Qed.

Lemma final_results_are_named_after_the_stem_witness :
  (save_final_results sample_video "2024-01-01T00:00:09" sample_scribe ∅).1
    !! "out/Talk.json"
  = Some [Json (json_data sample_video sample_scribe "2024-01-01T00:00:09")].
Proof.
  destruct (final_results_are_named_after_the_stem sample_video
              "2024-01-01T00:00:09" sample_scribe ∅ "out/Talk")
    as (_ & _ & H & _).
  - reflexivity.
  - discriminate.
  - reflexivity.
  - exact H.
Defined.
